(** * Operator actions and step identifiers of the workflow engine

    A shallow embedding of [pkg/utils/operation.go] and of the identifier
    rules of [pkg/steps/generator.go], with the properties the design
    document states about them. *)

From Stdlib Require Import ZArith.
From stdpp Require Import gmap strings list fin_maps relations.

Local Open Scope Z_scope.
Local Open Scope nat_scope.

(** ** Data model (package [api/v1alpha1]) *)

(** [metav1.Time]; [None] is the zero time, for which [IsZero] holds. *)
Definition Time : Type := option Z.

(** Modelled from the spec: the phase constants of [api/v1alpha1], whose
    declarations are not part of the sources at hand. A phase is a Go string
    type, so any string can be stored in a status. *)
Definition WorkflowStepPhaseSucceeded : string := "succeeded".
Definition WorkflowStepPhaseFailed : string := "failed".
Definition WorkflowStepPhaseSkipped : string := "skipped".
Definition WorkflowStepPhaseRunning : string := "running".
Definition WorkflowStepPhasePending : string := "pending".
Definition WorkflowStepPhaseSuspending : string := "suspending".

(** Modelled from the spec: the reasons and the step types of [pkg/types]. *)
Definition StatusReasonTerminate : string := "Terminate".
Definition StatusReasonFailedAfterRetries : string := "FailedAfterRetries".
Definition StatusReasonTimeout : string := "Timeout".
Definition WorkflowStepTypeSuspend : string := "suspend".
Definition WorkflowStepTypeStepGroup : string := "step-group".

(** Modelled from the spec: the execution modes of [api/v1alpha1]. *)
Definition WorkflowModeDAG : string := "DAG".
Definition WorkflowModeStep : string := "StepByStep".

(** Modelled from the spec: the record of one step's state, struct
    [StepStatus] of [api/v1alpha1]. *)
Module StepStatus.
Record t : Type := mk {
  ID : string;
  Name : string;
  Type_ : string;
  Phase : string;
  Message : string;
  Reason : string;
  FirstExecuteTime : Time;
  LastExecuteTime : Time }.

Definition with_Phase (p : string) (s : t) : t :=
  mk (ID s) (Name s) (Type_ s) p (Message s) (Reason s)
     (FirstExecuteTime s) (LastExecuteTime s).

Definition with_Reason (r : string) (s : t) : t :=
  mk (ID s) (Name s) (Type_ s) (Phase s) (Message s) r
     (FirstExecuteTime s) (LastExecuteTime s).
End StepStatus.

(** Modelled from the spec: struct [WorkflowStepStatus], a [StepStatus]
    (embedded in Go) with the states of its substeps. *)
Module WorkflowStepStatus.
Record t : Type := mk {
  StepStatus_ : StepStatus.t;
  SubStepsStatus : list StepStatus.t }.

Definition Name (s : t) : string := StepStatus.Name (StepStatus_ s).
Definition Phase (s : t) : string := StepStatus.Phase (StepStatus_ s).
Definition Reason (s : t) : string := StepStatus.Reason (StepStatus_ s).
Definition Type_ (s : t) : string := StepStatus.Type_ (StepStatus_ s).
Definition ID (s : t) : string := StepStatus.ID (StepStatus_ s).

Definition with_Phase (p : string) (s : t) : t :=
  mk (StepStatus.with_Phase p (StepStatus_ s)) (SubStepsStatus s).

Definition with_Reason (r : string) (s : t) : t :=
  mk (StepStatus.with_Reason r (StepStatus_ s)) (SubStepsStatus s).

Definition with_SubStepsStatus (subs : list StepStatus.t) (s : t) : t :=
  mk (StepStatus_ s) subs.
End WorkflowStepStatus.

(** Modelled from the spec: inputs and outputs of a step. *)
Record inputItem : Type := mkInput { From : string; ParameterKey : string }.
Record outputItem : Type := mkOutput { OutputName : string; ValueFrom : string }.

(** Modelled from the spec: struct [WorkflowStepBase], the declaration of a
    step or of a substep. *)
Module WorkflowStepBase.
Record t : Type := mk {
  Name : string;
  Type_ : string;
  If : string;
  Timeout : string;
  DependsOn : list string;
  Inputs : list inputItem;
  Outputs : list outputItem }.
End WorkflowStepBase.

(** Modelled from the spec: struct [WorkflowStep], a step (embedded base)
    with its substeps. *)
Module WorkflowStep.
Record t : Type := mk {
  Base : WorkflowStepBase.t;
  SubSteps : list WorkflowStepBase.t }.

Definition Name (s : t) : string := WorkflowStepBase.Name (Base s).
Definition Type_ (s : t) : string := WorkflowStepBase.Type_ (Base s).
Definition DependsOn (s : t) : list string := WorkflowStepBase.DependsOn (Base s).
Definition Inputs (s : t) : list inputItem := WorkflowStepBase.Inputs (Base s).
Definition Outputs (s : t) : list outputItem := WorkflowStepBase.Outputs (Base s).
End WorkflowStep.

(** Modelled from the spec: [WorkflowExecuteMode], the modes of the steps and
    of the substeps. *)
Record WorkflowExecuteMode : Type := mkMode { ModeSteps : string; ModeSubSteps : string }.

(** Modelled from the spec: struct [WorkflowRunStatus]. [ContextBackend] is
    a reference to the durable context object, of which the operators read
    the name only. *)
Module WorkflowRunStatus.
Record t : Type := mk {
  Suspend : bool;
  Terminated : bool;
  Finished : bool;
  ContextBackend : option string;
  Steps : list WorkflowStepStatus.t;
  EndTime : Time;
  Mode : WorkflowExecuteMode }.

(** The zero value [v1alpha1.WorkflowRunStatus{}]. *)
Definition zero : t := mk false false false None [] None (mkMode "" "").

Definition with_Suspend (b : bool) (s : t) : t :=
  mk b (Terminated s) (Finished s) (ContextBackend s) (Steps s) (EndTime s) (Mode s).
Definition with_Terminated (b : bool) (s : t) : t :=
  mk (Suspend s) b (Finished s) (ContextBackend s) (Steps s) (EndTime s) (Mode s).
Definition with_Finished (b : bool) (s : t) : t :=
  mk (Suspend s) (Terminated s) b (ContextBackend s) (Steps s) (EndTime s) (Mode s).
Definition with_Steps (l : list WorkflowStepStatus.t) (s : t) : t :=
  mk (Suspend s) (Terminated s) (Finished s) (ContextBackend s) l (EndTime s) (Mode s).
Definition with_EndTime (e : Time) (s : t) : t :=
  mk (Suspend s) (Terminated s) (Finished s) (ContextBackend s) (Steps s) e (Mode s).
End WorkflowRunStatus.

(** Modelled from the spec: struct [WorkflowRunSpec]: an inline list of
    steps ([WorkflowSpec], a pointer in Go) or the name of a workflow
    template. *)
Record WorkflowRunSpec : Type := mkSpec {
  SpecMode : option WorkflowExecuteMode;
  WorkflowSpec : option (list WorkflowStep.t);
  WorkflowRef : string }.

(** Modelled from the spec: struct [WorkflowRun]. *)
Module WorkflowRun.
Record t : Type := mk {
  Name : string;
  Namespace : string;
  Spec : WorkflowRunSpec;
  Status : WorkflowRunStatus.t }.

Definition with_Status (s : WorkflowRunStatus.t) (r : t) : t :=
  mk (Name r) (Namespace r) (Spec r) s.
End WorkflowRun.

(** ** Errors and the API client *)

(** The errors the operators see: those they build with [fmt.Errorf], and the
    status errors of the API server, of which they tell apart not-found
    ([kerrors.IsNotFound]) and conflict (retried by [retry.RetryOnConflict]). *)
Inductive error : Type :=
| Errorf (msg : string)
| ErrNotFound
| ErrConflict
| ErrServer (msg : string).

Definition IsNotFound (e : error) : bool :=
  match e with ErrNotFound => true | _ => false end.

Definition IsConflict (e : error) : bool :=
  match e with ErrConflict => true | _ => false end.

(** [client.ObjectKey]: namespace and name. *)
Abbreviation ObjectKey := (string * string)%type.

(** [corev1.ConfigMap], with its [Data]; [None] is Go's nil map, which can be
    read but not written. *)
Record ConfigMap : Type := mkConfigMap {
  cmNamespace : string;
  cmName : string;
  Data : option (gmap string string) }.

(** The cluster behind [client.Client]: the data of the stored context
    objects, the workflow templates, the stored status of the runs, and the
    faults of the API server still to come: every call takes the head of
    [faults] and fails with it when it is an error. *)
Record Cluster : Type := mkCluster {
  configMaps : gmap ObjectKey (option (gmap string string));
  workflows : gmap ObjectKey (list WorkflowStep.t);
  runs : gmap ObjectKey WorkflowRunStatus.t;
  faults : list (option error) }.

Definition next_fault (c : Cluster) : option error * Cluster :=
  match faults c with
  | [] => (None, c)
  | f :: rest => (f, mkCluster (configMaps c) (workflows c) (runs c) rest)
  end.

Definition with_configMaps (m : gmap ObjectKey (option (gmap string string)))
    (c : Cluster) : Cluster :=
  mkCluster m (workflows c) (runs c) (faults c).

Definition with_runs (m : gmap ObjectKey WorkflowRunStatus.t) (c : Cluster) : Cluster :=
  mkCluster (configMaps c) (workflows c) m (faults c).

(** The [Data] of a ConfigMap as the client decodes it: the field is left
    out of the document of an object whose data is empty, so what was stored
    as an empty map comes back as nil. *)
Definition decodedData (data : option (gmap string string)) : option (gmap string string) :=
  match data with
  | Some d => if decide (d = ∅) then None else Some d
  | None => None
  end.

(** [cli.Get(ctx, key, cm)] for a ConfigMap. *)
Definition GetConfigMap (key : ObjectKey) (c : Cluster) : (error + ConfigMap) * Cluster :=
  match next_fault c with
  | (Some e, c') => (inl e, c')
  | (None, c') =>
      match configMaps c' !! key with
      | Some data => (inr (mkConfigMap key.1 key.2 (decodedData data)), c')
      | None => (inl ErrNotFound, c')
      end
  end.

(** [cli.Get(ctx, key, workflow)] for a workflow template. *)
Definition GetWorkflow (key : ObjectKey) (c : Cluster) : (error + list WorkflowStep.t) * Cluster :=
  match next_fault c with
  | (Some e, c') => (inl e, c')
  | (None, c') =>
      match workflows c' !! key with
      | Some w => (inr w, c')
      | None => (inl ErrNotFound, c')
      end
  end.

(** [cli.Delete(ctx, cm)]. *)
Definition DeleteConfigMap (cm : ConfigMap) (c : Cluster) : option error * Cluster :=
  match next_fault c with
  | (Some e, c') => (Some e, c')
  | (None, c') =>
      let key := (cmNamespace cm, cmName cm) in
      match configMaps c' !! key with
      | Some _ => (None, with_configMaps (delete key (configMaps c')) c')
      | None => (Some ErrNotFound, c')
      end
  end.

(** [cli.Update(ctx, cm)]. *)
Definition UpdateConfigMap (cm : ConfigMap) (c : Cluster) : option error * Cluster :=
  match next_fault c with
  | (Some e, c') => (Some e, c')
  | (None, c') =>
      let key := (cmNamespace cm, cmName cm) in
      match configMaps c' !! key with
      | Some _ => (None, with_configMaps (<[key := Data cm]> (configMaps c')) c')
      | None => (Some ErrNotFound, c')
      end
  end.

(** [cli.Status().Update(ctx, run)]: the status of the run in memory is
    sent, and the server stores it for an existing run in place of the one
    it has. *)
Definition writeStatus (run : WorkflowRun.t) (c : Cluster) : option error * Cluster :=
  match next_fault c with
  | (Some e, c') => (Some e, c')
  | (None, c') =>
      let key := (WorkflowRun.Namespace run, WorkflowRun.Name run) in
      match runs c' !! key with
      | Some _ => (None, with_runs (<[key := WorkflowRun.Status run]> (runs c')) c')
      | None => (Some ErrNotFound, c')
      end
  end.

Definition StatusUpdate := writeStatus.

(** Modelled from the spec: the JSON document of a status, whose types
    ([api/v1alpha1]) are not at hand. The flags are always written, and an
    end time that is zero is written as null; the steps, the reference to
    the context and the two modes are left out when they are empty. A JSON
    merge patch replaces what the document has, a list as a whole, deletes
    what it has as null, and leaves what it does not have as stored.
    [mergeMode] is the patch of the two modes. *)
Definition mergeMode (held stored : WorkflowExecuteMode) : WorkflowExecuteMode :=
  mkMode (if decide (ModeSteps held = "") then ModeSteps stored else ModeSteps held)
         (if decide (ModeSubSteps held = "") then ModeSubSteps stored else ModeSubSteps held).

(** Modelled from the spec: the stored status after a merge patch with the
    document of the status held in memory. *)
Definition mergePatch (held stored : WorkflowRunStatus.t) : WorkflowRunStatus.t :=
  WorkflowRunStatus.mk
    (WorkflowRunStatus.Suspend held)
    (WorkflowRunStatus.Terminated held)
    (WorkflowRunStatus.Finished held)
    (match WorkflowRunStatus.ContextBackend held with
     | Some name => Some name
     | None => WorkflowRunStatus.ContextBackend stored
     end)
    (match WorkflowRunStatus.Steps held with
     | [] => WorkflowRunStatus.Steps stored
     | steps => steps
     end)
    (WorkflowRunStatus.EndTime held)
    (mergeMode (WorkflowRunStatus.Mode held) (WorkflowRunStatus.Mode stored)).

(** [cli.Status().Patch(ctx, run, client.Merge)]: the document of the run in
    memory is sent as a merge patch of the stored status, and the client
    decodes the answer of the server, the run as it is stored now, into
    [run]. The cluster of this model keeps the status of a run only, so the
    rest of the run stays as it is in memory. With an error [run] is left
    alone. *)
Definition StatusPatch (st : Cluster * WorkflowRun.t) :
    option error * (Cluster * WorkflowRun.t) :=
  let run := st.2 in
  match next_fault st.1 with
  | (Some e, c') => (Some e, (c', run))
  | (None, c') =>
      let key := (WorkflowRun.Namespace run, WorkflowRun.Name run) in
      match runs c' !! key with
      | Some stored =>
          let merged := mergePatch (WorkflowRun.Status run) stored in
          (None, (with_runs (<[key := merged]> (runs c')) c',
                  WorkflowRun.with_Status merged run))
      | None => (Some ErrNotFound, (c', run))
      end
  end.

(** [retry.RetryOnConflict(retry.DefaultBackoff, fn)]: [fn] runs again after
    a conflict, [steps] times at most (4 for [DefaultBackoff]); the last
    conflict is returned when the steps are used up. *)
Fixpoint retryOnConflict (steps : nat) (fn : Cluster -> option error * Cluster)
    (c : Cluster) : option error * Cluster :=
  match steps with
  | 0 => (None, c)
  | S n =>
      match fn c with
      | (None, c') => (None, c')
      | (Some e, c') =>
          if IsConflict e
          then match n with 0 => (Some e, c') | S _ => retryOnConflict n fn c' end
          else (Some e, c')
      end
  end.

Definition DefaultBackoffSteps : nat := 4.

Definition RetryOnConflict (fn : Cluster -> option error * Cluster) :
    Cluster -> option error * Cluster :=
  retryOnConflict DefaultBackoffSteps fn.

(** [retry.RetryOnConflict] for a function that also writes to variables of
    its caller, here the run in memory: [fn] takes and returns them with the
    cluster. *)
Fixpoint retryOnConflictWith {S : Type} (steps : nat) (fn : S -> option error * S)
    (s : S) : option error * S :=
  match steps with
  | 0 => (None, s)
  | S n =>
      match fn s with
      | (None, s') => (None, s')
      | (Some e, s') =>
          if IsConflict e
          then match n with 0 => (Some e, s') | S _ => retryOnConflictWith n fn s' end
          else (Some e, s')
      end
  end.

(** [io.Writer] of the operator: what was written, and whether writing
    fails. [None] is the nil writer. *)
Record Writer : Type := mkWriter { written : list string; broken : option string }.

(** [workflowRunOperator]; [cli] and [run] are pointers, so the operations
    take and return the cluster and the run. *)
Record workflowRunOperator : Type := mkOperator {
  cli : Cluster;
  outputWriter : option Writer;
  run : WorkflowRun.t }.

(** [wo.writeOutputF(format, a...)], the text already formatted. *)
Definition writeOutputF (w : option Writer) (text : string) : option error * option Writer :=
  match w with
  | None => (None, None)
  | Some wr =>
      match broken wr with
      | Some msg => (Some (Errorf msg), Some wr)
      | None => (None, Some (mkWriter (written wr ++ [text]) None))
      end
  end.

(** ** Helpers on slices *)

(** [for i, x := range xs { xs = body i x xs }]: the element is read from
    the array at the time of its turn, and the body may write to the array. *)
Definition rangeUpdate {A : Type} (body : nat -> A -> list A -> list A) (xs : list A) : list A :=
  foldl (fun arr i => match arr !! i with Some x => body i x arr | None => arr end)
        xs (seq 0 (length xs)).

Fixpoint stringsContain (items : list string) (source : string) : bool :=
  match items with
  | [] => false
  | item :: rest => if decide (item = source) then true else stringsContain rest source
  end.

Definition mergeUniqueStringSlice (a b : list string) : list string :=
  foldl (fun a item => if stringsContain a item then a else a ++ [item]) a b.

(** ** Terminate *)

(** The switch on the phase of a substep, writing
    [steps[i].SubStepsStatus[j]]; [subs] is the array behind
    [step.SubStepsStatus], which [steps[i]] shares. *)
Definition terminateSubStep (j : nat) (sub : StepStatus.t) (subs : list StepStatus.t) :
    list StepStatus.t :=
  if decide (StepStatus.Phase sub = WorkflowStepPhaseFailed) then
    if bool_decide (StepStatus.Reason sub ≠ StatusReasonFailedAfterRetries)
       && bool_decide (StepStatus.Reason sub ≠ StatusReasonTimeout)
    then alter (StepStatus.with_Reason StatusReasonTerminate) j subs
    else subs
  else if decide (StepStatus.Phase sub = WorkflowStepPhaseRunning) then
    alter (StepStatus.with_Reason StatusReasonTerminate) j
      (alter (StepStatus.with_Phase WorkflowStepPhaseFailed) j subs)
  else subs.

(** The body of the loop over [steps]: the switch on the phase of the step,
    then the loop over its substeps. *)
Definition terminateStep (i : nat) (step : WorkflowStepStatus.t)
    (steps : list WorkflowStepStatus.t) : list WorkflowStepStatus.t :=
  let steps1 :=
    if decide (WorkflowStepStatus.Phase step = WorkflowStepPhaseFailed) then
      if bool_decide (WorkflowStepStatus.Reason step ≠ StatusReasonFailedAfterRetries)
         && bool_decide (WorkflowStepStatus.Reason step ≠ StatusReasonTimeout)
      then alter (WorkflowStepStatus.with_Reason StatusReasonTerminate) i steps
      else steps
    else if decide (WorkflowStepStatus.Phase step = WorkflowStepPhaseRunning) then
      alter (WorkflowStepStatus.with_Reason StatusReasonTerminate) i
        (alter (WorkflowStepStatus.with_Phase WorkflowStepPhaseFailed) i steps)
    else steps in
  alter (WorkflowStepStatus.with_SubStepsStatus
           (rangeUpdate terminateSubStep (WorkflowStepStatus.SubStepsStatus step)))
        i steps1.

Definition TerminateWorkflow (cli : Cluster) (run : WorkflowRun.t) :
    option error * Cluster * WorkflowRun.t :=
  (* set the workflow terminated to true *)
  let status := WorkflowRunStatus.with_Terminated true (WorkflowRun.Status run) in
  (* set the workflow suspend to false *)
  let status := WorkflowRunStatus.with_Suspend false status in
  let steps := rangeUpdate terminateStep (WorkflowRunStatus.Steps status) in
  let run := WorkflowRun.with_Status (WorkflowRunStatus.with_Steps steps status) run in
  let '(err, (cli, run)) := retryOnConflictWith DefaultBackoffSteps StatusPatch (cli, run) in
  (err, cli, run).

Definition Terminate (wo : workflowRunOperator) : option error * workflowRunOperator :=
  match TerminateWorkflow (cli wo) (run wo) with
  | (Some err, c, r) => (Some err, mkOperator c (outputWriter wo) r)
  | (None, c, r) =>
      let '(err, w) := writeOutputF (outputWriter wo)
                         ("Successfully terminate workflow: " +:+ WorkflowRun.Name r +:+ "
") in
      (err, mkOperator c w r)
  end.

(** ** Resume and Rollback *)

Definition resumeSubStep (j : nat) (sub : StepStatus.t) (subs : list StepStatus.t) :
    list StepStatus.t :=
  if bool_decide (StepStatus.Type_ sub = WorkflowStepTypeSuspend)
     && bool_decide (StepStatus.Phase sub = WorkflowStepPhaseRunning)
  then alter (StepStatus.with_Phase WorkflowStepPhaseSucceeded) j subs
  else subs.

Definition resumeStep (i : nat) (step : WorkflowStepStatus.t)
    (steps : list WorkflowStepStatus.t) : list WorkflowStepStatus.t :=
  let steps1 :=
    if bool_decide (WorkflowStepStatus.Type_ step = WorkflowStepTypeSuspend)
       && bool_decide (WorkflowStepStatus.Phase step = WorkflowStepPhaseRunning)
    then alter (WorkflowStepStatus.with_Phase WorkflowStepPhaseSucceeded) i steps
    else steps in
  alter (WorkflowStepStatus.with_SubStepsStatus
           (rangeUpdate resumeSubStep (WorkflowStepStatus.SubStepsStatus step)))
        i steps1.

Definition ResumeWorkflow (cli : Cluster) (run : WorkflowRun.t) :
    option error * Cluster * WorkflowRun.t :=
  let status := WorkflowRunStatus.with_Suspend false (WorkflowRun.Status run) in
  let steps := rangeUpdate resumeStep (WorkflowRunStatus.Steps status) in
  let run := WorkflowRun.with_Status (WorkflowRunStatus.with_Steps steps status) run in
  let '(err, (cli, run)) := retryOnConflictWith DefaultBackoffSteps StatusPatch (cli, run) in
  (err, cli, run).

Definition Resume (wo : workflowRunOperator) : option error * workflowRunOperator :=
  if WorkflowRunStatus.Terminated (WorkflowRun.Status (run wo)) then
    (Some (Errorf "can not resume a terminated workflow"), wo)
  else
    let resumed :=
      if WorkflowRunStatus.Suspend (WorkflowRun.Status (run wo))
      then ResumeWorkflow (cli wo) (run wo)
      else (None, cli wo, run wo) in
    match resumed with
    | (Some err, c, r) => (Some err, mkOperator c (outputWriter wo) r)
    | (None, c, r) =>
        let '(err, w) := writeOutputF (outputWriter wo)
                           ("Successfully resume workflow: " +:+ WorkflowRun.Name r +:+ "
") in
        (err, mkOperator c w r)
    end.

(** Rollback is not supported for WorkflowRun. *)
Definition Rollback (wo : workflowRunOperator) : option error * workflowRunOperator :=
  (Some (Errorf "can not rollback a WorkflowRun"), wo).

(** ** The dependents of a step *)

(** Non-DAG mode, the loop over the substeps of one step: the names of the
    substeps after the first one called [stepName]. *)
Fixpoint subStepsAfter (subs : list WorkflowStepBase.t) (stepName : string) :
    option (list string) :=
  match subs with
  | [] => None
  | sub :: rest =>
      if decide (WorkflowStepBase.Name sub = stepName)
      then Some (WorkflowStepBase.Name <$> rest)
      else subStepsAfter rest stepName
  end.

(** Non-DAG mode, the loop over the steps: at the first step or substep
    called [stepName] the names at the indices after it are returned. *)
Fixpoint stepsAfter (steps : list WorkflowStep.t) (stepName : string) : list string :=
  match steps with
  | [] => []
  | step :: rest =>
      if decide (WorkflowStep.Name step = stepName)
      then WorkflowStep.Name <$> rest
      else match subStepsAfter (WorkflowStep.SubSteps step) stepName with
           | Some dependency => dependency
           | None => stepsAfter rest stepName
           end
  end.

(** DAG mode, first loop: [stepOutputs[output.Name] = name]. *)
Definition recordOutputs (name : string) (outputs : list outputItem)
    (stepOutputs : gmap string string) : gmap string string :=
  foldl (fun m output => <[OutputName output := name]> m) stepOutputs outputs.

Definition recordStep (maps : gmap string string * gmap string (list string))
    (b : WorkflowStepBase.t) : gmap string string * gmap string (list string) :=
  (recordOutputs (WorkflowStepBase.Name b) (WorkflowStepBase.Outputs b) maps.1,
   <[WorkflowStepBase.Name b := WorkflowStepBase.DependsOn b]> maps.2).

Definition recordSteps (steps : list WorkflowStep.t) :
    gmap string string * gmap string (list string) :=
  foldl (fun maps step =>
           foldl recordStep (recordStep maps (WorkflowStep.Base step))
                 (WorkflowStep.SubSteps step))
        (∅, ∅) steps.

(** DAG mode, second loop, for the inputs of one step or substep: the
    producer of an input is appended unless it is there already. *)
Definition addInputs (stepOutputs : gmap string string) (name : string)
    (inputs : list inputItem) (dependsOn : gmap string (list string)) :
    gmap string (list string) :=
  foldl (fun dependsOn input =>
           match stepOutputs !! From input with
           | Some producer =>
               if stringsContain (default [] (dependsOn !! name)) producer
               then dependsOn
               else <[name := default [] (dependsOn !! name) ++ [producer]]> dependsOn
           | None => dependsOn
           end)
        dependsOn inputs.

Definition addStepInputs (stepOutputs : gmap string string)
    (dependsOn : gmap string (list string)) (b : WorkflowStepBase.t) :
    gmap string (list string) :=
  addInputs stepOutputs (WorkflowStepBase.Name b) (WorkflowStepBase.Inputs b) dependsOn.

Definition addInputEdges (stepOutputs : gmap string string) (steps : list WorkflowStep.t)
    (dependsOn : gmap string (list string)) : gmap string (list string) :=
  foldl (fun dependsOn step =>
           foldl (addStepInputs stepOutputs)
                 (addStepInputs stepOutputs dependsOn (WorkflowStep.Base step))
                 (WorkflowStep.SubSteps step))
        dependsOn steps.

(** The map [dependsOn] at the call of [findDependency]. *)
Definition dependsOnMap (steps : list WorkflowStep.t) : gmap string (list string) :=
  let maps := recordSteps steps in
  addInputEdges maps.1 steps maps.2.

(** The inner loop of [findDependency], over the names [deps] that [step]
    depends on: at every occurrence of [stepName], [step] is appended and
    then what the call for [step] ([recur]) returns. [None] is a call that
    does not return. *)
Definition visitDeps (stepName : string) (recur : string -> option (list string))
    (step : string) (dependency : option (list string)) (deps : list string) :
    option (list string) :=
  foldl (fun acc dep =>
           if decide (dep = stepName) then
             match acc, recur step with
             | Some dependency, Some sub => Some ((dependency ++ [step]) ++ sub)
             | _, _ => None
             end
           else acc)
        dependency deps.

(** The outer loop of [findDependency], over the entries of the map. *)
Definition visitEntries (stepName : string) (recur : string -> option (list string))
    (dependency : option (list string)) (entries : list (string * list string)) :
    option (list string) :=
  foldl (fun acc entry => visitDeps stepName recur entry.1 acc entry.2) dependency entries.

Section Dependency.

(** The order in which [range] goes through a Go map, left open by the
    language. *)
Variable rangeMap : gmap string (list string) -> list (string * list string).

(** [findDependency] calls itself with no visited set; [fuel] bounds the
    depth of the calls, and [None] says that it was used up. *)
Fixpoint findDependency (fuel : nat) (stepName : string)
    (dependsOn : gmap string (list string)) : option (list string) :=
  match fuel with
  | 0 => None
  | S fuel' =>
      visitEntries stepName (fun step => findDependency fuel' step dependsOn)
                   (Some []) (rangeMap dependsOn)
  end.

Definition getStepDependency (fuel : nat) (steps : list WorkflowStep.t)
    (stepName : string) (dag : bool) : option (list string) :=
  if negb dag then Some (stepsAfter steps stepName)
  else findDependency fuel stepName (dependsOnMap steps).

End Dependency.

(** ** Deleting step statuses *)

Definition deleteStepStatus (dependency : list string) (steps : list WorkflowStepStatus.t)
    (stepName : string) (group : bool) : list WorkflowStepStatus.t :=
  foldl (fun status step =>
           if group && negb (stringsContain dependency (WorkflowStepStatus.Name step))
           then status ++ [step]
           else if negb group
                   && negb (stringsContain dependency (WorkflowStepStatus.Name step))
                   && bool_decide (WorkflowStepStatus.Name step ≠ stepName)
           then status ++ [step]
           else status)
        [] steps.

Definition deleteSubStepStatus (dependency : list string) (subSteps : list StepStatus.t)
    (stepName : string) : list StepStatus.t :=
  foldl (fun status step =>
           if negb (stringsContain dependency (StepStatus.Name step))
              && bool_decide (StepStatus.Name step ≠ stepName)
           then status ++ [step]
           else status)
        [] subSteps.

(** ** The variables of the context *)

(** The syntax of a CUE value, as far as [clearContextVars] looks at it: a
    struct literal with its declarations, or another node; a declaration is
    a field or another declaration (an embedding, an ellipsis, a comment). *)
Inductive Label : Type :=
| Ident (name : string)
| BasicLit (value : string)
| OtherLabel.

Inductive Node : Type :=
| StructLit (elts : list Decl)
| OtherNode (text : string)
with Decl : Type :=
| Field (label : Label) (value : Node)
| OtherDecl (text : string).

(** Modelled from the spec: [sets.LabelStr] of [pkg/cue/model/sets], the
    text of a label: the name of an identifier, the source text of a basic
    literal, and the empty string for any other label. *)
Definition LabelStr (label : Label) : string :=
  match label with
  | Ident name => name
  | BasicLit value => value
  | OtherLabel => ""
  end.

(** The double quote, the cutset of [strings.Trim]. *)
Definition quote : Ascii.ascii := Ascii.ascii_of_nat 34.

Fixpoint trimLeft (c : Ascii.ascii) (s : string) : string :=
  match s with
  | EmptyString => EmptyString
  | String a rest => if decide (a = c) then trimLeft c rest else s
  end.

Fixpoint trimRight (c : Ascii.ascii) (s : string) : string :=
  match s with
  | EmptyString => EmptyString
  | String a rest =>
      match trimRight c rest with
      | EmptyString => if decide (a = c) then EmptyString else String a EmptyString
      | t => String a t
      end
  end.

(** [strings.Trim(s, cutset)] for a cutset of one character. *)
Definition Trim (s : string) (c : Ascii.ascii) : string := trimRight c (trimLeft c s).

Definition fieldLabel (label : Label) : string := Trim (LabelStr label) quote.

(** The first loop of [clearContextVars]: the names of the outputs of the
    steps and substeps that are called [stepName] or are in [dependency]. *)
Definition outputsOf (stepName : string) (dependency : list string)
    (outputs : list string) (b : WorkflowStepBase.t) : list string :=
  if bool_decide (WorkflowStepBase.Name b = stepName)
     || stringsContain dependency (WorkflowStepBase.Name b)
  then foldl (fun outputs output => outputs ++ [OutputName output])
             outputs (WorkflowStepBase.Outputs b)
  else outputs.

Definition clearedOutputs (steps : list WorkflowStep.t) (stepName : string)
    (dependency : list string) : list string :=
  foldl (fun outputs step =>
           foldl (outputsOf stepName dependency)
                 (outputsOf stepName dependency outputs (WorkflowStep.Base step))
                 (WorkflowStep.SubSteps step))
        [] steps.

(** The second loop: the fields whose label is not one of [outputs]. *)
Definition keptElements (outputs : list string) (elts : list Decl) : list Decl :=
  foldl (fun element decl =>
           match decl with
           | Field label _ =>
               if stringsContain outputs (fieldLabel label) then element
               else element ++ [decl]
           | OtherDecl _ => element
           end)
        [] elts.

Section Restart.

Variable rangeMap : gmap string (list string) -> list (string * list string).

(** [value.NewValue(s, nil, "")] followed by
    [v.CueValue().Syntax(cue.ResolveReferences(true))]: the CUE library
    compiles the text and gives its syntax, or an error. *)
Variable NewValue : string -> error + Node.

(** [format.Node] of the CUE library. *)
Variable formatNode : Node -> error + string.

(** [v] is the syntax of the value. *)
Definition clearContextVars (steps : list WorkflowStep.t) (v : Node) (stepName : string)
    (dependency : list string) : error + string :=
  let outputs := clearedOutputs steps stepName dependency in
  match v with
  | StructLit elts => formatNode (StructLit (keptElements outputs elts))
  | OtherNode _ => inl (Errorf "value is not a struct lit")
  end.

(** What a call comes to: it returns (an error or nil), it panics, or it
    does not return because [findDependency] does not. *)
Inductive Outcome : Type :=
| Returned (err : option error)
| Panicked
| Diverged.

(** The variables of the loop of [RestartFromStep]. [stepStatus] is the
    array behind the slice of that name; [run.Status.Steps] shares it
    ([aliased]) until it is assigned the result of [deleteStepStatus]. *)
Record restartState : Type := mkRestart {
  rsRun : WorkflowRun.t;
  stepStatus : list WorkflowStepStatus.t;
  aliased : bool;
  found : bool;
  dependency : list string }.

Inductive Flow : Type :=
| Continue (st : restartState)
| Break (st : restartState)
| Return (err : error) (st : restartState)
| Panic (st : restartState)
| Diverge (st : restartState).

Definition runSteps (st : restartState) : list WorkflowStepStatus.t :=
  WorkflowRunStatus.Steps (WorkflowRun.Status (rsRun st)).

Definition setRunSteps (l : list WorkflowStepStatus.t) (r : WorkflowRun.t) : WorkflowRun.t :=
  WorkflowRun.with_Status (WorkflowRunStatus.with_Steps l (WorkflowRun.Status r)) r.

(** [run.Status.Steps[i] = f(run.Status.Steps[i])]; [None] is the panic of
    an index out of range. The write goes to the shared array as long as
    the two slices are aliased. *)
Definition writeRunStep (f : WorkflowStepStatus.t -> WorkflowStepStatus.t) (i : nat)
    (st : restartState) : option restartState :=
  if decide (i < length (runSteps st)) then
    Some (mkRestart (setRunSteps (alter f i (runSteps st)) (rsRun st))
                    (if aliased st then alter f i (stepStatus st) else stepStatus st)
                    (aliased st) (found st) (dependency st))
  else None.

(** The loop over the substeps of [step], the element [i] of [stepStatus]. *)
Fixpoint restartSubLoop (fuel : nat) (steps : list WorkflowStep.t) (stepName : string)
    (mode : WorkflowExecuteMode) (i : nat) (step : WorkflowStepStatus.t)
    (subs : list StepStatus.t) (st : restartState) : Flow :=
  match subs with
  | [] => Continue st
  | sub :: rest =>
      if decide (StepStatus.Name sub = stepName) then
        if decide (StepStatus.Phase sub ≠ WorkflowStepPhaseFailed) then
          Return (Errorf "can not restart from a non-failed step") st
        else
          match getStepDependency rangeMap fuel steps stepName
                  (bool_decide (ModeSubSteps mode = WorkflowModeDAG)) with
          | None => Diverge st
          | Some subDependency =>
              match writeRunStep
                      (WorkflowStepStatus.with_SubStepsStatus
                         (deleteSubStepStatus subDependency
                            (WorkflowStepStatus.SubStepsStatus step) stepName)) i st with
              | None => Panic st
              | Some st1 =>
              match writeRunStep (WorkflowStepStatus.with_Phase WorkflowStepPhaseRunning) i st1 with
              | None => Panic st1
              | Some st2 =>
              match writeRunStep (WorkflowStepStatus.with_Reason "") i st2 with
              | None => Panic st2
              | Some st3 =>
              match getStepDependency rangeMap fuel steps (WorkflowStepStatus.Name step)
                      (bool_decide (ModeSteps mode = WorkflowModeDAG)) with
              | None => Diverge st3
              | Some stepDependency =>
                  Break (mkRestart
                           (setRunSteps
                              (deleteStepStatus stepDependency (stepStatus st3) stepName true)
                              (rsRun st3))
                           (stepStatus st3) false true
                           (mergeUniqueStringSlice subDependency stepDependency))
              end end end end
          end
      else restartSubLoop fuel steps stepName mode i step rest st
  end.

(** The loop over [stepStatus], at the indices [idxs] still to come. The
    [break] in the loop over the substeps leaves that loop only, so this
    loop goes on after it. *)
Fixpoint restartLoop (fuel : nat) (steps : list WorkflowStep.t) (stepName : string)
    (mode : WorkflowExecuteMode) (idxs : list nat) (st : restartState) : Flow :=
  match idxs with
  | [] => Continue st
  | i :: rest =>
      match stepStatus st !! i with
      | None => restartLoop fuel steps stepName mode rest st
      | Some step =>
          if decide (WorkflowStepStatus.Name step = stepName) then
            if decide (WorkflowStepStatus.Phase step ≠ WorkflowStepPhaseFailed) then
              Return (Errorf "can not restart from a non-failed step") st
            else
              match getStepDependency rangeMap fuel steps stepName
                      (bool_decide (ModeSteps mode = WorkflowModeDAG)) with
              | None => Diverge st
              | Some dep =>
                  Break (mkRestart
                           (setRunSteps (deleteStepStatus dep (stepStatus st) stepName false)
                                        (rsRun st))
                           (stepStatus st) false true dep)
              end
          else
            match restartSubLoop fuel steps stepName mode i step
                    (WorkflowStepStatus.SubStepsStatus step) st with
            | Continue st' | Break st' => restartLoop fuel steps stepName mode rest st'
            | other => other
            end
      end
  end.

(** Modelled from the spec: [wfContext.ConfigMapKeyVars], the key of the
    variables in the durable context object. *)
Definition ConfigMapKeyVars : string := "vars".

(** The end of [RestartFromStep], after the status was written: the
    variables in the durable context object are cleared. *)
Definition restartContext (cli : Cluster) (run : WorkflowRun.t)
    (steps : list WorkflowStep.t) (stepName : string) (dependency : list string) :
    Outcome * Cluster :=
  match WorkflowRunStatus.ContextBackend (WorkflowRun.Status run) with
  | None => (Returned None, cli)
  | Some name =>
      match GetConfigMap (WorkflowRun.Namespace run, name) cli with
      | (inl err, cli) => (Returned (Some err), cli)
      | (inr cm, cli) =>
          match NewValue (default "" (Data cm ≫= (.!! ConfigMapKeyVars))) with
          | inl err => (Returned (Some err), cli)
          | inr v =>
              match clearContextVars steps v stepName dependency with
              | inl err => (Returned (Some err), cli)
              | inr s =>
                  match Data cm with
                  | None => (Panicked, cli)
                  | Some data =>
                      let cm := mkConfigMap (cmNamespace cm) (cmName cm)
                                  (Some (<[ConfigMapKeyVars := s]> data)) in
                      let '(err, cli) := RetryOnConflict (UpdateConfigMap cm) cli in
                      (Returned err, cli)
                  end
              end
          end
      end
  end.

(** [RestartFromStep] from its loop on, with the declared steps at hand;
    [run] has Terminated, Suspend, Finished and EndTime cleared already. *)
Definition restartFrom (fuel : nat) (cli : Cluster) (run : WorkflowRun.t)
    (steps : list WorkflowStep.t) (stepName : string) : Outcome * Cluster * WorkflowRun.t :=
  let stepStatus := WorkflowRunStatus.Steps (WorkflowRun.Status run) in
  let mode := WorkflowRunStatus.Mode (WorkflowRun.Status run) in
  match restartLoop fuel steps stepName mode (seq 0 (length stepStatus))
          (mkRestart run stepStatus true false []) with
  | Return err st => (Returned (Some err), cli, rsRun st)
  | Panic st => (Panicked, cli, rsRun st)
  | Diverge st => (Diverged, cli, rsRun st)
  | Continue st | Break st =>
      if negb (found st) then
        (Returned (Some (Errorf ("failed step " +:+ stepName +:+ " not found"))),
         cli, rsRun st)
      else
        match RetryOnConflict (StatusUpdate (rsRun st)) cli with
        | (Some err, cli) => (Returned (Some err), cli, rsRun st)
        | (None, cli) =>
            let '(out, cli) := restartContext cli (rsRun st) steps stepName (dependency st) in
            (out, cli, rsRun st)
        end
  end.

(** The status with the marks of the end of the run cleared, as at the
    start of [RestartFromStep]. *)
Definition clearedStatus (status : WorkflowRunStatus.t) : WorkflowRunStatus.t :=
  let status := WorkflowRunStatus.with_Terminated false status in
  let status := WorkflowRunStatus.with_Suspend false status in
  let status := WorkflowRunStatus.with_Finished false status in
  if bool_decide (WorkflowRunStatus.EndTime status ≠ None)
  then WorkflowRunStatus.with_EndTime None status else status.

(** RestartFromStep restart workflow from a failed step. *)
Definition RestartFromStep (fuel : nat) (cli : Cluster) (run : WorkflowRun.t)
    (stepName : string) : Outcome * Cluster * WorkflowRun.t :=
  if decide (stepName = "") then
    (Returned (Some (Errorf "step name can not be empty")), cli, run)
  else
    let run := WorkflowRun.with_Status (clearedStatus (WorkflowRun.Status run)) run in
    let fetched :=
      match WorkflowSpec (WorkflowRun.Spec run) with
      | Some steps => (inr steps, cli)
      | None => GetWorkflow (WorkflowRun.Namespace run, WorkflowRef (WorkflowRun.Spec run)) cli
      end in
    match fetched with
    | (inl err, cli) => (Returned (Some err), cli, run)
    | (inr steps, cli) => restartFrom fuel cli run steps stepName
    end.

(** RestartWorkflow restart workflow. *)
Definition RestartWorkflow (fuel : nat) (cli : Cluster) (run : WorkflowRun.t)
    (step : string) : Outcome * Cluster * WorkflowRun.t :=
  if decide (step ≠ "") then RestartFromStep fuel cli run step
  else
    let deleted :=
      match WorkflowRunStatus.ContextBackend (WorkflowRun.Status run) with
      | None => (None, cli)
      | Some name =>
          match GetConfigMap (WorkflowRun.Namespace run, name) cli with
          | (inr cm, cli) => DeleteConfigMap cm cli
          | (inl err, cli) => if negb (IsNotFound err) then (Some err, cli) else (None, cli)
          end
      end in
    match deleted with
    | (Some err, cli) => (Returned (Some err), cli, run)
    | (None, cli) =>
        (* reset the workflow status to restart the workflow *)
        let run := WorkflowRun.with_Status WorkflowRunStatus.zero run in
        let '(err, cli) := StatusUpdate run cli in
        (Returned err, cli, run)
    end.

Definition Restart (fuel : nat) (wo : workflowRunOperator) (step : string) :
    Outcome * workflowRunOperator :=
  match RestartWorkflow fuel (cli wo) (run wo) step with
  | (Returned None, c, r) =>
      let '(err, w) := writeOutputF (outputWriter wo)
                         ("Successfully restart workflow: " +:+ WorkflowRun.Name r +:+ "
") in
      (Returned err, mkOperator c w r)
  | (out, c, r) => (out, mkOperator c (outputWriter wo) r)
  end.

End Restart.

(** ** Step identifiers ([pkg/steps/generator.go]) *)

(** The random source: an endless sequence of draws, and how many of them
    were taken. *)
Record Rand : Type := mkRand { draws : nat -> nat; taken : nat }.

Definition letterBytes : list Ascii.ascii :=
  String.list_ascii_of_string "abcdefghijklmnopqrstuvwxyz0123456789".

Fixpoint randomLetters (n : nat) (d : nat -> nat) (pos : nat) : string :=
  match n with
  | 0 => EmptyString
  | S n' =>
      String (nth (d pos mod length letterBytes) letterBytes Ascii.zero)
             (randomLetters n' d (S pos))
  end.

(** Modelled from the spec: [utils.RandomString] of [pkg/utils], which is
    not part of the sources at hand: a fresh random string of the given
    length. *)
Definition RandomString (n : nat) (r : Rand) : string * Rand :=
  (randomLetters n (draws r) (taken r), mkRand (draws r) (taken r + n)).

(** The loop of [generateStepID]: the ID of the first status called [name]. *)
Fixpoint recordedStepID (steps : list WorkflowStepStatus.t) (name : string) : option string :=
  match steps with
  | [] => None
  | ss :: rest =>
      if decide (WorkflowStepStatus.Name ss = name) then Some (WorkflowStepStatus.ID ss)
      else recordedStepID rest name
  end.

Definition generateStepID (status : WorkflowRunStatus.t) (name : string) (r : Rand) :
    string * Rand :=
  match recordedStepID (WorkflowRunStatus.Steps status) name with
  | Some id => (id, r)
  | None => RandomString 10 r
  end.

(** The inner loop of [generateSubStepID]. *)
Fixpoint recordedSubID (subs : list StepStatus.t) (name : string) : option string :=
  match subs with
  | [] => None
  | sub :: rest =>
      if decide (StepStatus.Name sub = name) then Some (StepStatus.ID sub)
      else recordedSubID rest name
  end.

(** The outer loop of [generateSubStepID]: every status called
    [parentStepName] is searched, in order. *)
Fixpoint recordedSubStepID (steps : list WorkflowStepStatus.t) (name parentStepName : string) :
    option string :=
  match steps with
  | [] => None
  | ss :: rest =>
      if decide (WorkflowStepStatus.Name ss = parentStepName) then
        match recordedSubID (WorkflowStepStatus.SubStepsStatus ss) name with
        | Some id => Some id
        | None => recordedSubStepID rest name parentStepName
        end
      else recordedSubStepID rest name parentStepName
  end.

Definition generateSubStepID (status : WorkflowRunStatus.t) (name parentStepName : string)
    (r : Rand) : string * Rand :=
  match recordedSubStepID (WorkflowRunStatus.Steps status) name parentStepName with
  | Some id => (id, r)
  | None => RandomString 10 r
  end.

Section Generator.

(** [types.TaskRunner], built by the generator of a step type. *)
Variable TaskRunner : Type.

(** Modelled from the spec: [types.TaskGeneratorOptions] of [pkg/types], as
    far as the generator fills it. *)
Record TaskGeneratorOptions : Type := mkOptions {
  optID : string;
  SubTaskRunners : list TaskRunner;
  SubStepExecuteMode : string }.

(** [taskDiscover.GetTaskGenerator(ctx, step.Type)]: the registry of the
    step types. *)
Variable GetTaskGenerator :
  string -> error + (WorkflowStep.t -> TaskGeneratorOptions -> error + TaskRunner).

(** The end of [generateTaskRunner]: the generator of the type is looked up
    and called. *)
Definition callGenerator (step : WorkflowStep.t) (options : TaskGeneratorOptions) :
    error + TaskRunner :=
  match GetTaskGenerator (WorkflowStep.Type_ step) with
  | inl err => inl err
  | inr genTask => genTask step options
  end.

Definition groupOptions (wr : WorkflowRun.t) (options : TaskGeneratorOptions)
    (subTaskRunners : list TaskRunner) : TaskGeneratorOptions :=
  mkOptions (optID options) subTaskRunners
    (match SpecMode (WorkflowRun.Spec wr) with
     | Some mode => ModeSubSteps mode
     | None => WorkflowModeDAG
     end).

(** [generateTaskRunner] for a substep: the step it is called with has no
    substeps of its own. *)
Definition generateSubTaskRunner (wr : WorkflowRun.t) (subStep : WorkflowStepBase.t)
    (options : TaskGeneratorOptions) : error + TaskRunner :=
  let step := WorkflowStep.mk subStep [] in
  if decide (WorkflowStep.Type_ step = WorkflowStepTypeStepGroup)
  then callGenerator step (groupOptions wr options [])
  else callGenerator step options.

(** The loop of [generateTaskRunner] over the substeps of a group. *)
Fixpoint generateSubTaskRunners (wr : WorkflowRun.t) (stepName : string)
    (subSteps : list WorkflowStepBase.t) (subTaskRunners : list TaskRunner) (r : Rand) :
    (error + list TaskRunner) * Rand :=
  match subSteps with
  | [] => (inr subTaskRunners, r)
  | subStep :: rest =>
      let '(id, r) := generateSubStepID (WorkflowRun.Status wr)
                        (WorkflowStepBase.Name subStep) stepName r in
      match generateSubTaskRunner wr subStep (mkOptions id [] "") with
      | inl err => (inl err, r)
      | inr subTask =>
          generateSubTaskRunners wr stepName rest (subTaskRunners ++ [subTask]) r
      end
  end.

Definition generateTaskRunner (wr : WorkflowRun.t) (step : WorkflowStep.t)
    (options : TaskGeneratorOptions) (r : Rand) : (error + TaskRunner) * Rand :=
  if decide (WorkflowStep.Type_ step = WorkflowStepTypeStepGroup) then
    match generateSubTaskRunners wr (WorkflowStep.Name step)
            (WorkflowStep.SubSteps step) [] r with
    | (inl err, r) => (inl err, r)
    | (inr subTaskRunners, r) =>
        (callGenerator step (groupOptions wr options subTaskRunners), r)
    end
  else (callGenerator step options, r).

(** The loop of [Generate] over the steps of the run. *)
Fixpoint generateTasks (wr : WorkflowRun.t) (steps : list WorkflowStep.t)
    (tasks : list TaskRunner) (r : Rand) : (error + list TaskRunner) * Rand :=
  match steps with
  | [] => (inr tasks, r)
  | step :: rest =>
      let '(id, r) := generateStepID (WorkflowRun.Status wr) (WorkflowStep.Name step) r in
      match generateTaskRunner wr step (mkOptions id [] "") r with
      | (inl err, r) => (inl err, r)
      | (inr task, r) => generateTasks wr rest (tasks ++ [task]) r
      end
  end.

(** [Generate]; [None] is the panic at [wr.Spec.WorkflowSpec.Steps] of a run
    with no inline steps. *)
Definition Generate (wr : WorkflowRun.t) (r : Rand) :
    option ((error + list TaskRunner) * Rand) :=
  match WorkflowSpec (WorkflowRun.Spec wr) with
  | None => None
  | Some steps => Some (generateTasks wr steps [] r)
  end.

End Generator.

(** A task runner that keeps what the generator was called with: the step,
    its identifier, and the runners of its substeps. *)
#[warnings="-register-all"]
Inductive recordedTask : Type :=
| Recorded (step : WorkflowStep.t) (id : string) (subs : list recordedTask) (mode : string).

Definition taskID (t : recordedTask) : string :=
  match t with Recorded _ id _ _ => id end.

Definition taskSubs (t : recordedTask) : list recordedTask :=
  match t with Recorded _ _ subs _ => subs end.

Definition recorder (_ : string) :
    error + (WorkflowStep.t -> TaskGeneratorOptions recordedTask -> error + recordedTask) :=
  inr (fun step options =>
         inr (Recorded step (optID _ options) (SubTaskRunners _ options)
                       (SubStepExecuteMode _ options))).

(** ** What the design document says about the dependents *)

(** [t] lists [s] in its [dependsOn]. *)
Definition listedBy (dependsOn : gmap string (list string)) (s t : string) : Prop :=
  ∃ deps, dependsOn !! t = Some deps ∧ s ∈ deps.

(** [t] lists [s] in its [dependsOn], directly or through other steps. *)
Definition dependent (dependsOn : gmap string (list string)) (s t : string) : Prop :=
  tc (listedBy dependsOn) s t.

(** No step depends on itself, directly or through other steps. *)
Definition acyclic (dependsOn : gmap string (list string)) : Prop :=
  ∀ s, ¬ dependent dependsOn s s.

(** The declarations of the steps and of the substeps, in the order of the
    loops. *)
Definition declarations (steps : list WorkflowStep.t) : list WorkflowStepBase.t :=
  steps ≫= (fun step => WorkflowStep.Base step :: WorkflowStep.SubSteps step).

(** A status called [name], of a step or of a substep. *)
Definition statusNamed (steps : list WorkflowStepStatus.t) (name : string) (phase : string) : Prop :=
  (∃ ss, ss ∈ steps ∧ WorkflowStepStatus.Name ss = name ∧ WorkflowStepStatus.Phase ss = phase)
  ∨ (∃ ss sub, ss ∈ steps ∧ sub ∈ WorkflowStepStatus.SubStepsStatus ss
               ∧ StepStatus.Name sub = name ∧ StepStatus.Phase sub = phase).

(** What Terminate does to one status, of a step or of a substep: a running
    one fails with the reason Terminate, a failed one keeps the reasons
    FailedAfterRetries and Timeout and gets the reason Terminate in place of
    any other, and one in another phase is left as it is. *)
Definition terminatedEntry (s s' : StepStatus.t) : Prop :=
  StepStatus.ID s' = StepStatus.ID s
  ∧ StepStatus.Name s' = StepStatus.Name s
  ∧ StepStatus.Type_ s' = StepStatus.Type_ s
  ∧ StepStatus.Message s' = StepStatus.Message s
  ∧ StepStatus.FirstExecuteTime s' = StepStatus.FirstExecuteTime s
  ∧ StepStatus.LastExecuteTime s' = StepStatus.LastExecuteTime s
  ∧ (StepStatus.Phase s = WorkflowStepPhaseRunning →
     StepStatus.Phase s' = WorkflowStepPhaseFailed
     ∧ StepStatus.Reason s' = StatusReasonTerminate)
  ∧ (StepStatus.Phase s = WorkflowStepPhaseFailed →
     StepStatus.Phase s' = WorkflowStepPhaseFailed
     ∧ (StepStatus.Reason s = StatusReasonFailedAfterRetries
        ∨ StepStatus.Reason s = StatusReasonTimeout →
        StepStatus.Reason s' = StepStatus.Reason s)
     ∧ (StepStatus.Reason s ≠ StatusReasonFailedAfterRetries →
        StepStatus.Reason s ≠ StatusReasonTimeout →
        StepStatus.Reason s' = StatusReasonTerminate))
  ∧ (StepStatus.Phase s ≠ WorkflowStepPhaseRunning →
     StepStatus.Phase s ≠ WorkflowStepPhaseFailed → s' = s).

(** The key under which the status of a run is stored. *)
Definition runKey (run : WorkflowRun.t) : ObjectKey :=
  (WorkflowRun.Namespace run, WorkflowRun.Name run).

(** What Resume does to one status, of a step or of a substep: one of type
    suspend in the phase Running succeeds, and any other keeps its phase. *)
Definition resumedEntry (s s' : StepStatus.t) : Prop :=
  StepStatus.ID s' = StepStatus.ID s
  ∧ StepStatus.Name s' = StepStatus.Name s
  ∧ StepStatus.Type_ s' = StepStatus.Type_ s
  ∧ StepStatus.Message s' = StepStatus.Message s
  ∧ StepStatus.Reason s' = StepStatus.Reason s
  ∧ StepStatus.FirstExecuteTime s' = StepStatus.FirstExecuteTime s
  ∧ StepStatus.LastExecuteTime s' = StepStatus.LastExecuteTime s
  ∧ (StepStatus.Type_ s = WorkflowStepTypeSuspend →
     StepStatus.Phase s = WorkflowStepPhaseRunning →
     StepStatus.Phase s' = WorkflowStepPhaseSucceeded)
  ∧ (StepStatus.Type_ s ≠ WorkflowStepTypeSuspend
     ∨ StepStatus.Phase s ≠ WorkflowStepPhaseRunning →
     StepStatus.Phase s' = StepStatus.Phase s).

(** A run for the examples: no steps declared inline other than [steps], the
    given status. *)
Definition exampleRun (steps : list WorkflowStep.t) (status : WorkflowRunStatus.t) :
    WorkflowRun.t :=
  WorkflowRun.mk "run" "default" (mkSpec None (Some steps) "") status.

Definition exampleStatus (name type phase reason : string) : StepStatus.t :=
  StepStatus.mk ("id-" +:+ name) name type phase "" reason None None.

(** A cluster that stores the run of the examples and answers every call. *)
Definition exampleCluster (status : WorkflowRunStatus.t) : Cluster :=
  mkCluster ∅ ∅ {[ ("default", "run") := status ]} [].

(** A declaration for the examples. *)
Definition exampleStep (name : string) (dependsOn : list string) (inputs outputs : list string) :
    WorkflowStepBase.t :=
  WorkflowStepBase.mk name "apply" "" "" dependsOn
    ((fun x => mkInput x "value") <$> inputs)
    ((fun x => mkOutput x "output.value") <$> outputs).

(** The map in the order of its keys, one of the orders [range] can take. *)
Definition keyOrder (m : gmap string (list string)) : list (string * list string) :=
  map_to_list m.

(** [label] is the name of an output of the step or substep called
    [stepName], or of a step or substep in [dependency]. *)
Definition outputToClear (steps : list WorkflowStep.t) (stepName : string)
    (dependency : list string) (label : string) : Prop :=
  ∃ b, b ∈ declarations steps
       ∧ (WorkflowStepBase.Name b = stepName ∨ WorkflowStepBase.Name b ∈ dependency)
       ∧ label ∈ (OutputName <$> WorkflowStepBase.Outputs b).

(** The identifier a step gets, given what the status records under its
    name: the recorded one, or else a fresh random string of 10 characters. *)
Definition assignedID (recorded : option string) (id : string) : Prop :=
  match recorded with
  | Some i => id = i
  | None => ∃ r, id = (RandomString 10 r).1
  end.

(** The message of [RestartFromStep] for a step that did not fail. *)
Definition errNotFailed : error := Errorf "can not restart from a non-failed step".

(** The statuses at the indices [idxs] of the array of [st], none of which
    is called [stepName] or has a substep of that name. *)
Definition unnamedAt (stepName : string) (idxs : list nat) (st : restartState) : Prop :=
  ∀ i step, i ∈ idxs → stepStatus st !! i = Some step →
    WorkflowStepStatus.Name step ≠ stepName
    ∧ stepName ∉ (StepStatus.Name <$> WorkflowStepStatus.SubStepsStatus step).

(** A path of the dependents: every name of the list lists the one before
    it, the first one lists [s]. *)
Inductive chain (dependsOn : gmap string (list string)) : string → list string → Prop :=
| chain_nil (s : string) : chain dependsOn s []
| chain_cons (s t : string) (l : list string) :
    listedBy dependsOn s t → chain dependsOn t l → chain dependsOn s (t :: l).

(** The second loop of the DAG mode on the list of one step: the producers
    of its inputs are appended, each one once. *)
Definition withProducers (stepOutputs : gmap string string) (inputs : list inputItem)
    (deps : list string) : list string :=
  foldl (fun deps input =>
           match stepOutputs !! From input with
           | Some producer => if stringsContain deps producer then deps else deps ++ [producer]
           | None => deps
           end)
        deps inputs.

(** A check that a map has no cycle: from every key, [findDependency]
    returns, and the key is not among its own dependents. *)
Definition acyclicb (dependsOn : gmap string (list string)) : bool :=
  forallb (fun entry =>
             match findDependency keyOrder (S (size dependsOn)) entry.1 dependsOn with
             | Some r => negb (stringsContain r entry.1)
             | None => false
             end)
          (map_to_list dependsOn).

(** Three steps for the examples: [b] reads the output [x] of [a], and [c]
    names [b] in its [DependsOn]. *)
Definition exampleDag : list WorkflowStep.t :=
  [ WorkflowStep.mk (exampleStep "a" [] [] ["x"]) [];
    WorkflowStep.mk (exampleStep "b" [] ["x"] []) [];
    WorkflowStep.mk (exampleStep "c" ["b"] [] []) [] ].

(** The map [stepOutputs] after the first loop of the DAG mode: for the name
    of an output, the step or substep recorded as its producer. *)
Definition stepOutputs (steps : list WorkflowStep.t) : gmap string string :=
  (recordSteps steps).1.

(** The status after a restart from a step, but for its steps: the marks of
    the end of the run are cleared, and the rest is as before. *)
Definition restartCleared (status status' : WorkflowRunStatus.t) : Prop :=
  WorkflowRunStatus.Terminated status' = false
  ∧ WorkflowRunStatus.Suspend status' = false
  ∧ WorkflowRunStatus.Finished status' = false
  ∧ WorkflowRunStatus.EndTime status' = None
  ∧ WorkflowRunStatus.ContextBackend status' = WorkflowRunStatus.ContextBackend status
  ∧ WorkflowRunStatus.Mode status' = WorkflowRunStatus.Mode status.

(** No status of [statuses] is called [stepName], and none has a substep of
    that name. *)
Definition unnamed (stepName : string) (statuses : list WorkflowStepStatus.t) : Prop :=
  Forall (fun ss => WorkflowStepStatus.Name ss ≠ stepName
                    ∧ stepName ∉ (StepStatus.Name <$> WorkflowStepStatus.SubStepsStatus ss))
         statuses.

(** The steps that [RestartFromStep] reads: the ones declared in the run,
    or else the ones of the workflow template it refers to. *)
Definition declaredSteps (cli : Cluster) (run : WorkflowRun.t) :
    (error + list WorkflowStep.t) * Cluster :=
  match WorkflowSpec (WorkflowRun.Spec run) with
  | Some steps => (inr steps, cli)
  | None => GetWorkflow (WorkflowRun.Namespace run, WorkflowRef (WorkflowRun.Spec run)) cli
  end.

(** The status of a group after a restart from one of its substeps. *)
Definition restartedGroup (subDependency : list string) (stepName : string)
    (g : WorkflowStepStatus.t) : WorkflowStepStatus.t :=
  WorkflowStepStatus.with_Reason ""
    (WorkflowStepStatus.with_Phase WorkflowStepPhaseRunning
       (WorkflowStepStatus.with_SubStepsStatus
          (deleteSubStepStatus subDependency (WorkflowStepStatus.SubStepsStatus g) stepName)
          g)).

(** The words of a text, separated by spaces; [word] is the word being
    read. *)
Fixpoint wordsOf (text word : string) : list string :=
  match text with
  | EmptyString => if decide (word = "") then [] else [word]
  | String c rest =>
      if decide (c = Ascii.ascii_of_nat 32)
      then (if decide (word = "") then wordsOf rest "" else word :: wordsOf rest "")
      else wordsOf rest (word +:+ String c "")
  end.

(** For the examples: a CUE library that reads a text as the struct of the
    fields named by its words, and formats a struct as the labels of its
    fields. *)
Definition exampleNewValue (text : string) : error + Node :=
  inr (StructLit ((fun word => Field (Ident word) (OtherNode "_")) <$> wordsOf text "")).

Definition exampleFormat (v : Node) : error + string :=
  match v with
  | StructLit elts =>
      inr (foldr (fun decl text =>
                    match decl with
                    | Field label _ => fieldLabel label +:+ " " +:+ text
                    | OtherDecl _ => text
                    end) "" elts)
  | OtherNode text => inr text
  end.

(** Scenario 5 of the design document: four steps, run step by step, of
    which the third failed. *)
Definition scenario5Steps : list WorkflowStep.t :=
  [ WorkflowStep.mk (exampleStep "a" [] [] ["oa"]) [];
    WorkflowStep.mk (exampleStep "b" [] [] ["ob"]) [];
    WorkflowStep.mk (exampleStep "c" [] [] ["oc"]) [];
    WorkflowStep.mk (exampleStep "d" [] [] ["od"]) [] ].

Definition scenario5Status : WorkflowRunStatus.t :=
  WorkflowRunStatus.mk false true true None
    [ WorkflowStepStatus.mk (exampleStatus "a" "apply" WorkflowStepPhaseSucceeded "") [];
      WorkflowStepStatus.mk (exampleStatus "b" "apply" WorkflowStepPhaseSucceeded "") [];
      WorkflowStepStatus.mk (exampleStatus "c" "apply" WorkflowStepPhaseFailed "Execute") [];
      WorkflowStepStatus.mk (exampleStatus "d" "apply" WorkflowStepPhasePending "") [] ]
    (Some 7%Z) (mkMode WorkflowModeStep WorkflowModeStep).

(** A group whose second substep failed, between two steps. *)
Definition groupSteps : list WorkflowStep.t :=
  [ WorkflowStep.mk (exampleStep "a" [] [] []) [];
    WorkflowStep.mk (exampleStep "g" [] [] [])
      [exampleStep "x" [] [] []; exampleStep "y" [] [] []; exampleStep "z" [] [] []];
    WorkflowStep.mk (exampleStep "d" [] [] []) [] ].

Definition groupStatus : WorkflowRunStatus.t :=
  WorkflowRunStatus.mk false false true None
    [ WorkflowStepStatus.mk (exampleStatus "a" "apply" WorkflowStepPhaseSucceeded "") [];
      WorkflowStepStatus.mk (exampleStatus "g" "step-group" WorkflowStepPhaseFailed "Execute")
        [ exampleStatus "x" "apply" WorkflowStepPhaseSucceeded "";
          exampleStatus "y" "apply" WorkflowStepPhaseFailed "Execute";
          exampleStatus "z" "apply" WorkflowStepPhasePending "" ];
      WorkflowStepStatus.mk (exampleStatus "d" "apply" WorkflowStepPhasePending "") [] ]
    (Some 7%Z) (mkMode WorkflowModeStep WorkflowModeStep).

(** Scenario 5 with a durable context object, whose variables are the
    outputs of the four steps. *)
Definition scenario5Context : WorkflowRunStatus.t :=
  WorkflowRunStatus.mk false true true (Some "workflow-run-context")
    (WorkflowRunStatus.Steps scenario5Status)
    (Some 7%Z) (mkMode WorkflowModeStep WorkflowModeStep).

Definition scenario5Cluster (vars : string) (status : WorkflowRunStatus.t) : Cluster :=
  mkCluster {[ ("default", "workflow-run-context") := Some {[ "vars" := vars ]} ]} ∅
            {[ ("default", "run") := status ]} [].

(** A run in DAG mode in which a substep of a group reads the output of a
    step outside of the group: [x] of [g] reads the output [o] of [a]. *)
Definition crossSteps : list WorkflowStep.t :=
  [ WorkflowStep.mk (exampleStep "a" [] [] ["o"]) [];
    WorkflowStep.mk (WorkflowStepBase.mk "g" WorkflowStepTypeStepGroup "" "" [] [] [])
      [exampleStep "x" [] ["o"] []] ].

Definition crossStatus : WorkflowRunStatus.t :=
  WorkflowRunStatus.mk false false false None
    [ WorkflowStepStatus.mk (exampleStatus "a" "apply" WorkflowStepPhaseFailed "Execute") [];
      WorkflowStepStatus.mk (exampleStatus "g" "step-group" WorkflowStepPhaseRunning "")
        [ exampleStatus "x" "apply" WorkflowStepPhasePending "" ] ]
    None (mkMode WorkflowModeDAG WorkflowModeDAG).

(** ** The rest of the operator *)

(** NewWorkflowRunOperator get an workflow operator with k8sClient, ioWriter
    and the run. *)
Definition NewWorkflowRunOperator (cli : Cluster) (w : option Writer) (run : WorkflowRun.t) :
    workflowRunOperator :=
  mkOperator cli w run.

(** [cli.Get(ctx, runKey, run)]: the run in memory takes the stored status.
    The cluster of this model keeps the status of a run only, so the rest of
    the run stays as it is in memory. *)
Definition GetRun (key : ObjectKey) (c : Cluster) (run : WorkflowRun.t) :
    option error * Cluster * WorkflowRun.t :=
  match next_fault c with
  | (Some e, c') => (Some e, c', run)
  | (None, c') =>
      match runs c' !! key with
      | Some status => (None, c', WorkflowRun.with_Status status run)
      | None => (Some ErrNotFound, c', run)
      end
  end.

(** The function that [Suspend] hands to [retry.RetryOnConflict]. *)
Definition suspendOnce (key : ObjectKey) (st : Cluster * WorkflowRun.t) :
    option error * (Cluster * WorkflowRun.t) :=
  match GetRun key st.1 st.2 with
  | (Some err, c, run) => (Some err, (c, run))
  | (None, c, run) =>
      (* set the workflow suspend to true *)
      let run := WorkflowRun.with_Status
                   (WorkflowRunStatus.with_Suspend true (WorkflowRun.Status run)) run in
      StatusPatch (c, run)
  end.

(** Suspend suspend workflow. *)
Definition Suspend (wo : workflowRunOperator) : option error * workflowRunOperator :=
  let runKey := (WorkflowRun.Namespace (run wo), WorkflowRun.Name (run wo)) in
  match retryOnConflictWith DefaultBackoffSteps (suspendOnce runKey) (cli wo, run wo) with
  | (Some err, (c, r)) => (Some err, mkOperator c (outputWriter wo) r)
  | (None, (c, r)) =>
      let '(err, w) := writeOutputF (outputWriter wo)
                         ("Successfully suspend workflow: " +:+ WorkflowRun.Name r +:+ "
") in
      (err, mkOperator c w r)
  end.

(** ** What the code shows beyond the design document *)

(** No step and no substep of the status is in the phase Running. *)
Definition noneRunning (status : WorkflowRunStatus.t) : Prop :=
  Forall (fun step =>
            WorkflowStepStatus.Phase step ≠ WorkflowStepPhaseRunning
            ∧ Forall (fun sub => StepStatus.Phase sub ≠ WorkflowStepPhaseRunning)
                     (WorkflowStepStatus.SubStepsStatus step))
         (WorkflowRunStatus.Steps status).

(** No step and no substep of type suspend is in the phase Running. *)
Definition noSuspendRunning (status : WorkflowRunStatus.t) : Prop :=
  Forall (fun step =>
            ¬ (WorkflowStepStatus.Type_ step = WorkflowStepTypeSuspend
               ∧ WorkflowStepStatus.Phase step = WorkflowStepPhaseRunning)
            ∧ Forall (fun sub =>
                        ¬ (StepStatus.Type_ sub = WorkflowStepTypeSuspend
                           ∧ StepStatus.Phase sub = WorkflowStepPhaseRunning))
                     (WorkflowStepStatus.SubStepsStatus step))
         (WorkflowRunStatus.Steps status).

(** What the loops of [findDependency] append, when the calls for the
    entries that list [stepName] return [sub]: for every occurrence of
    [stepName] in the list of an entry, the key of the entry and then the
    names returned for it. *)
Definition collected (stepName : string) (sub : string → list string)
    (entries : list (string * list string)) : list string :=
  entries ≫= (fun entry =>
    entry.2 ≫= (fun dep => if decide (dep = stepName) then entry.1 :: sub entry.1 else [])).

(** The variables of the loop of [RestartFromStep] when it is left, on
    whatever way. *)
Definition flowState (f : Flow) : restartState :=
  match f with
  | Continue st | Break st | Return _ st | Panic st | Diverge st => st
  end.

(** Two groups that each have a substep called [x], run step by step, and
    their statuses after both substeps failed. *)
Definition repeatedSteps : list WorkflowStep.t :=
  [ WorkflowStep.mk (WorkflowStepBase.mk "g1" WorkflowStepTypeStepGroup "" "" [] [] [])
      [exampleStep "x" [] [] []];
    WorkflowStep.mk (WorkflowStepBase.mk "g2" WorkflowStepTypeStepGroup "" "" [] [] [])
      [exampleStep "x" [] [] []] ].

Definition repeatedStatus : WorkflowRunStatus.t :=
  WorkflowRunStatus.mk false false true None
    [ WorkflowStepStatus.mk (exampleStatus "g1" "step-group" WorkflowStepPhaseFailed "Execute")
        [exampleStatus "x" "apply" WorkflowStepPhaseFailed "Execute"];
      WorkflowStepStatus.mk (exampleStatus "g2" "step-group" WorkflowStepPhaseFailed "Execute")
        [exampleStatus "x" "apply" WorkflowStepPhaseFailed "Execute"] ]
    None (mkMode WorkflowModeStep WorkflowModeStep).

(** What an operation of the operator does to its writer when it returns
    [err]: nothing with an error, and with nil the message of the operation,
    [prefix] and the name of the run, is written, when there is a writer. *)
Definition announces (prefix : string) (wo : workflowRunOperator) (err : option error)
    (wo' : workflowRunOperator) : Prop :=
  match outputWriter wo with
  | None => outputWriter wo' = None
  | Some w =>
      ∃ w', outputWriter wo' = Some w' ∧ broken w' = broken w
        ∧ match err with
          | None => written w' = written w ++ [prefix +:+ WorkflowRun.Name (run wo) +:+ "
"]
          | Some _ => written w' = written w
          end
  end.

(** ** The downstream dependents, as the design document has them (4.6) *)

(** [p] produces the output called [x]: a step or substep of that name
    declares an output called [x], and it is the last one to do so in the
    order of the declarations when several do. *)
Definition producer (steps : list WorkflowStep.t) (x p : string) : Prop :=
  ∃ pre b post,
    declarations steps = pre ++ b :: post
    ∧ WorkflowStepBase.Name b = p
    ∧ x ∈ (OutputName <$> WorkflowStepBase.Outputs b)
    ∧ ∀ b', b' ∈ post → x ∉ (OutputName <$> WorkflowStepBase.Outputs b').





(** A step [x] that waits for [a], and a group [g] with a substep that is
    called [x] too and waits for nothing. *)
Definition sameNameDag : list WorkflowStep.t :=
  [ WorkflowStep.mk (exampleStep "a" [] [] []) [];
    WorkflowStep.mk (exampleStep "x" ["a"] [] []) [];
    WorkflowStep.mk (WorkflowStepBase.mk "g" WorkflowStepTypeStepGroup "" "" [] [] [])
      [exampleStep "x" [] [] []] ].


(** ** The dependents, with the order of every [range] taken on its own *)

(** Go fixes no order for a [range] over a map, and every call of
    [findDependency] ranges over [dependsOn] on its own. Here every call
    takes its own order: a call is told apart by its [path], the entries
    and the positions in their lists through which the calls went down to
    it, the last one first, and [order path] is the order it takes.
    [visitDepsAt] is the inner loop at the position [i] of the list. *)
Fixpoint visitDepsAt (stepName : string) (recur : nat → option (list string))
    (step : string) (i : nat) (dependency : option (list string)) (deps : list string) :
    option (list string) :=
  match deps with
  | [] => dependency
  | dep :: rest =>
      visitDepsAt stepName recur step (S i)
        (if decide (dep = stepName) then
           match dependency, recur i with
           | Some dependency, Some sub => Some ((dependency ++ [step]) ++ sub)
           | _, _ => None
           end
         else dependency)
        rest
  end.

Definition visitEntriesAt (stepName : string) (recur : string → nat → option (list string))
    (dependency : option (list string)) (entries : list (string * list string)) :
    option (list string) :=
  foldl (fun acc entry => visitDepsAt stepName (recur entry.1) entry.1 0 acc entry.2)
        dependency entries.

Fixpoint findDependencyAt
    (order : list (string * nat) → gmap string (list string) → list (string * list string))
    (fuel : nat) (path : list (string * nat)) (stepName : string)
    (dependsOn : gmap string (list string)) : option (list string) :=
  match fuel with
  | 0 => None
  | S fuel' =>
      visitEntriesAt stepName
        (fun step i => findDependencyAt order fuel' ((step, i) :: path) step dependsOn)
        (Some []) (order path dependsOn)
  end.

(** Two calls that both do not return, or return the same names, each as
    many times. *)
Definition sameResult (r1 r2 : option (list string)) : Prop :=
  match r1, r2 with
  | Some l1, Some l2 => l1 ≡ₚ l2
  | None, None => True
  | _, _ => False
  end.

(** An order that is not the same in every call: the entries from first to
    last in the calls at an even depth, from last to first in the others. *)
Definition zigzagOrder (path : list (string * nat)) (m : gmap string (list string)) :
    list (string * list string) :=
  if Nat.even (length path) then map_to_list m else reverse (map_to_list m).

(** * Properties *)

(** ** Slices *)

Lemma stringsContain_true (items : list string) (source : string) :
  stringsContain items source = true ↔ source ∈ items.
Proof.
  induction items as [|item rest IH]; simpl.
  - split; [discriminate | intros H; inversion H].
  - destruct (decide (item = source)) as [->|Hne].
    + split; [intros _; left | done].
    + rewrite IH. split; [by right |].
      intros H. apply elem_of_cons in H as [H|H]; [congruence | done].
Qed.

Lemma stringsContain_false (items : list string) (source : string) :
  stringsContain items source = false ↔ source ∉ items.
Proof.
  rewrite <- stringsContain_true. destruct (stringsContain items source); split; congruence.
Qed.

Lemma alter_lookup_insert {A : Type} (f : A → A) (l : list A) (i : nat) (x : A) :
  l !! i = Some x → alter f i l = <[i := f x]> l.
Proof.
  intros Hx. apply list_eq. intros j.
  destruct (decide (i = j)) as [<-|Hne].
  - rewrite list_lookup_alter_eq, Hx. simpl.
    symmetry. apply list_lookup_insert_eq. by eapply lookup_lt_Some.
  - by rewrite list_lookup_alter_ne, list_lookup_insert_ne.
Qed.

Lemma rangeUpdate_from {A : Type} (R : A → A → Prop) (body : nat → A → list A → list A) :
  (∀ i x arr, arr !! i = Some x → ∃ y, body i x arr = <[i := y]> arr ∧ R x y) →
  ∀ (todo done : list A),
    ∃ todo',
      foldl (fun arr i => match arr !! i with Some x => body i x arr | None => arr end)
            (done ++ todo) (seq (length done) (length todo))
      = done ++ todo'
      ∧ Forall2 R todo todo'.
Proof.
  intros Hbody todo. induction todo as [|x todo IH]; intros done; simpl.
  - exists []. by split.
  - rewrite list_lookup_middle by done.
    destruct (Hbody (length done) x (done ++ x :: todo)) as (y & -> & Hy);
      [by apply list_lookup_middle|].
    rewrite insert_app_r_alt by done.
    replace (length done - length done) with 0 by lia. simpl.
    destruct (IH (done ++ [y])) as (todo' & Heq & HR).
    rewrite length_app in Heq. simpl in Heq.
    replace (length done + 1) with (S (length done)) in Heq by lia.
    rewrite <- !app_assoc in Heq. simpl in Heq.
    exists (y :: todo'). split; [exact Heq | by constructor].
Qed.

(** A loop that writes only the element of its turn relates the slice after
    it to the slice before it, element by element. *)
Lemma rangeUpdate_Forall2 {A : Type} (R : A → A → Prop) (body : nat → A → list A → list A)
    (xs : list A) :
  (∀ i x arr, arr !! i = Some x → ∃ y, body i x arr = <[i := y]> arr ∧ R x y) →
  Forall2 R xs (rangeUpdate body xs).
Proof.
  intros Hbody. unfold rangeUpdate.
  destruct (rangeUpdate_from R body Hbody xs []) as (xs' & Heq & HR).
  simpl in Heq. by rewrite Heq.
Qed.

(** ** The API client *)

Lemma next_fault_stores (c c' : Cluster) (f : option error) :
  next_fault c = (f, c') →
  configMaps c' = configMaps c ∧ workflows c' = workflows c ∧ runs c' = runs c.
Proof.
  unfold next_fault. destruct (faults c); intros [= <- <-]; done.
Qed.

Lemma writeStatus_ok (run : WorkflowRun.t) (c c' : Cluster) :
  writeStatus run c = (None, c') →
  runs c' !! runKey run = Some (WorkflowRun.Status run)
  ∧ configMaps c' = configMaps c.
Proof.
  unfold writeStatus. destruct (next_fault c) as [[e|] c1] eqn:Hf; [discriminate|].
  apply next_fault_stores in Hf as (Hcm & _ & Hr).
  destruct (runs c1 !! _) eqn:Hl; [|discriminate].
  intros [= <-]. simpl. split; [apply lookup_insert_eq | done].
Qed.

Lemma writeStatus_err (run : WorkflowRun.t) (c c' : Cluster) (e : error) :
  writeStatus run c = (Some e, c') →
  runs c' = runs c ∧ configMaps c' = configMaps c.
Proof.
  unfold writeStatus. destruct (next_fault c) as [[e'|] c1] eqn:Hf;
    apply next_fault_stores in Hf as (Hcm & _ & Hr).
  - by intros [= <- <-].
  - destruct (runs c1 !! _); [discriminate|]. by intros [= <- <-].
Qed.

Lemma retryOnConflict_writeStatus_ok (n : nat) (run : WorkflowRun.t) (c c' : Cluster) :
  retryOnConflict (S n) (writeStatus run) c = (None, c') →
  runs c' !! runKey run = Some (WorkflowRun.Status run)
  ∧ configMaps c' = configMaps c.
Proof.
  revert c. induction n as [|n IH]; intros c; simpl.
  - destruct (writeStatus run c) as [[e|] c1] eqn:Hw.
    + destruct (IsConflict e); discriminate.
    + intros [= <-]. by apply writeStatus_ok.
  - destruct (writeStatus run c) as [[e|] c1] eqn:Hw.
    + destruct (IsConflict e); [|discriminate].
      apply writeStatus_err in Hw as [_ Hcm]. intros H.
      apply IH in H as [H1 H2]. split; [done | congruence].
    + intros [= <-]. by apply writeStatus_ok.
Qed.

(** A patch that changes nothing but the flags and the end time of the
    stored status stores the status it sends. *)
Lemma mergePatch_same (held stored : WorkflowRunStatus.t) :
  WorkflowRunStatus.ContextBackend held = WorkflowRunStatus.ContextBackend stored →
  WorkflowRunStatus.Steps held = WorkflowRunStatus.Steps stored →
  WorkflowRunStatus.Mode held = WorkflowRunStatus.Mode stored →
  mergePatch held stored = held.
Proof.
  destruct held as [s t f cb steps e [ms mss]], stored as [s' t' f' cb' steps' e' [ms' mss']].
  simpl. intros <- <- [= <- <-]. unfold mergePatch, mergeMode. simpl.
  f_equal.
  - by destruct cb.
  - by destruct steps.
  - f_equal; by destruct (decide _).
Qed.

(** What one patch of the status comes to: with an error nothing is stored
    and the run in memory is left alone; with nil the run was stored, the
    merged status is stored in place of the one before, and the run in
    memory has it. *)
Lemma StatusPatch_result (c c' : Cluster) (r r' : WorkflowRun.t) (err : option error) :
  StatusPatch (c, r) = (err, (c', r')) →
  configMaps c' = configMaps c ∧ workflows c' = workflows c
  ∧ match err with
    | Some _ => runs c' = runs c ∧ r' = r
    | None => ∃ stored, runs c !! runKey r = Some stored
                ∧ r' = WorkflowRun.with_Status (mergePatch (WorkflowRun.Status r) stored) r
                ∧ runs c' = <[runKey r := mergePatch (WorkflowRun.Status r) stored]> (runs c)
    end.
Proof.
  unfold StatusPatch. simpl. destruct (next_fault c) as [[e|] c1] eqn:Hf;
    apply next_fault_stores in Hf as (Hcm & Hw & Hr).
  - by intros [= <- <- <-].
  - fold (runKey r). destruct (runs c1 !! runKey r) as [stored|] eqn:Hl.
    + intros [= <- <- <-]. rewrite <- Hr. do 2 (split; [done|]).
      by exists stored.
    + by intros [= <- <- <-].
Qed.

Lemma retryOnConflictWith_StatusPatch (n : nat) (c c' : Cluster) (r r' : WorkflowRun.t)
    (err : option error) :
  retryOnConflictWith (S n) StatusPatch (c, r) = (err, (c', r')) →
  configMaps c' = configMaps c ∧ workflows c' = workflows c
  ∧ match err with
    | Some _ => runs c' = runs c ∧ r' = r
    | None => ∃ stored, runs c !! runKey r = Some stored
                ∧ r' = WorkflowRun.with_Status (mergePatch (WorkflowRun.Status r) stored) r
                ∧ runs c' = <[runKey r := mergePatch (WorkflowRun.Status r) stored]> (runs c)
    end.
Proof.
  revert c. induction n as [|n IH]; intros c; simpl.
  - destruct (StatusPatch (c, r)) as [[e|] [c1 r1]] eqn:Hp; apply StatusPatch_result in Hp.
    + destruct (IsConflict e); by intros [= <- <- <-].
    + by intros [= <- <- <-].
  - destruct (StatusPatch (c, r)) as [[e|] [c1 r1]] eqn:Hp; apply StatusPatch_result in Hp.
    + destruct (IsConflict e); [|by intros [= <- <- <-]].
      destruct Hp as (Hcm & Hw & Hr & ->). intros H. apply IH in H as (? & ? & H).
      rewrite Hcm, Hw, Hr in *. done.
    + by intros [= <- <- <-].
Qed.

(** ** Terminate *)

Ltac phases :=
  unfold WorkflowStepPhaseFailed, WorkflowStepPhaseRunning, WorkflowStepPhaseSucceeded,
         WorkflowStepPhaseSuspending, WorkflowStepPhasePending, WorkflowStepPhaseSkipped,
         StatusReasonFailedAfterRetries, StatusReasonTimeout, StatusReasonTerminate,
         WorkflowStepTypeSuspend in *.

Ltac entry :=
  unfold terminatedEntry; simpl; phases; intuition (try congruence).

Lemma terminateSubStep_insert (j : nat) (sub : StepStatus.t) (subs : list StepStatus.t) :
  subs !! j = Some sub →
  ∃ sub', terminateSubStep j sub subs = <[j := sub']> subs ∧ terminatedEntry sub sub'.
Proof.
  intros Hj. unfold terminateSubStep.
  destruct (decide (StepStatus.Phase sub = WorkflowStepPhaseFailed)) as [Hf|Hf].
  - destruct (bool_decide (StepStatus.Reason sub ≠ StatusReasonFailedAfterRetries)
              && bool_decide (StepStatus.Reason sub ≠ StatusReasonTimeout)) eqn:Hr.
    + apply andb_prop in Hr as [H1%bool_decide_eq_true H2%bool_decide_eq_true].
      exists (StepStatus.with_Reason StatusReasonTerminate sub).
      split; [by apply alter_lookup_insert | entry].
    + exists sub. split; [by rewrite list_insert_id|].
      apply andb_false_iff in Hr as [Hr|Hr]; apply bool_decide_eq_false in Hr;
        apply dec_stable in Hr; entry.
  - destruct (decide (StepStatus.Phase sub = WorkflowStepPhaseRunning)) as [Hr|Hr].
    + exists (StepStatus.with_Reason StatusReasonTerminate
                (StepStatus.with_Phase WorkflowStepPhaseFailed sub)).
      split; [|entry].
      rewrite (alter_lookup_insert _ subs j sub) by done.
      rewrite (alter_lookup_insert _ _ j (StepStatus.with_Phase WorkflowStepPhaseFailed sub)).
      * by rewrite list_insert_insert_eq.
      * apply list_lookup_insert_eq. by eapply lookup_lt_Some.
    + exists sub. split; [by rewrite list_insert_id | entry].
Qed.

Lemma terminateStep_insert (i : nat) (step : WorkflowStepStatus.t)
    (steps : list WorkflowStepStatus.t) :
  steps !! i = Some step →
  ∃ step', terminateStep i step steps = <[i := step']> steps
    ∧ terminatedEntry (WorkflowStepStatus.StepStatus_ step)
                      (WorkflowStepStatus.StepStatus_ step')
    ∧ Forall2 terminatedEntry (WorkflowStepStatus.SubStepsStatus step)
                              (WorkflowStepStatus.SubStepsStatus step').
Proof.
  intros Hi. unfold terminateStep.
  assert (Hsubs : Forall2 terminatedEntry (WorkflowStepStatus.SubStepsStatus step)
            (rangeUpdate terminateSubStep (WorkflowStepStatus.SubStepsStatus step))).
  { apply rangeUpdate_Forall2. intros j sub arr. apply terminateSubStep_insert. }
  assert (Hlt : i < length steps) by (by eapply lookup_lt_Some).
  set (subs' := rangeUpdate terminateSubStep (WorkflowStepStatus.SubStepsStatus step)) in *.
  destruct step as [s subs]. simpl in *.
  unfold WorkflowStepStatus.Phase, WorkflowStepStatus.Reason. simpl.
  destruct (decide (StepStatus.Phase s = WorkflowStepPhaseFailed)) as [Hf|Hf].
  - destruct (bool_decide (StepStatus.Reason s ≠ StatusReasonFailedAfterRetries)
              && bool_decide (StepStatus.Reason s ≠ StatusReasonTimeout)) eqn:Hr.
    + apply andb_prop in Hr as [H1%bool_decide_eq_true H2%bool_decide_eq_true].
      eexists. split.
      { rewrite (alter_lookup_insert _ steps i _ Hi).
        erewrite alter_lookup_insert by (by apply list_lookup_insert_eq).
        rewrite list_insert_insert_eq. reflexivity. }
      split; [entry | exact Hsubs].
    + eexists. split.
      { rewrite (alter_lookup_insert _ steps i _ Hi). reflexivity. }
      split; [|exact Hsubs].
      apply andb_false_iff in Hr as [Hr|Hr]; apply bool_decide_eq_false in Hr;
        apply dec_stable in Hr; entry.
  - destruct (decide (StepStatus.Phase s = WorkflowStepPhaseRunning)) as [Hr|Hr].
    + eexists. split.
      { rewrite (alter_lookup_insert _ steps i _ Hi).
        erewrite (alter_lookup_insert _ (<[i:=_]> steps)) by (by apply list_lookup_insert_eq).
        rewrite list_insert_insert_eq.
        erewrite alter_lookup_insert by (by apply list_lookup_insert_eq).
        rewrite list_insert_insert_eq. reflexivity. }
      split; [entry | exact Hsubs].
    + eexists. split.
      { rewrite (alter_lookup_insert _ steps i _ Hi). reflexivity. }
      split; [entry | exact Hsubs].
Qed.

Lemma terminateSteps_Forall2 (steps : list WorkflowStepStatus.t) :
  Forall2 (fun step step' =>
             terminatedEntry (WorkflowStepStatus.StepStatus_ step)
                             (WorkflowStepStatus.StepStatus_ step')
             ∧ Forall2 terminatedEntry (WorkflowStepStatus.SubStepsStatus step)
                                       (WorkflowStepStatus.SubStepsStatus step'))
          steps (rangeUpdate terminateStep steps).
Proof.
  apply rangeUpdate_Forall2. intros i step arr Hi.
  destruct (terminateStep_insert i step arr Hi) as (step' & ? & ? & ?). eauto.
Qed.

(** The run that [TerminateWorkflow] sends: Terminated, not suspended, and
    every status gone through the switch on its phase. *)
Lemma TerminateWorkflow_result (cli : Cluster) (run : WorkflowRun.t) :
  let sent :=
    WorkflowRunStatus.with_Steps
      (rangeUpdate terminateStep (WorkflowRunStatus.Steps (WorkflowRun.Status run)))
      (WorkflowRunStatus.with_Suspend false
         (WorkflowRunStatus.with_Terminated true (WorkflowRun.Status run))) in
  let '(err, cli', run') := TerminateWorkflow cli run in
  configMaps cli' = configMaps cli ∧ workflows cli' = workflows cli
  ∧ match err with
    | Some _ => runs cli' = runs cli ∧ run' = WorkflowRun.with_Status sent run
    | None => ∃ stored, runs cli !! runKey run = Some stored
                ∧ run' = WorkflowRun.with_Status (mergePatch sent stored) run
                ∧ runs cli' = <[runKey run := mergePatch sent stored]> (runs cli)
    end.
Proof.
  intros sent. unfold TerminateWorkflow. fold sent.
  destruct (retryOnConflictWith _ _ _) as [err [cli' run']] eqn:Hw.
  apply retryOnConflictWith_StatusPatch in Hw as (Hcm & Hwf & Hw).
  split; [done|]. split; [done|]. destruct err as [e|]; [done|].
  destruct Hw as (stored & Hs & -> & Hr). exists stored. done.
Qed.

(** C1. TerminateWorkflow, on every run and whatever the API server answers,
    leaves the run with Terminated true and Suspend false. Every status that
    the run holds, of a step or of a substep, is afterwards at its place in
    the run, where a running one has become Failed with the reason
    Terminate, a failed one keeps the reasons FailedAfterRetries and Timeout
    and has the reason Terminate in place of any other, and one in another
    phase is unchanged; the run holds no other status, but for a run that
    holds none and is patched, which then holds the stored ones, untouched.
    Finished and EndTime stay, and when the call returns nil the stored
    status is the one of the run. *)
Theorem TerminateWorkflow_marks_steps (cli : Cluster) (run : WorkflowRun.t) :
  let '(err, cli', run') := TerminateWorkflow cli run in
  WorkflowRunStatus.Terminated (WorkflowRun.Status run') = true
  ∧ WorkflowRunStatus.Suspend (WorkflowRun.Status run') = false
  ∧ (∀ i step,
       WorkflowRunStatus.Steps (WorkflowRun.Status run) !! i = Some step →
       ∃ step', WorkflowRunStatus.Steps (WorkflowRun.Status run') !! i = Some step'
         ∧ terminatedEntry (WorkflowStepStatus.StepStatus_ step)
                           (WorkflowStepStatus.StepStatus_ step')
         ∧ Forall2 terminatedEntry (WorkflowStepStatus.SubStepsStatus step)
                                   (WorkflowStepStatus.SubStepsStatus step'))
  ∧ (WorkflowRunStatus.Steps (WorkflowRun.Status run) ≠ [] ∨ is_Some err →
     length (WorkflowRunStatus.Steps (WorkflowRun.Status run'))
     = length (WorkflowRunStatus.Steps (WorkflowRun.Status run)))
  ∧ (WorkflowRunStatus.Steps (WorkflowRun.Status run) = [] → err = None →
     ∃ stored, runs cli !! runKey run = Some stored
       ∧ WorkflowRunStatus.Steps (WorkflowRun.Status run') = WorkflowRunStatus.Steps stored)
  ∧ WorkflowRunStatus.Finished (WorkflowRun.Status run')
    = WorkflowRunStatus.Finished (WorkflowRun.Status run)
  ∧ WorkflowRunStatus.EndTime (WorkflowRun.Status run')
    = WorkflowRunStatus.EndTime (WorkflowRun.Status run)
  ∧ runKey run' = runKey run
  ∧ (err = None → runs cli' !! runKey run = Some (WorkflowRun.Status run')).
Proof.
  pose proof (TerminateWorkflow_result cli run) as H. cbv zeta in H.
  destruct (TerminateWorkflow cli run) as [[err cli'] run'].
  destruct H as (_ & _ & H).
  pose proof (terminateSteps_Forall2 (WorkflowRunStatus.Steps (WorkflowRun.Status run)))
    as Hsteps.
  generalize dependent (rangeUpdate terminateStep (WorkflowRunStatus.Steps (WorkflowRun.Status run))).
  intros steps1 H Hsteps.
  destruct err as [e|].
  - destruct H as [_ ->]. simpl. do 2 (split; [done|]). split.
    { intros i step Hi.
      destruct (Forall2_lookup_l _ _ _ _ _ Hsteps Hi) as (step' & ? & ? & ?). eauto. }
    split; [intros _; symmetry; by eapply Forall2_length|].
    split; [done|]. by repeat split.
  - destruct H as (stored & Hstored & -> & Hruns). simpl.
    do 2 (split; [done|]).
    destruct (WorkflowRunStatus.Steps (WorkflowRun.Status run)) as [|s0 rest] eqn:Hheld.
    + apply Forall2_nil_inv_l in Hsteps. subst steps1. simpl.
      split; [by intros i step|]. split; [by intros [?|[? [=]]]|].
      split; [eauto|]. split; [done|]. split; [done|]. split; [done|].
      intros _. rewrite Hruns. apply lookup_insert_eq.
    + destruct steps1 as [|s1 rest1]; [by apply Forall2_nil_inv_r in Hsteps|]. simpl.
      split.
      { intros i step Hi.
        destruct (Forall2_lookup_l _ _ _ _ _ Hsteps Hi) as (step' & ? & ? & ?). eauto. }
      split; [intros _; symmetry; apply (Forall2_length _ _ _ Hsteps)|].
      split; [done|]. split; [done|]. split; [done|]. split; [done|].
      intros _. rewrite Hruns. apply lookup_insert_eq.
Qed.

(** Scenario 6 of the design document: one step running and one pending. *)
Example Terminate_during_run :
  let status := WorkflowRunStatus.mk true false false None
      [ WorkflowStepStatus.mk (exampleStatus "a" "apply" WorkflowStepPhaseRunning "") [];
        WorkflowStepStatus.mk (exampleStatus "b" "apply" WorkflowStepPhasePending "") [] ]
      None (mkMode "" "") in
  TerminateWorkflow (exampleCluster status) (exampleRun [] status)
  = (None,
     exampleCluster (WorkflowRunStatus.mk false true false None
       [ WorkflowStepStatus.mk
           (exampleStatus "a" "apply" WorkflowStepPhaseFailed StatusReasonTerminate) [];
         WorkflowStepStatus.mk (exampleStatus "b" "apply" WorkflowStepPhasePending "") [] ]
       None (mkMode "" "")),
     exampleRun [] (WorkflowRunStatus.mk false true false None
       [ WorkflowStepStatus.mk
           (exampleStatus "a" "apply" WorkflowStepPhaseFailed StatusReasonTerminate) [];
         WorkflowStepStatus.mk (exampleStatus "b" "apply" WorkflowStepPhasePending "") [] ]
       None (mkMode "" ""))).
Proof. vm_compute. reflexivity. Qed.

(** The status is sent as a merge patch, and the answer of the server is
    the run in memory afterwards. A run that holds no step leaves its steps
    out of the patch: the stored step stays as it is, running, and comes
    back with the answer, as do the stored context and modes. *)
Example Terminate_of_run_without_steps :
  let stored := WorkflowRunStatus.mk false false false (Some "workflow-run-context")
      [ WorkflowStepStatus.mk (exampleStatus "a" "apply" WorkflowStepPhaseRunning "") [] ]
      None (mkMode WorkflowModeDAG WorkflowModeDAG) in
  let patched := WorkflowRunStatus.mk false true false (Some "workflow-run-context")
      [ WorkflowStepStatus.mk (exampleStatus "a" "apply" WorkflowStepPhaseRunning "") [] ]
      None (mkMode WorkflowModeDAG WorkflowModeDAG) in
  TerminateWorkflow (exampleCluster stored) (exampleRun [] WorkflowRunStatus.zero)
  = (None, exampleCluster patched, exampleRun [] patched).
Proof. vm_compute. reflexivity. Qed.

(** ** Resume *)

Ltac resumed :=
  unfold resumedEntry; simpl; phases; intuition (try congruence).

Lemma resumeSubStep_insert (j : nat) (sub : StepStatus.t) (subs : list StepStatus.t) :
  subs !! j = Some sub →
  ∃ sub', resumeSubStep j sub subs = <[j := sub']> subs ∧ resumedEntry sub sub'.
Proof.
  intros Hj. unfold resumeSubStep.
  destruct (bool_decide (StepStatus.Type_ sub = WorkflowStepTypeSuspend)
            && bool_decide (StepStatus.Phase sub = WorkflowStepPhaseRunning)) eqn:Hc.
  - apply andb_prop in Hc as [H1%bool_decide_eq_true H2%bool_decide_eq_true].
    exists (StepStatus.with_Phase WorkflowStepPhaseSucceeded sub).
    split; [by apply alter_lookup_insert | resumed].
  - exists sub. split; [by rewrite list_insert_id|].
    apply andb_false_iff in Hc as [Hc|Hc]; apply bool_decide_eq_false in Hc; resumed.
Qed.

Lemma resumeStep_insert (i : nat) (step : WorkflowStepStatus.t)
    (steps : list WorkflowStepStatus.t) :
  steps !! i = Some step →
  ∃ step', resumeStep i step steps = <[i := step']> steps
    ∧ resumedEntry (WorkflowStepStatus.StepStatus_ step)
                   (WorkflowStepStatus.StepStatus_ step')
    ∧ Forall2 resumedEntry (WorkflowStepStatus.SubStepsStatus step)
                           (WorkflowStepStatus.SubStepsStatus step').
Proof.
  intros Hi. unfold resumeStep.
  assert (Hsubs : Forall2 resumedEntry (WorkflowStepStatus.SubStepsStatus step)
            (rangeUpdate resumeSubStep (WorkflowStepStatus.SubStepsStatus step))).
  { apply rangeUpdate_Forall2. intros j sub arr. apply resumeSubStep_insert. }
  set (subs' := rangeUpdate resumeSubStep (WorkflowStepStatus.SubStepsStatus step)) in *.
  destruct step as [s subs]. simpl in *.
  unfold WorkflowStepStatus.Phase, WorkflowStepStatus.Type_. simpl.
  destruct (bool_decide (StepStatus.Type_ s = WorkflowStepTypeSuspend)
            && bool_decide (StepStatus.Phase s = WorkflowStepPhaseRunning)) eqn:Hc.
  - apply andb_prop in Hc as [H1%bool_decide_eq_true H2%bool_decide_eq_true].
    eexists. split.
    { rewrite (alter_lookup_insert _ steps i _ Hi).
      erewrite alter_lookup_insert
        by (apply list_lookup_insert_eq; by eapply lookup_lt_Some).
      rewrite list_insert_insert_eq. reflexivity. }
    split; [resumed | exact Hsubs].
  - eexists. split.
    { rewrite (alter_lookup_insert _ steps i _ Hi). reflexivity. }
    split; [|exact Hsubs].
    apply andb_false_iff in Hc as [Hc|Hc]; apply bool_decide_eq_false in Hc; resumed.
Qed.

Lemma resumeSteps_Forall2 (steps : list WorkflowStepStatus.t) :
  Forall2 (fun step step' =>
             resumedEntry (WorkflowStepStatus.StepStatus_ step)
                          (WorkflowStepStatus.StepStatus_ step')
             ∧ Forall2 resumedEntry (WorkflowStepStatus.SubStepsStatus step)
                                    (WorkflowStepStatus.SubStepsStatus step'))
          steps (rangeUpdate resumeStep steps).
Proof.
  apply rangeUpdate_Forall2. intros i step arr Hi.
  destruct (resumeStep_insert i step arr Hi) as (step' & ? & ? & ?). eauto.
Qed.

(** The run that [ResumeWorkflow] sends, and what the patch makes of it. *)
Lemma ResumeWorkflow_result (cli : Cluster) (run : WorkflowRun.t) :
  let sent :=
    WorkflowRunStatus.with_Steps
      (rangeUpdate resumeStep (WorkflowRunStatus.Steps (WorkflowRun.Status run)))
      (WorkflowRunStatus.with_Suspend false (WorkflowRun.Status run)) in
  let '(err, cli', run') := ResumeWorkflow cli run in
  configMaps cli' = configMaps cli ∧ workflows cli' = workflows cli
  ∧ match err with
    | Some _ => runs cli' = runs cli ∧ run' = WorkflowRun.with_Status sent run
    | None => ∃ stored, runs cli !! runKey run = Some stored
                ∧ run' = WorkflowRun.with_Status (mergePatch sent stored) run
                ∧ runs cli' = <[runKey run := mergePatch sent stored]> (runs cli)
    end.
Proof.
  intros sent. unfold ResumeWorkflow. fold sent.
  destruct (retryOnConflictWith _ _ _) as [err [cli' run']] eqn:Hw.
  apply retryOnConflictWith_StatusPatch in Hw as (Hcm & Hwf & Hw).
  split; [done|]. split; [done|]. destruct err as [e|]; [done|].
  destruct Hw as (stored & Hs & -> & Hr). exists stored. done.
Qed.

Lemma ResumeWorkflow_status (cli : Cluster) (run : WorkflowRun.t) :
  let '(err, cli', run') := ResumeWorkflow cli run in
  WorkflowRunStatus.Suspend (WorkflowRun.Status run') = false
  ∧ WorkflowRunStatus.Terminated (WorkflowRun.Status run')
    = WorkflowRunStatus.Terminated (WorkflowRun.Status run)
  ∧ (∀ i step,
       WorkflowRunStatus.Steps (WorkflowRun.Status run) !! i = Some step →
       ∃ step', WorkflowRunStatus.Steps (WorkflowRun.Status run') !! i = Some step'
         ∧ resumedEntry (WorkflowStepStatus.StepStatus_ step)
                        (WorkflowStepStatus.StepStatus_ step')
         ∧ Forall2 resumedEntry (WorkflowStepStatus.SubStepsStatus step)
                                (WorkflowStepStatus.SubStepsStatus step'))
  ∧ (WorkflowRunStatus.Steps (WorkflowRun.Status run) ≠ [] ∨ is_Some err →
     length (WorkflowRunStatus.Steps (WorkflowRun.Status run'))
     = length (WorkflowRunStatus.Steps (WorkflowRun.Status run)))
  ∧ WorkflowRun.Name run' = WorkflowRun.Name run
  ∧ match err with
    | Some _ => runs cli' = runs cli
    | None => is_Some (runs cli !! runKey run)
              ∧ runs cli' = <[runKey run := WorkflowRun.Status run']> (runs cli)
    end.
Proof.
  pose proof (ResumeWorkflow_result cli run) as H. cbv zeta in H.
  destruct (ResumeWorkflow cli run) as [[err cli'] run'].
  destruct H as (_ & _ & H).
  pose proof (resumeSteps_Forall2 (WorkflowRunStatus.Steps (WorkflowRun.Status run)))
    as Hsteps.
  generalize dependent (rangeUpdate resumeStep (WorkflowRunStatus.Steps (WorkflowRun.Status run))).
  intros steps1 H Hsteps.
  destruct err as [e|].
  - destruct H as [Hruns ->]. simpl. do 2 (split; [done|]). split.
    { intros i step Hi.
      destruct (Forall2_lookup_l _ _ _ _ _ Hsteps Hi) as (step' & ? & ? & ?). eauto. }
    split; [intros _; symmetry; by eapply Forall2_length|]. done.
  - destruct H as (stored & Hstored & -> & Hruns). simpl.
    do 2 (split; [done|]).
    destruct (WorkflowRunStatus.Steps (WorkflowRun.Status run)) as [|s0 rest] eqn:Hheld.
    + apply Forall2_nil_inv_l in Hsteps. subst steps1. simpl.
      split; [by intros i step|]. split; [by intros [?|[? [=]]]|].
      split; [done|]. split; [by eexists|]. done.
    + destruct steps1 as [|s1 rest1]; [by apply Forall2_nil_inv_r in Hsteps|]. simpl.
      split.
      { intros i step Hi.
        destruct (Forall2_lookup_l _ _ _ _ _ Hsteps Hi) as (step' & ? & ? & ?). eauto. }
      split; [intros _; symmetry; apply (Forall2_length _ _ _ Hsteps)|].
      split; [done|]. split; [by eexists|]. done.
Qed.

(** C2, as the code has it. Resume of a terminated run returns an error and
    changes nothing. Of a run that is not terminated and is suspended, it
    leaves Suspend false, and every status that the run holds, of a step or
    of a substep, is afterwards at its place in the run, where one of type
    suspend in the phase Running has become Succeeded and every other one
    keeps its phase (one in the phase Suspending too); the run holds no
    other status, but for a run that holds none and is patched. Either the
    API server failed, its error is returned and nothing is stored, or the
    run was stored and its stored status is now the one of the run in
    memory; so it is whenever nil is returned. Of a run that is neither
    terminated nor suspended it changes neither the run nor the cluster. *)
Theorem Resume_flips_running_suspend_steps (wo : workflowRunOperator) :
  let '(err, wo') := Resume wo in
  if WorkflowRunStatus.Terminated (WorkflowRun.Status (run wo)) then
    err = Some (Errorf "can not resume a terminated workflow") ∧ wo' = wo
  else
    WorkflowRunStatus.Suspend (WorkflowRun.Status (run wo')) = false
    ∧ WorkflowRunStatus.Terminated (WorkflowRun.Status (run wo')) = false
    ∧ if WorkflowRunStatus.Suspend (WorkflowRun.Status (run wo)) then
        (∀ i step,
           WorkflowRunStatus.Steps (WorkflowRun.Status (run wo)) !! i = Some step →
           ∃ step',
             WorkflowRunStatus.Steps (WorkflowRun.Status (run wo')) !! i = Some step'
             ∧ resumedEntry (WorkflowStepStatus.StepStatus_ step)
                            (WorkflowStepStatus.StepStatus_ step')
             ∧ Forall2 resumedEntry (WorkflowStepStatus.SubStepsStatus step)
                                    (WorkflowStepStatus.SubStepsStatus step'))
        ∧ (WorkflowRunStatus.Steps (WorkflowRun.Status (run wo)) ≠ [] →
           length (WorkflowRunStatus.Steps (WorkflowRun.Status (run wo')))
           = length (WorkflowRunStatus.Steps (WorkflowRun.Status (run wo))))
        ∧ ((is_Some err ∧ runs (cli wo') = runs (cli wo))
           ∨ (is_Some (runs (cli wo) !! runKey (run wo))
              ∧ runs (cli wo')
                = <[runKey (run wo) := WorkflowRun.Status (run wo')]> (runs (cli wo))))
      else run wo' = run wo ∧ cli wo' = cli wo.
Proof.
  unfold Resume.
  destruct (WorkflowRunStatus.Terminated (WorkflowRun.Status (run wo))) eqn:Ht; [done|].
  destruct (WorkflowRunStatus.Suspend (WorkflowRun.Status (run wo))) eqn:Hs.
  - pose proof (ResumeWorkflow_status (cli wo) (run wo)) as H.
    destruct (ResumeWorkflow (cli wo) (run wo)) as [[err c] r].
    destruct H as (H1 & H2 & H3 & H4 & _ & H5). rewrite Ht in H2.
    destruct err as [e|].
    + simpl. do 3 (split; [done|]). split; [intros Hne; apply H4; by left|].
      left. split; [by eexists | done].
    + destruct (writeOutputF _ _) as [err w]. simpl.
      do 3 (split; [done|]). split; [intros Hne; apply H4; by left|].
      by right.
  - destruct (writeOutputF _ _) as [err w]. simpl. by rewrite Hs, Ht.
Qed.

(** C2, as stated, fails: in a suspended run, Resume leaves a step of type
    suspend in the phase Suspending where it is, and it is a step of type
    suspend in the phase Running that it makes Succeeded. *)
Lemma Resume_leaves_suspending_step :
  let status phase := WorkflowRunStatus.mk true false false None
      [ WorkflowStepStatus.mk (exampleStatus "wait" WorkflowStepTypeSuspend phase "") [] ]
      None (mkMode "" "") in
  let wo phase := mkOperator (exampleCluster (status phase)) None (exampleRun [] (status phase)) in
  (Resume (wo WorkflowStepPhaseSuspending)).1 = None
  ∧ (WorkflowStepStatus.Phase
       <$> WorkflowRunStatus.Steps
             (WorkflowRun.Status (run (Resume (wo WorkflowStepPhaseSuspending)).2)))
    = [WorkflowStepPhaseSuspending]
  ∧ WorkflowStepPhaseSuspending ≠ WorkflowStepPhaseSucceeded
  ∧ (Resume (wo WorkflowStepPhaseRunning)).1 = None
  ∧ (WorkflowStepStatus.Phase
       <$> WorkflowRunStatus.Steps
             (WorkflowRun.Status (run (Resume (wo WorkflowStepPhaseRunning)).2)))
    = [WorkflowStepPhaseSucceeded].
Proof. vm_compute. repeat split; congruence. Qed.

(** ** The dependents of a step, step by step *)

Lemma declarations_cons (step : WorkflowStep.t) (steps : list WorkflowStep.t) :
  declarations (step :: steps)
  = WorkflowStep.Base step :: WorkflowStep.SubSteps step ++ declarations steps.
Proof. reflexivity. Qed.

Lemma declarations_app (l k : list WorkflowStep.t) :
  declarations (l ++ k) = declarations l ++ declarations k.
Proof. unfold declarations. apply bind_app. Qed.

Lemma not_declared_cons (stepName : string) (step : WorkflowStep.t)
    (steps : list WorkflowStep.t) :
  stepName ∉ (WorkflowStepBase.Name <$> declarations (step :: steps)) ↔
  WorkflowStep.Name step ≠ stepName
  ∧ (stepName ∉ (WorkflowStepBase.Name <$> WorkflowStep.SubSteps step))
  ∧ (stepName ∉ (WorkflowStepBase.Name <$> declarations steps)).
Proof.
  rewrite declarations_cons, fmap_cons, fmap_app, not_elem_of_cons, not_elem_of_app.
  unfold WorkflowStep.Name. intuition congruence.
Qed.

Lemma subStepsAfter_None (subs : list WorkflowStepBase.t) (stepName : string) :
  stepName ∉ (WorkflowStepBase.Name <$> subs) → subStepsAfter subs stepName = None.
Proof.
  induction subs as [|sub rest IH]; simpl; [done|].
  rewrite not_elem_of_cons. intros [Hne Hrest].
  destruct (decide (WorkflowStepBase.Name sub = stepName)); [congruence | auto].
Qed.

Lemma subStepsAfter_Some (spre spost : list WorkflowStepBase.t) (sub : WorkflowStepBase.t)
    (stepName : string) :
  stepName ∉ (WorkflowStepBase.Name <$> spre) →
  WorkflowStepBase.Name sub = stepName →
  subStepsAfter (spre ++ sub :: spost) stepName = Some (WorkflowStepBase.Name <$> spost).
Proof.
  intros Hpre Hsub. induction spre as [|s spre IH]; simpl.
  - by rewrite decide_True.
  - rewrite fmap_cons, not_elem_of_cons in Hpre. destruct Hpre as [Hne Hpre].
    rewrite decide_False by congruence. auto.
Qed.

Lemma stepsAfter_skip (pre rest : list WorkflowStep.t) (stepName : string) :
  stepName ∉ (WorkflowStepBase.Name <$> declarations pre) →
  stepsAfter (pre ++ rest) stepName = stepsAfter rest stepName.
Proof.
  induction pre as [|step pre IH]; [done|].
  rewrite not_declared_cons. intros (Hne & Hsubs & Hpre). simpl.
  rewrite decide_False by done.
  rewrite subStepsAfter_None by done. auto.
Qed.

(** C5. Step by step (not DAG), [getStepDependency] returns the names of the
    steps declared after the step called [stepName]; for a substep, the
    names of the substeps declared after it in the list of its parent; and
    the empty list when no step or substep has the name. The occurrence
    that counts is the first one in the order of the declarations. *)
Theorem getStepDependency_step_by_step
    (rangeMap : gmap string (list string) → list (string * list string))
    (fuel : nat) (steps : list WorkflowStep.t) (stepName : string) :
  (∀ pre step post,
     steps = pre ++ step :: post →
     stepName ∉ (WorkflowStepBase.Name <$> declarations pre) →
     WorkflowStep.Name step = stepName →
     getStepDependency rangeMap fuel steps stepName false
     = Some (WorkflowStep.Name <$> post))
  ∧ (∀ pre step post spre sub spost,
       steps = pre ++ step :: post →
       stepName ∉ (WorkflowStepBase.Name <$> declarations pre) →
       WorkflowStep.Name step ≠ stepName →
       WorkflowStep.SubSteps step = spre ++ sub :: spost →
       stepName ∉ (WorkflowStepBase.Name <$> spre) →
       WorkflowStepBase.Name sub = stepName →
       getStepDependency rangeMap fuel steps stepName false
       = Some (WorkflowStepBase.Name <$> spost))
  ∧ (stepName ∉ (WorkflowStepBase.Name <$> declarations steps) →
     getStepDependency rangeMap fuel steps stepName false = Some []).
Proof.
  unfold getStepDependency. simpl. repeat split.
  - intros pre step post -> Hpre Hname.
    rewrite stepsAfter_skip by done. simpl. by rewrite decide_True.
  - intros pre step post spre sub spost -> Hpre Hname Hsubs Hspre Hsub.
    rewrite stepsAfter_skip by done. simpl. rewrite decide_False by done.
    rewrite Hsubs. by rewrite (subStepsAfter_Some spre spost sub stepName).
  - intros Hnone. f_equal.
    induction steps as [|step steps IH]; [done|].
    apply not_declared_cons in Hnone as (Hne & Hsubs & Hrest). simpl.
    rewrite decide_False by done. rewrite subStepsAfter_None by done. auto.
Qed.

Lemma getStepDependency_step_by_step_witness :
  let a := WorkflowStep.mk (exampleStep "a" [] [] []) [] in
  let g := WorkflowStep.mk (exampleStep "g" [] [] [])
             [exampleStep "x" [] [] []; exampleStep "y" [] [] []; exampleStep "z" [] [] []] in
  let d := WorkflowStep.mk (exampleStep "d" [] [] []) [] in
  getStepDependency keyOrder 0 [a; g; d] "a" false = Some ["g"; "d"]
  ∧ getStepDependency keyOrder 0 [a; g; d] "x" false = Some ["y"; "z"]
  ∧ getStepDependency keyOrder 0 [a; g; d] "q" false = Some [].
Proof.
  intros a g d. split; [|split].
  - apply (proj1 (getStepDependency_step_by_step keyOrder 0 [a; g; d] "a") [] a [g; d]);
      [reflexivity | vm_compute; inversion 1 | reflexivity].
  - apply (proj1 (proj2 (getStepDependency_step_by_step keyOrder 0 [a; g; d] "x"))
             [a] g [d] [] (exampleStep "x" [] [] [])
             [exampleStep "y" [] [] []; exampleStep "z" [] [] []]);
      [reflexivity | by apply (bool_decide_unpack _) | by apply (bool_decide_unpack _)
       | reflexivity | by apply (bool_decide_unpack _) | reflexivity].
  - apply (proj2 (proj2 (getStepDependency_step_by_step keyOrder 0 [a; g; d] "q"))).
    by apply (bool_decide_unpack _).
Defined.

(** ** The variables of the context *)

(** The loops over the steps and, inside, over their substeps go through
    the declarations in order. *)
Lemma foldl_declarations {S : Type} (f : S → WorkflowStepBase.t → S)
    (steps : list WorkflowStep.t) (a : S) :
  foldl (fun acc step => foldl f (f acc (WorkflowStep.Base step)) (WorkflowStep.SubSteps step))
        a steps
  = foldl f a (declarations steps).
Proof.
  revert a. induction steps as [|step steps IH]; intros a; [done|].
  rewrite declarations_cons. simpl. rewrite foldl_app. apply IH.
Qed.

Lemma outputsOf_elem (stepName : string) (dependency outputs : list string)
    (b : WorkflowStepBase.t) (x : string) :
  x ∈ outputsOf stepName dependency outputs b ↔
  x ∈ outputs
  ∨ ((WorkflowStepBase.Name b = stepName ∨ WorkflowStepBase.Name b ∈ dependency)
     ∧ x ∈ (OutputName <$> WorkflowStepBase.Outputs b)).
Proof.
  unfold outputsOf.
  assert (Happ : ∀ l acc,
            x ∈ foldl (fun outputs output => outputs ++ [OutputName output]) acc l
            ↔ x ∈ acc ∨ x ∈ (OutputName <$> l)).
  { induction l as [|o l IH]; intros acc; simpl.
    - rewrite elem_of_nil. tauto.
    - rewrite IH, elem_of_app, !elem_of_cons, elem_of_nil. tauto. }
  destruct (bool_decide _ || stringsContain _ _) eqn:Hc.
  - rewrite Happ. apply orb_true_iff in Hc.
    rewrite bool_decide_eq_true, stringsContain_true in Hc. tauto.
  - apply orb_false_iff in Hc.
    rewrite bool_decide_eq_false, stringsContain_false in Hc. tauto.
Qed.

Lemma clearedOutputs_elem (steps : list WorkflowStep.t) (stepName : string)
    (dependency : list string) (x : string) :
  x ∈ clearedOutputs steps stepName dependency ↔ outputToClear steps stepName dependency x.
Proof.
  unfold clearedOutputs, outputToClear. rewrite foldl_declarations.
  assert (Hgen : ∀ bs acc,
            x ∈ foldl (outputsOf stepName dependency) acc bs
            ↔ x ∈ acc
              ∨ ∃ b, b ∈ bs
                  ∧ (WorkflowStepBase.Name b = stepName ∨ WorkflowStepBase.Name b ∈ dependency)
                  ∧ x ∈ (OutputName <$> WorkflowStepBase.Outputs b)).
  { induction bs as [|b bs IH]; intros acc; simpl.
    - split; [by left|]. intros [H|(b & Hb & _)]; [done | inversion Hb].
    - rewrite IH, outputsOf_elem. split.
      + intros [[H|H]|(b' & Hb' & H)].
        * by left.
        * right. exists b. split; [left | done].
        * right. exists b'. split; [by right | done].
      + intros [H|(b' & Hb' & H)].
        * by left; left.
        * apply elem_of_cons in Hb' as [->|Hb'].
          -- left. by right.
          -- right. by exists b'. }
  rewrite Hgen, elem_of_nil. split; [by intros [[]|H] | by right].
Qed.

Lemma keptElements_from (outputs : list string) (elts element : list Decl) :
  foldl (fun element decl =>
           match decl with
           | Field label _ =>
               if stringsContain outputs (fieldLabel label) then element
               else element ++ [decl]
           | OtherDecl _ => element
           end)
        element elts
  = element ++ keptElements outputs elts.
Proof.
  unfold keptElements. revert element.
  induction elts as [|decl elts IH]; intros element; simpl.
  - by rewrite app_nil_r.
  - rewrite IH. rewrite (IH (match decl with Field _ _ => _ | OtherDecl _ => _ end)).
    destruct decl as [label value|text]; [|done].
    destruct (stringsContain outputs (fieldLabel label)); [done|].
    by rewrite <- app_assoc.
Qed.

Lemma keptElements_cons (outputs : list string) (decl : Decl) (elts : list Decl) :
  keptElements outputs (decl :: elts)
  = match decl with
    | Field label _ =>
        if stringsContain outputs (fieldLabel label) then keptElements outputs elts
        else decl :: keptElements outputs elts
    | OtherDecl _ => keptElements outputs elts
    end.
Proof.
  unfold keptElements at 1. simpl. rewrite keptElements_from.
  destruct decl as [label value|text]; [|done].
  by destruct (stringsContain outputs (fieldLabel label)).
Qed.

Lemma keptElements_elem (outputs : list string) (elts : list Decl) (decl : Decl) :
  decl ∈ keptElements outputs elts ↔
  decl ∈ elts ∧ ∃ label value, decl = Field label value ∧ fieldLabel label ∉ outputs.
Proof.
  induction elts as [|d elts IH].
  - split; [inversion 1 | intros [H _]; inversion H].
  - rewrite keptElements_cons. destruct d as [label value|text].
    + destruct (stringsContain outputs (fieldLabel label)) eqn:Hc.
      * apply stringsContain_true in Hc. rewrite IH, elem_of_cons.
        split; [tauto|]. intros [[->|H] (l & v & Heq & Hl)]; [|eauto 6].
        injection Heq as <- <-. done.
      * apply stringsContain_false in Hc. rewrite !elem_of_cons, IH.
        split; [|tauto]. intros [->|H]; [|tauto]. eauto 6.
    + rewrite IH, elem_of_cons. split; [tauto|].
      intros [[->|H] (l & v & Heq & Hl)]; [discriminate | eauto 6].
Qed.



(** ** Step identifiers *)

Lemma randomLetters_length (n : nat) (d : nat → nat) (pos : nat) :
  String.length (randomLetters n d pos) = n.
Proof. revert pos. induction n as [|n IH]; intros pos; simpl; [done | by rewrite IH]. Qed.

Lemma RandomString_length (n : nat) (r : Rand) : String.length (RandomString n r).1 = n.
Proof. apply randomLetters_length. Qed.

Lemma recordedStepID_first (pre post : list WorkflowStepStatus.t) (ss : WorkflowStepStatus.t)
    (name : string) :
  name ∉ (WorkflowStepStatus.Name <$> pre) →
  WorkflowStepStatus.Name ss = name →
  recordedStepID (pre ++ ss :: post) name = Some (WorkflowStepStatus.ID ss).
Proof.
  intros Hpre Hss. induction pre as [|p pre IH]; simpl.
  - by rewrite decide_True.
  - rewrite fmap_cons, not_elem_of_cons in Hpre. destruct Hpre as [Hne Hpre].
    rewrite decide_False by congruence. auto.
Qed.

Lemma recordedStepID_None (steps : list WorkflowStepStatus.t) (name : string) :
  name ∉ (WorkflowStepStatus.Name <$> steps) → recordedStepID steps name = None.
Proof.
  induction steps as [|p steps IH]; simpl; [done|].
  rewrite not_elem_of_cons. intros [Hne Hrest].
  rewrite decide_False by congruence. auto.
Qed.

Lemma recordedSubID_first (spre spost : list StepStatus.t) (sub : StepStatus.t) (name : string) :
  name ∉ (StepStatus.Name <$> spre) →
  StepStatus.Name sub = name →
  recordedSubID (spre ++ sub :: spost) name = Some (StepStatus.ID sub).
Proof.
  intros Hpre Hsub. induction spre as [|p spre IH]; simpl.
  - by rewrite decide_True.
  - rewrite fmap_cons, not_elem_of_cons in Hpre. destruct Hpre as [Hne Hpre].
    rewrite decide_False by congruence. auto.
Qed.

Lemma recordedSubID_None (subs : list StepStatus.t) (name : string) :
  name ∉ (StepStatus.Name <$> subs) → recordedSubID subs name = None.
Proof.
  induction subs as [|p subs IH]; simpl; [done|].
  rewrite not_elem_of_cons. intros [Hne Hrest].
  rewrite decide_False by congruence. auto.
Qed.

Lemma recordedSubStepID_skip (pre rest : list WorkflowStepStatus.t) (name parent : string) :
  (∀ p, p ∈ pre → WorkflowStepStatus.Name p = parent →
        name ∉ (StepStatus.Name <$> WorkflowStepStatus.SubStepsStatus p)) →
  recordedSubStepID (pre ++ rest) name parent = recordedSubStepID rest name parent.
Proof.
  induction pre as [|p pre IH]; intros Hpre; simpl; [done|].
  rewrite IH by (intros q Hq; apply Hpre; by right).
  destruct (decide (WorkflowStepStatus.Name p = parent)) as [Hp|Hp]; [|done].
  rewrite recordedSubID_None; [done|]. apply Hpre; [left | done].
Qed.

Lemma NoDup_fmap_first {A : Type} (f : A → string) (l : list A) (x : A) :
  NoDup (f <$> l) → x ∈ l → ∃ pre post, l = pre ++ x :: post ∧ f x ∉ (f <$> pre).
Proof.
  intros Hnd Hx. apply list_elem_of_split in Hx as (pre & post & ->).
  exists pre, post. split; [done|].
  rewrite fmap_app, fmap_cons in Hnd. apply NoDup_app in Hnd as (_ & Hdisj & _).
  intros Hin. apply (Hdisj _ Hin). left.
Qed.

Lemma generateStepID_assigned (status : WorkflowRunStatus.t) (name : string) (r : Rand) :
  assignedID (recordedStepID (WorkflowRunStatus.Steps status) name)
             (generateStepID status name r).1.
Proof.
  unfold generateStepID. destruct (recordedStepID _ _); simpl; [done | by exists r].
Qed.

Lemma generateSubStepID_assigned (status : WorkflowRunStatus.t) (name parent : string)
    (r : Rand) :
  assignedID (recordedSubStepID (WorkflowRunStatus.Steps status) name parent)
             (generateSubStepID status name parent r).1.
Proof.
  unfold generateSubStepID. destruct (recordedSubStepID _ _ _); simpl; [done | by exists r].
Qed.

Lemma generateSubTaskRunner_recorded (wr : WorkflowRun.t) (subStep : WorkflowStepBase.t)
    (id : string) :
  ∃ t, generateSubTaskRunner recordedTask recorder wr subStep (mkOptions _ id [] "") = inr t
       ∧ taskID t = id.
Proof.
  unfold generateSubTaskRunner, callGenerator, recorder.
  destruct (decide _); eexists; (split; [reflexivity | done]).
Qed.

Lemma generateSubTaskRunners_recorded (wr : WorkflowRun.t) (parent : string)
    (subSteps : list WorkflowStepBase.t) (acc : list recordedTask) (r : Rand) :
  ∃ new r',
    generateSubTaskRunners recordedTask recorder wr parent subSteps acc r
    = (inr (acc ++ new), r')
    ∧ Forall2 (fun sub t =>
                 assignedID (recordedSubStepID
                               (WorkflowRunStatus.Steps (WorkflowRun.Status wr))
                               (WorkflowStepBase.Name sub) parent)
                            (taskID t))
              subSteps new.
Proof.
  revert acc r. induction subSteps as [|sub rest IH]; intros acc r; simpl.
  - exists [], r. by rewrite app_nil_r.
  - pose proof (generateSubStepID_assigned (WorkflowRun.Status wr)
                  (WorkflowStepBase.Name sub) parent r) as Hid.
    destruct (generateSubStepID _ _ _ r) as [id r1]. simpl in Hid.
    destruct (generateSubTaskRunner_recorded wr sub id) as (t & -> & Ht).
    destruct (IH (acc ++ [t]) r1) as (new & r' & -> & Hnew).
    exists (t :: new), r'. rewrite <- app_assoc. split; [done|].
    constructor; [by rewrite Ht | done].
Qed.

Lemma generateTaskRunner_recorded (wr : WorkflowRun.t) (step : WorkflowStep.t)
    (id : string) (r : Rand) :
  ∃ t r',
    generateTaskRunner recordedTask recorder wr step (mkOptions _ id [] "") r = (inr t, r')
    ∧ taskID t = id
    ∧ (WorkflowStep.Type_ step = WorkflowStepTypeStepGroup →
       Forall2 (fun sub t' =>
                  assignedID (recordedSubStepID
                                (WorkflowRunStatus.Steps (WorkflowRun.Status wr))
                                (WorkflowStepBase.Name sub)
                                (WorkflowStep.Name step))
                             (taskID t'))
               (WorkflowStep.SubSteps step) (taskSubs t)).
Proof.
  unfold generateTaskRunner.
  destruct (decide (WorkflowStep.Type_ step = WorkflowStepTypeStepGroup)) as [Hg|Hg].
  - destruct (generateSubTaskRunners_recorded wr (WorkflowStep.Name step)
                (WorkflowStep.SubSteps step) [] r) as (subs & r2 & -> & Hsubs).
    simpl. unfold callGenerator, recorder. simpl.
    eexists _, r2. split; [reflexivity|]. simpl. by split.
  - unfold callGenerator, recorder. simpl.
    eexists _, r. split; [reflexivity|]. simpl. by split.
Qed.

Lemma generateTasks_recorded (wr : WorkflowRun.t) (steps : list WorkflowStep.t)
    (acc : list recordedTask) (r : Rand) :
  ∃ new r',
    generateTasks recordedTask recorder wr steps acc r = (inr (acc ++ new), r')
    ∧ Forall2 (fun step t =>
                 assignedID (recordedStepID
                               (WorkflowRunStatus.Steps (WorkflowRun.Status wr))
                               (WorkflowStep.Name step))
                            (taskID t)
                 ∧ (WorkflowStep.Type_ step = WorkflowStepTypeStepGroup →
                    Forall2 (fun sub t' =>
                               assignedID (recordedSubStepID
                                             (WorkflowRunStatus.Steps (WorkflowRun.Status wr))
                                             (WorkflowStepBase.Name sub)
                                             (WorkflowStep.Name step))
                                          (taskID t'))
                            (WorkflowStep.SubSteps step) (taskSubs t)))
              steps new.
Proof.
  revert acc r. induction steps as [|step rest IH]; intros acc r; simpl.
  - exists [], r. by rewrite app_nil_r.
  - pose proof (generateStepID_assigned (WorkflowRun.Status wr) (WorkflowStep.Name step) r)
      as Hid.
    destruct (generateStepID _ _ r) as [id r1]. simpl in Hid.
    destruct (generateTaskRunner_recorded wr step id r1) as (t & r2 & -> & Ht & Hsubs).
    destruct (IH (acc ++ [t]) r2) as (new & r' & -> & Hnew).
    exists (t :: new), r'. rewrite <- app_assoc. split; [done|].
    constructor; [|done]. split; [by rewrite Ht | done].
Qed.

(** C7. [generateStepID] gives a step the ID of the status recorded under
    its name, and [generateSubStepID] gives a substep the ID recorded under
    its name among the substeps of the status of its parent; with no such
    record, and only then, the ID is a fresh random string, of 10
    characters. So the ID of every status with a name of its own is
    generated again as it is, whatever the random source, and [Generate]
    hands every step and every substep of a group the ID so determined. *)
Theorem step_ids_are_stable (wr : WorkflowRun.t) (r : Rand) :
  let status := WorkflowRun.Status wr in
  (∀ name pre ss post,
     WorkflowRunStatus.Steps status = pre ++ ss :: post →
     name ∉ (WorkflowStepStatus.Name <$> pre) →
     WorkflowStepStatus.Name ss = name →
     generateStepID status name r = (WorkflowStepStatus.ID ss, r))
  ∧ (∀ name,
       name ∉ (WorkflowStepStatus.Name <$> WorkflowRunStatus.Steps status) →
       generateStepID status name r = RandomString 10 r
       ∧ String.length (RandomString 10 r).1 = 10)
  ∧ (∀ name parent pre ss post spre sub spost,
       WorkflowRunStatus.Steps status = pre ++ ss :: post →
       (∀ p, p ∈ pre → WorkflowStepStatus.Name p = parent →
             name ∉ (StepStatus.Name <$> WorkflowStepStatus.SubStepsStatus p)) →
       WorkflowStepStatus.Name ss = parent →
       WorkflowStepStatus.SubStepsStatus ss = spre ++ sub :: spost →
       name ∉ (StepStatus.Name <$> spre) →
       StepStatus.Name sub = name →
       generateSubStepID status name parent r = (StepStatus.ID sub, r))
  ∧ (∀ name parent,
       (∀ p, p ∈ WorkflowRunStatus.Steps status → WorkflowStepStatus.Name p = parent →
             name ∉ (StepStatus.Name <$> WorkflowStepStatus.SubStepsStatus p)) →
       generateSubStepID status name parent r = RandomString 10 r)
  ∧ (NoDup (WorkflowStepStatus.Name <$> WorkflowRunStatus.Steps status) →
     ∀ ss, ss ∈ WorkflowRunStatus.Steps status →
       generateStepID status (WorkflowStepStatus.Name ss) r = (WorkflowStepStatus.ID ss, r)
       ∧ (NoDup (StepStatus.Name <$> WorkflowStepStatus.SubStepsStatus ss) →
          ∀ sub, sub ∈ WorkflowStepStatus.SubStepsStatus ss →
            generateSubStepID status (StepStatus.Name sub) (WorkflowStepStatus.Name ss) r
            = (StepStatus.ID sub, r)))
  ∧ (∀ steps,
       WorkflowSpec (WorkflowRun.Spec wr) = Some steps →
       ∃ tasks r',
         Generate recordedTask recorder wr r = Some (inr tasks, r')
         ∧ Forall2 (fun step t =>
                      assignedID (recordedStepID (WorkflowRunStatus.Steps status)
                                                 (WorkflowStep.Name step))
                                 (taskID t)
                      ∧ (WorkflowStep.Type_ step = WorkflowStepTypeStepGroup →
                         Forall2 (fun sub t' =>
                                    assignedID (recordedSubStepID
                                                  (WorkflowRunStatus.Steps status)
                                                  (WorkflowStepBase.Name sub)
                                                  (WorkflowStep.Name step))
                                               (taskID t'))
                                 (WorkflowStep.SubSteps step) (taskSubs t)))
                   steps tasks).
Proof.
  intros status.
  assert (Hstep : ∀ name pre ss post,
     WorkflowRunStatus.Steps status = pre ++ ss :: post →
     name ∉ (WorkflowStepStatus.Name <$> pre) →
     WorkflowStepStatus.Name ss = name →
     generateStepID status name r = (WorkflowStepStatus.ID ss, r)).
  { intros name pre ss post Heq Hpre Hss. unfold generateStepID.
    by rewrite Heq, (recordedStepID_first pre post ss name). }
  assert (Hsub : ∀ name parent pre ss post spre sub spost,
       WorkflowRunStatus.Steps status = pre ++ ss :: post →
       (∀ p, p ∈ pre → WorkflowStepStatus.Name p = parent →
             name ∉ (StepStatus.Name <$> WorkflowStepStatus.SubStepsStatus p)) →
       WorkflowStepStatus.Name ss = parent →
       WorkflowStepStatus.SubStepsStatus ss = spre ++ sub :: spost →
       name ∉ (StepStatus.Name <$> spre) →
       StepStatus.Name sub = name →
       generateSubStepID status name parent r = (StepStatus.ID sub, r)).
  { intros name parent pre ss post spre sub spost Heq Hpre Hss Hsubs Hspre Hsubn.
    unfold generateSubStepID. rewrite Heq, recordedSubStepID_skip by done. simpl.
    rewrite decide_True by done.
    by rewrite Hsubs, (recordedSubID_first spre spost sub name). }
  split; [exact Hstep|]. split; [|split; [exact Hsub|split; [|split]]].
  - intros name Hname. split; [|apply RandomString_length].
    unfold generateStepID. by rewrite recordedStepID_None.
  - intros name parent Hnone. unfold generateSubStepID.
    rewrite <- (app_nil_r (WorkflowRunStatus.Steps status)).
    by rewrite recordedSubStepID_skip.
  - intros Hnd ss Hss.
    destruct (NoDup_fmap_first WorkflowStepStatus.Name _ ss Hnd Hss)
      as (pre & post & Heq & Hpre).
    split; [by eapply Hstep|].
    intros Hnds sub Hsubin.
    destruct (NoDup_fmap_first StepStatus.Name _ sub Hnds Hsubin)
      as (spre & spost & Hseq & Hspre).
    eapply Hsub; [exact Heq | | done | exact Hseq | done | done].
    intros p Hp Hpn. exfalso. apply Hpre. rewrite <- Hpn. by apply list_elem_of_fmap_2.
  - intros steps Hspec. unfold Generate. rewrite Hspec.
    destruct (generateTasks_recorded wr steps [] r) as (tasks & r' & Heq & Htasks).
    exists tasks, r'. by rewrite Heq.
Qed.

(** ** Restart from scratch *)

Lemma next_fault_nil (c : Cluster) : faults c = [] → next_fault c = (None, c).
Proof. unfold next_fault. by intros ->. Qed.

(** C8. Restart with the empty step name, on a cluster that answers every
    call and stores the run: the call returns nil; the durable context
    object named by [ContextBackend] is deleted when it is stored, and the
    call succeeds all the same when it is not; the status of the run, in
    memory and as stored, is the zero status. *)
Theorem RestartWorkflow_full_reset
    (rangeMap : gmap string (list string) → list (string * list string))
    (NewValue : string → error + Node) (formatNode : Node → error + string)
    (fuel : nat) (cli : Cluster) (run : WorkflowRun.t) :
  faults cli = [] →
  is_Some (runs cli !! runKey run) →
  ∃ cli',
    RestartWorkflow rangeMap NewValue formatNode fuel cli run ""
    = (Returned None, cli', WorkflowRun.with_Status WorkflowRunStatus.zero run)
    ∧ runs cli' = <[runKey run := WorkflowRunStatus.zero]> (runs cli)
    ∧ workflows cli' = workflows cli
    ∧ match WorkflowRunStatus.ContextBackend (WorkflowRun.Status run) with
      | Some name =>
          configMaps cli' = delete (WorkflowRun.Namespace run, name) (configMaps cli)
          ∧ configMaps cli' !! (WorkflowRun.Namespace run, name) = None
      | None => configMaps cli' = configMaps cli
      end.
Proof.
  intros Hf [stored Hstored]. unfold RestartWorkflow.
  rewrite decide_False by (intros H; by apply H).
  assert (Hwrite : ∀ c, faults c = [] → runs c = runs cli →
            StatusUpdate (WorkflowRun.with_Status WorkflowRunStatus.zero run) c
            = (None, with_runs (<[runKey run := WorkflowRunStatus.zero]> (runs c)) c)).
  { intros c Hc Hr. unfold StatusUpdate, writeStatus. rewrite next_fault_nil by done.
    unfold runKey in *. simpl. by rewrite Hr, Hstored. }
  destruct (WorkflowRunStatus.ContextBackend (WorkflowRun.Status run)) as [name|].
  - unfold GetConfigMap. rewrite next_fault_nil by done.
    destruct (configMaps cli !! (WorkflowRun.Namespace run, name)) as [data|] eqn:Hcm.
    + unfold DeleteConfigMap. rewrite next_fault_nil by done. simpl. rewrite Hcm.
      rewrite Hwrite by done. simpl. eexists. split; [reflexivity|]. simpl.
      repeat split. apply lookup_delete_eq.
    + simpl. rewrite Hwrite by done. eexists. split; [reflexivity|]. simpl.
      repeat split; [|done]. symmetry. by apply delete_id.
  - rewrite Hwrite by done. eexists. split; [reflexivity|]. done.
Qed.

Lemma RestartWorkflow_full_reset_witness :
  let status := WorkflowRunStatus.mk true true true (Some "workflow-run-context")
      [ WorkflowStepStatus.mk (exampleStatus "a" "apply" WorkflowStepPhaseFailed "Execute") [] ]
      (Some 5%Z) (mkMode "DAG" "DAG") in
  let stored := mkCluster {[ ("default", "workflow-run-context") := Some ∅ ]} ∅
                  {[ ("default", "run") := status ]} [] in
  let absent := exampleCluster status in
  (∃ cli',
     RestartWorkflow keyOrder (fun _ => inr (StructLit [])) (fun _ => inr "") 0
       stored (exampleRun [] status) ""
     = (Returned None, cli', exampleRun [] WorkflowRunStatus.zero)
     ∧ configMaps cli' !! ("default", "workflow-run-context") = None)
  ∧ (∃ cli',
       RestartWorkflow keyOrder (fun _ => inr (StructLit [])) (fun _ => inr "") 0
         absent (exampleRun [] status) ""
       = (Returned None, cli', exampleRun [] WorkflowRunStatus.zero)).
Proof.
  intros status stored absent. split.
  - destruct (RestartWorkflow_full_reset keyOrder (fun _ => inr (StructLit []))
                (fun _ => inr "") 0 stored (exampleRun [] status))
      as (cli' & Heq & _ & _ & _ & Hcm); [reflexivity | by eexists |].
    exists cli'. split; [exact Heq | exact Hcm].
  - destruct (RestartWorkflow_full_reset keyOrder (fun _ => inr (StructLit []))
                (fun _ => inr "") 0 absent (exampleRun [] status))
      as (cli' & Heq & _); [reflexivity | by eexists |].
    exists cli'. exact Heq.
Defined.

(** ** Requests that are refused *)

Section Refused.

Variable rangeMap : gmap string (list string) → list (string * list string).
Variable fuel : nat.
Variable steps : list WorkflowStep.t.
Variable stepName : string.
Variable mode : WorkflowExecuteMode.

Lemma restartSubLoop_unnamed (i : nat) (step : WorkflowStepStatus.t)
    (subs : list StepStatus.t) (st : restartState) :
  stepName ∉ (StepStatus.Name <$> subs) →
  restartSubLoop rangeMap fuel steps stepName mode i step subs st = Continue st.
Proof.
  induction subs as [|sub rest IH]; simpl; [done|].
  rewrite not_elem_of_cons. intros [Hne Hrest].
  rewrite decide_False by congruence. auto.
Qed.

Lemma restartSubLoop_not_failed (i : nat) (step : WorkflowStepStatus.t)
    (subs : list StepStatus.t) (st : restartState) :
  (∀ sub, sub ∈ subs → StepStatus.Name sub = stepName →
          StepStatus.Phase sub ≠ WorkflowStepPhaseFailed) →
  stepName ∈ (StepStatus.Name <$> subs) →
  restartSubLoop rangeMap fuel steps stepName mode i step subs st = Return errNotFailed st.
Proof.
  induction subs as [|sub rest IH]; simpl; intros Hnf Hin; [inversion Hin|].
  destruct (decide (StepStatus.Name sub = stepName)) as [Heq|Hne].
  - rewrite decide_True; [done|]. apply Hnf; [left | done].
  - apply elem_of_cons in Hin as [Hin|Hin]; [congruence|].
    apply IH; [|done]. intros s Hs. apply Hnf. by right.
Qed.

Lemma restartLoop_unnamed (idxs : list nat) (st : restartState) :
  unnamedAt stepName idxs st →
  restartLoop rangeMap fuel steps stepName mode idxs st = Continue st.
Proof.
  induction idxs as [|i rest IH]; simpl; intros Hun; [done|].
  assert (Hrest : unnamedAt stepName rest st).
  { intros j s Hj. apply Hun. by right. }
  destruct (stepStatus st !! i) as [step|] eqn:Hi; [|auto].
  destruct (Hun i step) as [Hne Hsubs]; [left | done |].
  rewrite decide_False by done.
  rewrite restartSubLoop_unnamed by done. auto.
Qed.

Lemma restartLoop_not_failed (idxs : list nat) (st : restartState) :
  ¬ statusNamed (stepStatus st) stepName WorkflowStepPhaseFailed →
  ¬ unnamedAt stepName idxs st →
  restartLoop rangeMap fuel steps stepName mode idxs st = Return errNotFailed st.
Proof.
  intros Hnf. induction idxs as [|i rest IH]; simpl; intros Hnamed.
  - destruct Hnamed. intros i step Hi. inversion Hi.
  - destruct (stepStatus st !! i) as [step|] eqn:Hi.
    + assert (Hin : step ∈ stepStatus st) by (apply list_elem_of_lookup; eauto).
      destruct (decide (WorkflowStepStatus.Name step = stepName)) as [Heq|Hne].
      * rewrite decide_True; [done|]. intros Hph. apply Hnf. left. by exists step.
      * destruct (decide (stepName ∈ (StepStatus.Name <$> WorkflowStepStatus.SubStepsStatus step)))
          as [Hsub|Hsub].
        -- rewrite restartSubLoop_not_failed; [done | | done].
           intros sub Hs Hsn Hph. apply Hnf. right. by exists step, sub.
        -- rewrite restartSubLoop_unnamed by done. apply IH.
           intros Hrest. apply Hnamed. intros j s Hj Hjs.
           apply elem_of_cons in Hj as [->|Hj]; [|exact (Hrest j s Hj Hjs)].
           rewrite Hi in Hjs. by injection Hjs as <-.
    + apply IH. intros Hrest. apply Hnamed. intros j s Hj Hjs.
      apply elem_of_cons in Hj as [->|Hj]; [congruence | exact (Hrest j s Hj Hjs)].
Qed.

End Refused.

Lemma statusNamed_not_unnamedAt (name phase : string) (st : restartState) :
  statusNamed (stepStatus st) name phase →
  ¬ unnamedAt name (seq 0 (length (stepStatus st))) st.
Proof.
  intros Hnamed Hun.
  assert (Hidx : ∀ ss, ss ∈ stepStatus st →
            WorkflowStepStatus.Name ss ≠ name
            ∧ name ∉ (StepStatus.Name <$> WorkflowStepStatus.SubStepsStatus ss)).
  { intros ss Hss. apply list_elem_of_lookup in Hss as [i Hi].
    apply (Hun i ss); [|done]. apply elem_of_seq. split; [lia|].
    apply lookup_lt_Some in Hi. lia. }
  destruct Hnamed as [(ss & Hss & Hn & _)|(ss & sub & Hss & Hsub & Hn & _)].
  - by destruct (Hidx ss Hss).
  - destruct (Hidx ss Hss) as [_ Hsubs]. apply Hsubs. rewrite <- Hn.
    by apply list_elem_of_fmap_2.
Qed.

Lemma not_statusNamed_unnamedAt (name : string) (idxs : list nat) (st : restartState) :
  (∀ phase, ¬ statusNamed (stepStatus st) name phase) →
  unnamedAt name idxs st.
Proof.
  intros Hnone i step _ Hi.
  assert (Hin : step ∈ stepStatus st) by (apply list_elem_of_lookup; eauto).
  split.
  - intros Hn. apply (Hnone (WorkflowStepStatus.Phase step)). left. by exists step.
  - intros Hsub. apply list_elem_of_fmap in Hsub as (sub & Hn & Hsub).
    apply (Hnone (StepStatus.Phase sub)). right. by exists step, sub.
Qed.

Lemma GetWorkflow_stores (key : ObjectKey) (c c' : Cluster)
    (res : error + list WorkflowStep.t) :
  GetWorkflow key c = (res, c') → runs c' = runs c ∧ configMaps c' = configMaps c.
Proof.
  unfold GetWorkflow. destruct (next_fault c) as [[e|] c1] eqn:Hf;
    apply next_fault_stores in Hf as (Hcm & _ & Hr).
  - by intros [= <- <-].
  - destruct (workflows c1 !! key); by intros [= <- <-].
Qed.

(** The status of the run when the loop of [RestartFromStep] starts has the
    steps of the status before. *)
Lemma cleared_status_Steps (status : WorkflowRunStatus.t) :
  WorkflowRunStatus.Steps (clearedStatus status) = WorkflowRunStatus.Steps status.
Proof. unfold clearedStatus. by destruct (bool_decide _). Qed.

(** C9. Rollback returns an error, whatever the run. [RestartFromStep]
    returns an error when a status of the name exists, of a step or of a
    substep, and none of that name is in the phase Failed, and when no
    status of the name exists; in both cases the stored status of the runs
    and the stored context objects are the ones before. When the steps are
    declared in the run the errors are the ones of the two checks. *)
Theorem invalid_requests_are_refused
    (rangeMap : gmap string (list string) → list (string * list string))
    (NewValue : string → error + Node) (formatNode : Node → error + string)
    (fuel : nat) (wo : workflowRunOperator) (stepName : string) :
  let statuses := WorkflowRunStatus.Steps (WorkflowRun.Status (run wo)) in
  Rollback wo = (Some (Errorf "can not rollback a WorkflowRun"), wo)
  ∧ (∀ phase,
       statusNamed statuses stepName phase →
       ¬ statusNamed statuses stepName WorkflowStepPhaseFailed →
       ∃ e cli' run',
         RestartFromStep rangeMap NewValue formatNode fuel (cli wo) (run wo) stepName
         = (Returned (Some e), cli', run')
         ∧ runs cli' = runs (cli wo) ∧ configMaps cli' = configMaps (cli wo)
         ∧ (stepName ≠ "" → is_Some (WorkflowSpec (WorkflowRun.Spec (run wo))) →
            e = errNotFailed))
  ∧ ((∀ phase, ¬ statusNamed statuses stepName phase) →
     ∃ e cli' run',
       RestartFromStep rangeMap NewValue formatNode fuel (cli wo) (run wo) stepName
       = (Returned (Some e), cli', run')
       ∧ runs cli' = runs (cli wo) ∧ configMaps cli' = configMaps (cli wo)
       ∧ (stepName ≠ "" → is_Some (WorkflowSpec (WorkflowRun.Spec (run wo))) →
          e = Errorf ("failed step " +:+ stepName +:+ " not found"))).
Proof.
  intros statuses. subst statuses.
  destruct wo as [c w r]. simpl. split; [done|].
  unfold RestartFromStep.
  destruct (decide (stepName = "")) as [Hempty|Hname].
  { split; [intros phase _ _ | intros _];
      (eexists _, _, _; split; [reflexivity|]; split; [done|]; split; [done|];
       intros Hne; by destruct (Hne Hempty)). }
  pose proof (cleared_status_Steps (WorkflowRun.Status r)) as Hsteps.
  simpl.
  destruct (WorkflowSpec (WorkflowRun.Spec r)) as [steps|] eqn:Hspec.
  - unfold restartFrom. simpl. set (st := mkRestart _ _ true false []).
    split.
    + intros phase Hnamed Hnf.
      rewrite (restartLoop_not_failed rangeMap fuel steps stepName _ _ st).
      * eexists _, _, _. by repeat split.
      * simpl. by rewrite Hsteps.
      * apply (statusNamed_not_unnamedAt stepName phase st). simpl. by rewrite Hsteps.
    + intros Hnone.
      rewrite (restartLoop_unnamed rangeMap fuel steps stepName _ _ st).
      * simpl. eexists _, _, _. by repeat split.
      * apply not_statusNamed_unnamedAt. simpl. by rewrite Hsteps.
  - destruct (GetWorkflow _ c) as [[e|steps] c1] eqn:Hget;
      apply GetWorkflow_stores in Hget as [Hr Hcm].
    { split; [intros phase _ _ | intros _];
        (eexists _, _, _; split; [reflexivity|]; split; [done|]; split; [done|];
         by intros _ [? ?]). }
    unfold restartFrom. simpl. set (st := mkRestart _ _ true false []).
    split.
    + intros phase Hnamed Hnf.
      rewrite (restartLoop_not_failed rangeMap fuel steps stepName _ _ st).
      * eexists _, _, _. split; [reflexivity|]. split; [done|]. split; [done|].
        by intros _ [? ?].
      * simpl. by rewrite Hsteps.
      * apply (statusNamed_not_unnamedAt stepName phase st). simpl. by rewrite Hsteps.
    + intros Hnone.
      rewrite (restartLoop_unnamed rangeMap fuel steps stepName _ _ st).
      * simpl. eexists _, _, _. split; [reflexivity|]. split; [done|]. split; [done|].
        by intros _ [? ?].
      * apply not_statusNamed_unnamedAt. simpl. by rewrite Hsteps.
Qed.

(** ** The dependents of a step in a DAG *)

Lemma visitDeps_None (stepName : string) (recur : string → option (list string))
    (step : string) (deps : list string) :
  visitDeps stepName recur step None deps = None.
Proof.
  unfold visitDeps. induction deps as [|dep deps IH]; simpl; [done|].
  by destruct (decide (dep = stepName)).
Qed.

Lemma visitDeps_cons (stepName : string) (recur : string → option (list string))
    (step : string) (acc : option (list string)) (dep : string) (deps : list string) :
  visitDeps stepName recur step acc (dep :: deps)
  = visitDeps stepName recur step
      (if decide (dep = stepName) then
         match acc, recur step with
         | Some dependency, Some sub => Some ((dependency ++ [step]) ++ sub)
         | _, _ => None
         end
       else acc) deps.
Proof. reflexivity. Qed.

Lemma visitDeps_is_Some (stepName : string) (recur : string → option (list string))
    (step : string) (acc : option (list string)) (deps : list string) :
  is_Some (visitDeps stepName recur step acc deps) ↔
  is_Some acc ∧ (stepName ∈ deps → is_Some (recur step)).
Proof.
  revert acc. induction deps as [|dep deps IH]; intros acc.
  - simpl. split; [|tauto]. intros H. split; [done|]. inversion 1.
  - rewrite visitDeps_cons, IH. rewrite elem_of_cons.
    destruct (decide (dep = stepName)) as [->|Hne].
    + destruct acc as [d|], (recur step) as [sub|];
        rewrite !is_Some_alt; simpl; intuition.
    + rewrite !is_Some_alt. intuition congruence.
Qed.

Lemma visitDeps_elem (stepName : string) (recur : string → option (list string))
    (step : string) (acc : option (list string)) (deps r : list string) :
  visitDeps stepName recur step acc deps = Some r →
  ∃ d, acc = Some d
       ∧ ∀ x, x ∈ r ↔
              x ∈ d ∨ (stepName ∈ deps
                       ∧ (x = step ∨ ∃ sub, recur step = Some sub ∧ x ∈ sub)).
Proof.
  revert acc. induction deps as [|dep deps IH]; intros acc.
  - simpl. intros ->. exists r. split; [done|]. intros x. split; [by left|].
    intros [H|[H _]]; [done | inversion H].
  - rewrite visitDeps_cons. intros Hr. apply IH in Hr as (d' & Hd' & Hx).
    destruct (decide (dep = stepName)) as [->|Hne].
    + destruct acc as [d|]; [|done]. destruct (recur step) as [sub|] eqn:Hsub; [|done].
      injection Hd' as <-. exists d. split; [done|]. intros x. rewrite Hx.
      rewrite !elem_of_app, list_elem_of_singleton, elem_of_cons. split.
      * intros [[[H|H]|H]|[H1 H2]]; [by left | right; split; [by left|by left]
          | right; split; [by left | right; by exists sub] | right; split; [by right | done]].
      * intros [H|[_ [H|(sub' & Hs & H)]]]; [by left; left; left | by left; left; right |].
        injection Hs as <-. left. by right.
    + exists d'. split; [done|]. intros x. rewrite Hx, elem_of_cons.
      split; [tauto|]. intros [H|[[H|H] H2]]; [tauto | congruence | tauto].
Qed.

Lemma visitEntries_None (stepName : string) (recur : string → option (list string))
    (entries : list (string * list string)) :
  visitEntries stepName recur None entries = None.
Proof.
  unfold visitEntries. induction entries as [|e entries IH]; simpl; [done|].
  by rewrite visitDeps_None.
Qed.

Lemma visitEntries_cons (stepName : string) (recur : string → option (list string))
    (acc : option (list string)) (entry : string * list string)
    (entries : list (string * list string)) :
  visitEntries stepName recur acc (entry :: entries)
  = visitEntries stepName recur (visitDeps stepName recur entry.1 acc entry.2) entries.
Proof. reflexivity. Qed.

Lemma visitEntries_is_Some (stepName : string) (recur : string → option (list string))
    (acc : option (list string)) (entries : list (string * list string)) :
  is_Some (visitEntries stepName recur acc entries) ↔
  is_Some acc
  ∧ ∀ step deps, (step, deps) ∈ entries → stepName ∈ deps → is_Some (recur step).
Proof.
  revert acc. induction entries as [|[step deps] entries IH]; intros acc.
  - simpl. split; [|tauto]. intros H. split; [done|]. intros ? ? H'. inversion H'.
  - rewrite visitEntries_cons, IH, visitDeps_is_Some. simpl. split.
    + intros [[H1 H2] H3]. split; [done|]. intros s d Hin.
      apply elem_of_cons in Hin as [[= -> ->]|Hin]; [done | by apply H3].
    + intros [H1 H2]. split; [split; [done|]|].
      * apply H2. left.
      * intros s d Hin. apply H2. by right.
Qed.

Lemma visitEntries_elem (stepName : string) (recur : string → option (list string))
    (acc : option (list string)) (entries : list (string * list string)) (r : list string) :
  visitEntries stepName recur acc entries = Some r →
  ∃ d, acc = Some d
       ∧ ∀ x, x ∈ r ↔
              x ∈ d ∨ ∃ step deps, (step, deps) ∈ entries ∧ stepName ∈ deps
                                   ∧ (x = step ∨ ∃ sub, recur step = Some sub ∧ x ∈ sub).
Proof.
  revert acc. induction entries as [|[step deps] entries IH]; intros acc.
  - simpl. intros ->. exists r. split; [done|]. intros x. split; [by left|].
    intros [H|(s & d & H & _)]; [done | inversion H].
  - rewrite visitEntries_cons. simpl.
    intros Hr. apply IH in Hr as (d' & Hd' & Hx).
    apply visitDeps_elem in Hd' as (d & -> & Hd').
    exists d. split; [done|]. intros x. rewrite Hx, Hd'. split.
    + intros [[H|[H1 H2]]|(s & ds & Hin & H)]; [by left | |].
      * right. exists step, deps. split; [left | done].
      * right. exists s, ds. split; [by right | done].
    + intros [H|(s & ds & Hin & H)]; [by left; left|].
      apply elem_of_cons in Hin as [[= -> ->]|Hin]; [left; by right|].
      right. by exists s, ds.
Qed.

Lemma visitDeps_mono (stepName : string) (recur1 recur2 : string → option (list string))
    (step : string) (acc : option (list string)) (deps r : list string) :
  (∀ sub, recur1 step = Some sub → recur2 step = Some sub) →
  visitDeps stepName recur1 step acc deps = Some r →
  visitDeps stepName recur2 step acc deps = Some r.
Proof.
  intros Hrec. revert acc. induction deps as [|dep deps IH]; intros acc; [done|].
  rewrite !visitDeps_cons. intros Hr.
  destruct (decide (dep = stepName)) as [->|Hne]; [|by apply IH].
  destruct acc as [d|]; [|by rewrite visitDeps_None in Hr].
  destruct (recur1 step) as [sub|] eqn:Hsub; [|by rewrite visitDeps_None in Hr].
  rewrite (Hrec sub eq_refl). by apply IH.
Qed.

Lemma visitEntries_mono (stepName : string) (recur1 recur2 : string → option (list string))
    (acc : option (list string)) (entries : list (string * list string)) (r : list string) :
  (∀ step sub, recur1 step = Some sub → recur2 step = Some sub) →
  visitEntries stepName recur1 acc entries = Some r →
  visitEntries stepName recur2 acc entries = Some r.
Proof.
  intros Hrec. revert acc. induction entries as [|entry entries IH]; intros acc; [done|].
  rewrite !visitEntries_cons. intros Hr.
  destruct (visitDeps stepName recur1 entry.1 acc entry.2) as [d|] eqn:Hd;
    [|by rewrite visitEntries_None in Hr].
  rewrite (visitDeps_mono stepName recur1 recur2 entry.1 acc entry.2 d); [by apply IH | | done].
  intros sub. apply Hrec.
Qed.

Section FindDependency.

Variable rangeMap : gmap string (list string) → list (string * list string).

(** Whatever the order, [range] goes through every entry of the map once. *)
Hypothesis rangeMap_entries : ∀ m, rangeMap m ≡ₚ map_to_list m.

Variable dependsOn : gmap string (list string).

Lemma elem_of_rangeMap (step : string) (deps : list string) :
  (step, deps) ∈ rangeMap dependsOn ↔ dependsOn !! step = Some deps.
Proof. rewrite (rangeMap_entries dependsOn). apply elem_of_map_to_list. Qed.

Lemma findDependency_is_Some (fuel : nat) (stepName : string) :
  is_Some (findDependency rangeMap (S fuel) stepName dependsOn) ↔
  ∀ step, listedBy dependsOn stepName step →
          is_Some (findDependency rangeMap fuel step dependsOn).
Proof.
  simpl. rewrite visitEntries_is_Some. split.
  - intros [_ H] step (deps & Hdeps & Hin). apply (H step deps); [|done].
    by apply elem_of_rangeMap.
  - intros H. split; [done|]. intros step deps Hin Hs. apply H.
    exists deps. split; [by apply elem_of_rangeMap | done].
Qed.

(** What [findDependency] returns, when it returns: the dependents of
    [stepName]. *)
Lemma findDependency_elem (fuel : nat) (stepName : string) (r : list string) :
  findDependency rangeMap fuel stepName dependsOn = Some r →
  ∀ x, x ∈ r ↔ dependent dependsOn stepName x.
Proof.
  revert stepName r. induction fuel as [|fuel IH]; intros stepName r Hr; [done|].
  assert (Hsome : is_Some (findDependency rangeMap (S fuel) stepName dependsOn))
    by (by rewrite Hr).
  rewrite findDependency_is_Some in Hsome.
  simpl in Hr. apply visitEntries_elem in Hr as (d & [= <-] & Hx).
  intros x. rewrite Hx. split.
  - intros [H|(step & deps & Hin & Hs & H)]; [inversion H|].
    apply elem_of_rangeMap in Hin.
    assert (Hl : listedBy dependsOn stepName step) by (by exists deps).
    destruct H as [->|(sub & Hsub & H)]; [by apply tc_once|].
    eapply tc_l; [exact Hl|]. by apply (IH step sub).
  - intros Hdep. right. inversion Hdep as [? ? Hl|? step ? Hl Htc]; subst.
    + destruct Hl as (deps & Hdeps & Hin). exists x, deps.
      split; [by apply elem_of_rangeMap|]. split; [done | by left].
    + destruct (Hsome step Hl) as [sub Hsub].
      destruct Hl as (deps & Hdeps & Hin). exists step, deps.
      split; [by apply elem_of_rangeMap|]. split; [done|].
      right. exists sub. split; [done|]. by apply (IH step sub).
Qed.

(** A call that uses up its fuel has followed a path of as many dependents. *)
Lemma findDependency_None_chain (fuel : nat) (stepName : string) :
  findDependency rangeMap fuel stepName dependsOn = None →
  ∃ l, chain dependsOn stepName l ∧ length l = fuel.
Proof.
  revert stepName. induction fuel as [|fuel IH]; intros stepName Hnone.
  - exists []. split; [constructor | done].
  - assert (Hex : Exists (fun entry : string * list string =>
                     stepName ∈ entry.2
                     ∧ findDependency rangeMap fuel entry.1 dependsOn = None)
                   (rangeMap dependsOn)).
    { assert (dec : ∀ entry : string * list string,
                {stepName ∈ entry.2 →
                 is_Some (findDependency rangeMap fuel entry.1 dependsOn)}
                + {stepName ∈ entry.2
                   ∧ findDependency rangeMap fuel entry.1 dependsOn = None}).
      { intros [step deps]. simpl.
        destruct (decide (stepName ∈ deps)) as [Hin|Hin]; [|left; tauto].
        destruct (findDependency rangeMap fuel step dependsOn) eqn:Hfd;
          [left; eauto | right; done]. }
      destruct (Forall_Exists_dec _ _ dec (rangeMap dependsOn)) as [Hall|Hex]; [|done].
      exfalso.
      assert (Hsome : is_Some (findDependency rangeMap (S fuel) stepName dependsOn)).
      { apply findDependency_is_Some. intros step (deps & Hdeps & Hin).
        apply elem_of_rangeMap in Hdeps.
        rewrite Forall_forall in Hall. by apply (Hall (step, deps)). }
      rewrite Hnone in Hsome. by destruct Hsome. }
    apply Exists_exists in Hex as ([step deps] & Hentry & Hin & Hfd). simpl in *.
    apply elem_of_rangeMap in Hentry.
    destruct (IH step Hfd) as (l & Hl & Hlen).
    exists (step :: l). split; [|by rewrite <- Hlen].
    constructor; [by exists deps | done].
Qed.

Lemma chain_dependent (s : string) (l : list string) (x : string) :
  chain dependsOn s l → x ∈ l → dependent dependsOn s x.
Proof.
  induction 1 as [|s t l Hst Hl IH]; intros Hx; [inversion Hx|].
  apply elem_of_cons in Hx as [->|Hx]; [by apply tc_once|].
  eapply tc_l; [exact Hst | by apply IH].
Qed.

Lemma chain_keys (s : string) (l : list string) (x : string) :
  chain dependsOn s l → x ∈ l → x ∈ (map_to_list dependsOn).*1.
Proof.
  induction 1 as [|s t l Hst Hl IH]; intros Hx; [inversion Hx|].
  apply elem_of_cons in Hx as [->|Hx]; [|by apply IH].
  destruct Hst as (deps & Hdeps & _).
  apply list_elem_of_fmap. exists (t, deps). split; [done|].
  by apply elem_of_map_to_list.
Qed.

Lemma chain_NoDup (s : string) (l : list string) :
  acyclic dependsOn → chain dependsOn s l → NoDup l.
Proof.
  intros Hacyclic. induction 1 as [|s t l Hst Hl IH]; constructor; [|done].
  intros Hin. apply (Hacyclic t). by eapply chain_dependent.
Qed.

(** On a map with no cycle, [findDependency] returns from every name, with
    fuel for one more call than the map has entries. *)
Lemma findDependency_terminates (fuel : nat) (stepName : string) :
  acyclic dependsOn →
  size dependsOn < fuel →
  is_Some (findDependency rangeMap fuel stepName dependsOn).
Proof.
  intros Hacyclic Hfuel.
  destruct (findDependency rangeMap fuel stepName dependsOn) as [r|] eqn:Hfd; [done|].
  apply findDependency_None_chain in Hfd as (l & Hl & Hlen).
  assert (Hle : length l ≤ length ((map_to_list dependsOn).*1)).
  { apply submseteq_length, NoDup_submseteq; [by eapply chain_NoDup|].
    intros x Hx. by eapply chain_keys. }
  rewrite length_fmap, length_map_to_list in Hle. lia.
Qed.

(** More fuel does not change what is returned. *)
Lemma findDependency_more_fuel (fuel : nat) (stepName : string) (r : list string) :
  findDependency rangeMap fuel stepName dependsOn = Some r →
  findDependency rangeMap (S fuel) stepName dependsOn = Some r.
Proof.
  revert stepName r. induction fuel as [|fuel IH]; intros stepName r; [done|].
  intros Hr. change (visitEntries stepName
                       (fun step => findDependency rangeMap (S fuel) step dependsOn)
                       (Some []) (rangeMap dependsOn) = Some r).
  eapply visitEntries_mono; [|exact Hr]. intros step sub. apply IH.
Qed.

End FindDependency.

Lemma findDependency_fuel_le
    (rangeMap : gmap string (list string) → list (string * list string))
    (dependsOn : gmap string (list string)) (fuel fuel' : nat) (stepName : string)
    (r : list string) :
  fuel ≤ fuel' →
  findDependency rangeMap fuel stepName dependsOn = Some r →
  findDependency rangeMap fuel' stepName dependsOn = Some r.
Proof.
  induction 1 as [|fuel' Hle IH]; [done|].
  intros Hr. by apply findDependency_more_fuel, IH.
Qed.

(** With a cycle through a name, no fuel is enough for that name. *)
Lemma findDependency_cycle
    (rangeMap : gmap string (list string) → list (string * list string))
    (dependsOn : gmap string (list string)) (stepName : string) :
  (∀ m, rangeMap m ≡ₚ map_to_list m) →
  dependent dependsOn stepName stepName →
  ∀ fuel, findDependency rangeMap fuel stepName dependsOn = None.
Proof.
  intros Hperm Hcycle.
  assert (Hstep : ∀ s t, dependent dependsOn s t →
            ∀ fuel, is_Some (findDependency rangeMap (S fuel) s dependsOn) →
                    is_Some (findDependency rangeMap fuel t dependsOn)).
  { induction 1 as [s t Hst|s y t Hsy Hyt IH]; intros fuel Hsome;
      rewrite (findDependency_is_Some rangeMap Hperm) in Hsome.
    - by apply Hsome.
    - specialize (Hsome y Hsy). destruct fuel as [|fuel]; [by destruct Hsome|].
      destruct (IH fuel Hsome) as [r Hr]. exists r.
      by apply findDependency_more_fuel. }
  intros fuel. induction fuel as [|fuel IH]; [done|].
  destruct (findDependency rangeMap (S fuel) stepName dependsOn) as [r|] eqn:Hfd; [|done].
  destruct (Hstep stepName stepName Hcycle fuel) as [r' Hr']; [by rewrite Hfd|].
  congruence.
Qed.

Lemma keyOrder_entries (m : gmap string (list string)) : keyOrder m ≡ₚ map_to_list m.
Proof. reflexivity. Qed.

Lemma dependent_key (dependsOn : gmap string (list string)) (s t : string) :
  dependent dependsOn s t → is_Some (dependsOn !! t).
Proof.
  induction 1 as [s t (deps & Hdeps & _)|]; [by exists deps | done].
Qed.

(** The check of the examples is sound. *)
Lemma acyclicb_sound (dependsOn : gmap string (list string)) :
  acyclicb dependsOn = true → acyclic dependsOn.
Proof.
  unfold acyclicb. rewrite forallb_forall. intros Hall s Hcycle.
  destruct (dependent_key dependsOn s s Hcycle) as [deps Hdeps].
  assert (Hin : In (s, deps) (map_to_list dependsOn))
    by (by apply list_elem_of_In, elem_of_map_to_list).
  apply Hall in Hin. cbv beta in Hin.
  change (s, deps).1 with s in Hin.
  rewrite (findDependency_cycle keyOrder dependsOn s keyOrder_entries Hcycle) in Hin.
  discriminate Hin.
Qed.

(** C10. On a map whose dependency relation has no cycle,
    [findDependency] returns, from every name and in whatever order the map
    is gone through: there is one list that it returns with any fuel above
    the number of entries of the map. Without the premise it need not: from
    a name on a cycle it never returns. *)
Theorem findDependency_total_on_acyclic
    (rangeMap : gmap string (list string) → list (string * list string))
    (dependsOn : gmap string (list string)) (stepName : string) :
  (∀ m, rangeMap m ≡ₚ map_to_list m) →
  (acyclic dependsOn →
   ∃ r, ∀ fuel, size dependsOn < fuel →
                findDependency rangeMap fuel stepName dependsOn = Some r)
  ∧ (dependent dependsOn stepName stepName →
     ∀ fuel, findDependency rangeMap fuel stepName dependsOn = None).
Proof.
  intros Hperm. split; [|by apply findDependency_cycle].
  intros Hacyclic.
  destruct (findDependency_terminates rangeMap Hperm dependsOn (S (size dependsOn)) stepName)
    as [r Hr]; [done | lia |].
  exists r. intros fuel Hfuel.
  apply (findDependency_fuel_le rangeMap dependsOn (S (size dependsOn))); [lia | done].
Qed.

Lemma findDependency_total_on_acyclic_witness :
  (∃ r, ∀ fuel, size (dependsOnMap exampleDag) < fuel →
                findDependency keyOrder fuel "a" (dependsOnMap exampleDag) = Some r)
  ∧ ∀ fuel, findDependency keyOrder fuel "a" {[ "a" := ["a"] ]} = None.
Proof.
  split.
  - apply (findDependency_total_on_acyclic keyOrder (dependsOnMap exampleDag) "a");
      [apply keyOrder_entries | apply acyclicb_sound; vm_compute; reflexivity].
  - apply (findDependency_total_on_acyclic keyOrder {[ "a" := ["a"] ]} "a");
      [apply keyOrder_entries|].
    apply tc_once. exists ["a"]. split; [apply lookup_singleton_eq | left].
Defined.

(** *** The map [dependsOn] *)

Lemma recordOutputs_lookup (name : string) (outputs : list outputItem)
    (m : gmap string string) (x : string) :
  recordOutputs name outputs m !! x
  = if decide (x ∈ (OutputName <$> outputs)) then Some name else m !! x.
Proof.
  unfold recordOutputs. revert m. induction outputs as [|o outputs IH]; intros m.
  - destruct (decide (x ∈ (OutputName <$> []))) as [H|H]; [inversion H | done].
  - rewrite fmap_cons. simpl foldl.
    rewrite IH. destruct (decide (x ∈ (OutputName <$> outputs))) as [Hin|Hin].
    + rewrite decide_True; [done | by right].
    + destruct (decide (x = OutputName o)) as [->|Hne].
      * rewrite lookup_insert_eq. rewrite decide_True; [done | left].
      * rewrite lookup_insert_ne by done.
        rewrite decide_False; [done|]. rewrite not_elem_of_cons. tauto.
Qed.

Lemma recordStep_dependsOn_other (bs : list WorkflowStepBase.t)
    (a : gmap string string * gmap string (list string)) (n : string) :
  n ∉ (WorkflowStepBase.Name <$> bs) →
  (foldl recordStep a bs).2 !! n = a.2 !! n.
Proof.
  revert a. induction bs as [|b bs IH]; intros a; simpl; [done|].
  rewrite not_elem_of_cons. intros [Hne Hrest].
  rewrite IH by done. simpl. by rewrite lookup_insert_ne.
Qed.

Lemma recordStep_dependsOn (bs : list WorkflowStepBase.t)
    (a : gmap string string * gmap string (list string)) (b : WorkflowStepBase.t) :
  NoDup (WorkflowStepBase.Name <$> bs) → b ∈ bs →
  (foldl recordStep a bs).2 !! WorkflowStepBase.Name b = Some (WorkflowStepBase.DependsOn b).
Proof.
  revert a. induction bs as [|b0 bs IH]; intros a Hnd Hb; [inversion Hb|].
  rewrite fmap_cons in Hnd. apply NoDup_cons in Hnd as [Hb0 Hnd]. simpl.
  apply elem_of_cons in Hb as [->|Hb]; [|by apply IH].
  rewrite recordStep_dependsOn_other by done. simpl. apply lookup_insert_eq.
Qed.

Lemma recordStep_outputs_sound (bs : list WorkflowStepBase.t)
    (a : gmap string string * gmap string (list string)) (x p : string) :
  (foldl recordStep a bs).1 !! x = Some p →
  a.1 !! x = Some p
  ∨ ∃ b, b ∈ bs ∧ WorkflowStepBase.Name b = p
         ∧ x ∈ (OutputName <$> WorkflowStepBase.Outputs b).
Proof.
  revert a. induction bs as [|b0 bs IH]; intros a; simpl; [by left|].
  intros Hx. apply IH in Hx as [Hx|(b & Hb & Hp & Hout)].
  - simpl in Hx. rewrite recordOutputs_lookup in Hx.
    destruct (decide (x ∈ (OutputName <$> WorkflowStepBase.Outputs b0))) as [Hin|Hin];
      [|by left].
    injection Hx as <-. right. exists b0. split; [left | done].
  - right. exists b. split; [by right | done].
Qed.

Lemma recordStep_outputs_complete (bs : list WorkflowStepBase.t)
    (a : gmap string string * gmap string (list string)) (x : string) :
  is_Some (a.1 !! x)
  ∨ (∃ b, b ∈ bs ∧ x ∈ (OutputName <$> WorkflowStepBase.Outputs b)) →
  is_Some ((foldl recordStep a bs).1 !! x).
Proof.
  revert a. induction bs as [|b0 bs IH]; intros a; simpl.
  - intros [H|(b & Hb & _)]; [done | inversion Hb].
  - intros H. apply IH. simpl. rewrite recordOutputs_lookup.
    destruct (decide (x ∈ (OutputName <$> WorkflowStepBase.Outputs b0))) as [Hin|Hin];
      [by left|].
    destruct H as [H|(b & Hb & Hout)]; [by left|].
    apply elem_of_cons in Hb as [->|Hb]; [done|]. right. by exists b.
Qed.

Lemma recordStep_outputs_other (bs : list WorkflowStepBase.t)
    (a : gmap string string * gmap string (list string)) (x : string) :
  (∀ b, b ∈ bs → x ∉ (OutputName <$> WorkflowStepBase.Outputs b)) →
  (foldl recordStep a bs).1 !! x = a.1 !! x.
Proof.
  revert a. induction bs as [|b bs IH]; intros a Hun; [done|].
  simpl. rewrite IH by (intros b' Hb'; apply Hun; by right).
  simpl. rewrite recordOutputs_lookup. rewrite decide_False; [done|]. apply Hun. left.
Qed.

Lemma withProducers_elem (stepOutputs : gmap string string) (inputs : list inputItem)
    (deps : list string) (d : string) :
  d ∈ withProducers stepOutputs inputs deps ↔
  d ∈ deps ∨ ∃ input, input ∈ inputs ∧ stepOutputs !! From input = Some d.
Proof.
  unfold withProducers. revert deps. induction inputs as [|i inputs IH]; intros deps; simpl.
  - split; [by left|]. intros [H|(input & H & _)]; [done | inversion H].
  - rewrite IH. destruct (stepOutputs !! From i) as [p|] eqn:Hp.
    + destruct (stringsContain deps p) eqn:Hc.
      * apply stringsContain_true in Hc. split.
        -- intros [H|(input & Hin & H)]; [by left|]. right. exists input. split; [by right|done].
        -- intros [H|(input & Hin & H)]; [by left|].
           apply elem_of_cons in Hin as [->|Hin]; [|right; by exists input].
           left. congruence.
      * rewrite elem_of_app, list_elem_of_singleton. split.
        -- intros [[H| ->]|(input & Hin & H)]; [by left | |].
           ++ right. exists i. split; [left | done].
           ++ right. exists input. split; [by right | done].
        -- intros [H|(input & Hin & H)]; [by left; left|].
           apply elem_of_cons in Hin as [->|Hin]; [|right; by exists input].
           left. right. congruence.
    + split.
      * intros [H|(input & Hin & H)]; [by left|]. right. exists input. split; [by right|done].
      * intros [H|(input & Hin & H)]; [by left|].
        apply elem_of_cons in Hin as [->|Hin]; [congruence|]. right. by exists input.
Qed.

Lemma addInputs_other (stepOutputs : gmap string string) (name : string)
    (inputs : list inputItem) (dependsOn : gmap string (list string)) (k : string) :
  k ≠ name → addInputs stepOutputs name inputs dependsOn !! k = dependsOn !! k.
Proof.
  intros Hne. unfold addInputs. revert dependsOn.
  induction inputs as [|i inputs IH]; intros dependsOn; simpl; [done|].
  rewrite IH. destruct (stepOutputs !! From i) as [p|]; [|done].
  destruct (stringsContain _ p); [done|]. by rewrite lookup_insert_ne.
Qed.

Lemma addInputs_same (stepOutputs : gmap string string) (name : string)
    (inputs : list inputItem) (dependsOn : gmap string (list string)) (deps : list string) :
  dependsOn !! name = Some deps →
  addInputs stepOutputs name inputs dependsOn !! name
  = Some (withProducers stepOutputs inputs deps).
Proof.
  unfold addInputs, withProducers. revert dependsOn deps.
  induction inputs as [|i inputs IH]; intros dependsOn deps Hdeps; simpl; [done|].
  rewrite Hdeps. simpl.
  destruct (stepOutputs !! From i) as [p|]; [|by apply IH].
  destruct (stringsContain deps p); [by apply IH|].
  apply IH. apply lookup_insert_eq.
Qed.

Lemma addStepInputs_other (stepOutputs : gmap string string) (bs : list WorkflowStepBase.t)
    (dependsOn : gmap string (list string)) (n : string) :
  n ∉ (WorkflowStepBase.Name <$> bs) →
  foldl (addStepInputs stepOutputs) dependsOn bs !! n = dependsOn !! n.
Proof.
  revert dependsOn. induction bs as [|b bs IH]; intros dependsOn; simpl; [done|].
  rewrite not_elem_of_cons. intros [Hne Hrest].
  rewrite IH by done. unfold addStepInputs. by rewrite addInputs_other.
Qed.

Lemma addStepInputs_same (stepOutputs : gmap string string) (bs : list WorkflowStepBase.t)
    (dependsOn : gmap string (list string)) (b : WorkflowStepBase.t) (deps : list string) :
  NoDup (WorkflowStepBase.Name <$> bs) → b ∈ bs →
  dependsOn !! WorkflowStepBase.Name b = Some deps →
  foldl (addStepInputs stepOutputs) dependsOn bs !! WorkflowStepBase.Name b
  = Some (withProducers stepOutputs (WorkflowStepBase.Inputs b) deps).
Proof.
  revert dependsOn. induction bs as [|b0 bs IH]; intros dependsOn Hnd Hb Hdeps;
    [inversion Hb|].
  rewrite fmap_cons in Hnd. apply NoDup_cons in Hnd as [Hb0 Hnd]. simpl.
  apply elem_of_cons in Hb as [->|Hb].
  - rewrite addStepInputs_other by done. by apply addInputs_same.
  - apply IH; [done | done |]. unfold addStepInputs. rewrite addInputs_other; [done|].
    intros Heq. apply Hb0. rewrite <- Heq. by apply list_elem_of_fmap_2.
Qed.

(** With names of their own, the map has for every step and substep its
    [DependsOn] followed by the producers of its inputs. *)
Lemma dependsOnMap_lookup (steps : list WorkflowStep.t) (b : WorkflowStepBase.t) :
  NoDup (WorkflowStepBase.Name <$> declarations steps) →
  b ∈ declarations steps →
  dependsOnMap steps !! WorkflowStepBase.Name b
  = Some (withProducers (recordSteps steps).1 (WorkflowStepBase.Inputs b)
                        (WorkflowStepBase.DependsOn b)).
Proof.
  intros Hnd Hb. unfold dependsOnMap, addInputEdges.
  rewrite (foldl_declarations (addStepInputs (recordSteps steps).1)).
  apply addStepInputs_same; [done | done |].
  unfold recordSteps. rewrite (foldl_declarations recordStep).
  by apply recordStep_dependsOn.
Qed.

Lemma dependsOnMap_keys (steps : list WorkflowStep.t) (n : string) :
  n ∉ (WorkflowStepBase.Name <$> declarations steps) →
  dependsOnMap steps !! n = None.
Proof.
  intros Hn. unfold dependsOnMap, addInputEdges.
  rewrite (foldl_declarations (addStepInputs (recordSteps steps).1)).
  rewrite addStepInputs_other by done.
  unfold recordSteps. rewrite (foldl_declarations recordStep).
  by rewrite recordStep_dependsOn_other.
Qed.

(** C4. In DAG mode, for steps and substeps with names of their own: the map
    [dependsOn] has, for each of them, its [DependsOn] and the producers of
    its inputs, the producer of an input being the step or substep recorded
    in [stepOutputs] for the name in [From], one that declares an output of
    that name, and the one that does when only one does; and, when no step
    depends on itself, [getStepDependency] returns a list whose elements are
    the steps that list [stepName] in their [dependsOn], directly or through
    other steps. *)
Theorem getStepDependency_dag
    (rangeMap : gmap string (list string) → list (string * list string))
    (fuel : nat) (steps : list WorkflowStep.t) (stepName : string) :
  (∀ m, rangeMap m ≡ₚ map_to_list m) →
  NoDup (WorkflowStepBase.Name <$> declarations steps) →
  acyclic (dependsOnMap steps) →
  size (dependsOnMap steps) < fuel →
  (∀ b, b ∈ declarations steps →
     ∃ deps, dependsOnMap steps !! WorkflowStepBase.Name b = Some deps
       ∧ ∀ d, d ∈ deps ↔
              d ∈ WorkflowStepBase.DependsOn b
              ∨ ∃ input, input ∈ WorkflowStepBase.Inputs b
                         ∧ stepOutputs steps !! From input = Some d)
  ∧ (∀ n, n ∉ (WorkflowStepBase.Name <$> declarations steps) →
          dependsOnMap steps !! n = None)
  ∧ (∀ x p, stepOutputs steps !! x = Some p →
       ∃ b, b ∈ declarations steps ∧ WorkflowStepBase.Name b = p
            ∧ x ∈ (OutputName <$> WorkflowStepBase.Outputs b))
  ∧ (∀ b x, b ∈ declarations steps →
       x ∈ (OutputName <$> WorkflowStepBase.Outputs b) →
       (∀ b', b' ∈ declarations steps →
              x ∈ (OutputName <$> WorkflowStepBase.Outputs b') →
              WorkflowStepBase.Name b' = WorkflowStepBase.Name b) →
       stepOutputs steps !! x = Some (WorkflowStepBase.Name b))
  ∧ ∃ r, getStepDependency rangeMap fuel steps stepName true = Some r
         ∧ ∀ x, x ∈ r ↔ dependent (dependsOnMap steps) stepName x.
Proof.
  intros Hperm Hnd Hacyclic Hfuel.
  assert (Hsound : ∀ x p, stepOutputs steps !! x = Some p →
       ∃ b, b ∈ declarations steps ∧ WorkflowStepBase.Name b = p
            ∧ x ∈ (OutputName <$> WorkflowStepBase.Outputs b)).
  { intros x p. unfold stepOutputs, recordSteps. rewrite (foldl_declarations recordStep).
    intros Hx. apply recordStep_outputs_sound in Hx as [Hx|Hx]; [|done].
    simpl in Hx. by rewrite lookup_empty in Hx. }
  split; [|split; [|split; [exact Hsound|split]]].
  - intros b Hb. eexists. split; [by apply dependsOnMap_lookup|].
    intros d. apply withProducers_elem.
  - intros n. apply dependsOnMap_keys.
  - intros b x Hb Hx Hunique.
    destruct (recordStep_outputs_complete (declarations steps) (∅, ∅) x) as [p Hp].
    { right. by exists b. }
    rewrite <- (foldl_declarations recordStep) in Hp. fold (recordSteps steps) in Hp.
    fold (stepOutputs steps) in Hp. rewrite Hp.
    destruct (Hsound x p Hp) as (b' & Hb' & <- & Hx'). f_equal. by apply Hunique.
  - unfold getStepDependency. simpl.
    destruct (findDependency_terminates rangeMap Hperm (dependsOnMap steps) fuel stepName)
      as [r Hr]; [done | done |].
    exists r. split; [done|]. by apply (findDependency_elem rangeMap Hperm _ fuel).
Qed.

Lemma getStepDependency_dag_witness :
  ∃ r, getStepDependency keyOrder 4 exampleDag "a" true = Some r
       ∧ ∀ x, x ∈ r ↔ dependent (dependsOnMap exampleDag) "a" x.
Proof.
  apply (getStepDependency_dag keyOrder 4 exampleDag "a").
  - apply keyOrder_entries.
  - by apply (bool_decide_unpack _).
  - apply acyclicb_sound. vm_compute. reflexivity.
  - vm_compute. lia.
Defined.

(** C4, as stated, fails when a step and a substep have the same name: the
    two maps are keyed by name, and the entry of the declaration that comes
    later replaces the one before. The step [x] names [a] in its
    [DependsOn], the substep [x] of [g] names nothing; the map has the empty
    list for [x], which is not the [DependsOn] of the step [x], and no
    dependent of [a] is returned. *)
Lemma getStepDependency_dag_same_name :
  let x := exampleStep "x" ["a"] [] [] in
  x ∈ declarations sameNameDag
  ∧ "a" ∈ WorkflowStepBase.DependsOn x
  ∧ dependsOnMap sameNameDag !! WorkflowStepBase.Name x = Some []
  ∧ getStepDependency keyOrder 5 sameNameDag "a" true = Some []
  ∧ ¬ (∀ b, b ∈ declarations sameNameDag →
         ∃ deps, dependsOnMap sameNameDag !! WorkflowStepBase.Name b = Some deps
           ∧ ∀ d, d ∈ deps ↔
                  d ∈ WorkflowStepBase.DependsOn b
                  ∨ ∃ input, input ∈ WorkflowStepBase.Inputs b
                             ∧ stepOutputs sameNameDag !! From input = Some d).
Proof.
  intros x.
  assert (Hx : x ∈ declarations sameNameDag) by (right; left).
  assert (Hmap : dependsOnMap sameNameDag !! WorkflowStepBase.Name x = Some [])
    by (vm_compute; reflexivity).
  split; [done|]. split; [left|]. split; [done|]. split; [vm_compute; reflexivity|].
  intros Hall. destruct (Hall x Hx) as (deps & Hdeps & Helem).
  rewrite Hmap in Hdeps. injection Hdeps as <-.
  assert (Ha : "a" ∈ @nil string) by (apply Helem; left; left).
  inversion Ha.
Qed.

(** The dependents of [a] in the example, computed. *)
Example getStepDependency_dag_example :
  getStepDependency keyOrder 4 exampleDag "a" true = Some ["b"; "c"]
  ∧ dependsOnMap exampleDag = {[ "a" := []; "b" := ["a"]; "c" := ["b"] ]}.
Proof. split; [vm_compute; reflexivity | by apply (bool_decide_unpack _)]. Qed.

(** ** Restart from a step *)

(** A loop that appends the elements it keeps is a filter. *)
Lemma foldl_keep {A : Type} (f : list A → A → list A) (p : A → bool) :
  (∀ acc x, f acc x = if p x then acc ++ [x] else acc) →
  ∀ l acc, foldl f acc l = acc ++ List.filter p l.
Proof.
  intros Hf. induction l as [|x l IH]; intros acc; simpl.
  - by rewrite app_nil_r.
  - rewrite IH, Hf. destruct (p x); [by rewrite <- app_assoc | done].
Qed.

Lemma filter_bool_sublist {A : Type} (p : A → bool) (l : list A) :
  sublist (List.filter p l) l.
Proof.
  induction l as [|x l IH]; simpl; [constructor|].
  destruct (p x); by constructor.
Qed.

Lemma filter_bool_elem {A : Type} (p : A → bool) (l : list A) (x : A) :
  x ∈ List.filter p l ↔ x ∈ l ∧ p x = true.
Proof. rewrite !list_elem_of_In. apply filter_In. Qed.

Lemma deleteStepStatus_filter (dependency : list string) (steps : list WorkflowStepStatus.t)
    (stepName : string) (group : bool) :
  deleteStepStatus dependency steps stepName group
  = List.filter (fun step =>
                   negb (stringsContain dependency (WorkflowStepStatus.Name step))
                   && (group || bool_decide (WorkflowStepStatus.Name step ≠ stepName)))
                steps.
Proof.
  unfold deleteStepStatus.
  rewrite (foldl_keep _
             (fun step =>
                negb (stringsContain dependency (WorkflowStepStatus.Name step))
                && (group || bool_decide (WorkflowStepStatus.Name step ≠ stepName))));
    [done|].
  intros acc x.
  destruct group, (stringsContain dependency (WorkflowStepStatus.Name x)),
    (bool_decide (WorkflowStepStatus.Name x ≠ stepName)); done.
Qed.

Lemma deleteStepStatus_elem (dependency : list string) (steps : list WorkflowStepStatus.t)
    (stepName : string) (group : bool) (e : WorkflowStepStatus.t) :
  e ∈ deleteStepStatus dependency steps stepName group ↔
  e ∈ steps ∧ (WorkflowStepStatus.Name e ∉ dependency)
  ∧ (group = false → WorkflowStepStatus.Name e ≠ stepName).
Proof.
  rewrite deleteStepStatus_filter, filter_bool_elem, andb_true_iff, negb_true_iff,
    stringsContain_false, orb_true_iff, bool_decide_eq_true.
  destruct group; intuition congruence.
Qed.

Lemma deleteSubStepStatus_filter (dependency : list string) (subSteps : list StepStatus.t)
    (stepName : string) :
  deleteSubStepStatus dependency subSteps stepName
  = List.filter (fun step =>
                   negb (stringsContain dependency (StepStatus.Name step))
                   && bool_decide (StepStatus.Name step ≠ stepName))
                subSteps.
Proof.
  unfold deleteSubStepStatus. by rewrite (foldl_keep _ _ (fun _ _ => eq_refl) subSteps []).
Qed.

Lemma deleteSubStepStatus_elem (dependency : list string) (subSteps : list StepStatus.t)
    (stepName : string) (e : StepStatus.t) :
  e ∈ deleteSubStepStatus dependency subSteps stepName ↔
  e ∈ subSteps ∧ (StepStatus.Name e ∉ dependency) ∧ StepStatus.Name e ≠ stepName.
Proof.
  rewrite deleteSubStepStatus_filter, filter_bool_elem, andb_true_iff, negb_true_iff,
    stringsContain_false, bool_decide_eq_true. tauto.
Qed.

Lemma setRunSteps_twice (l k : list WorkflowStepStatus.t) (r : WorkflowRun.t) :
  setRunSteps l (setRunSteps k r) = setRunSteps l r.
Proof. reflexivity. Qed.

Lemma GetConfigMap_stores (key : ObjectKey) (c c' : Cluster) (res : error + ConfigMap) :
  GetConfigMap key c = (res, c') → runs c' = runs c ∧ configMaps c' = configMaps c.
Proof.
  unfold GetConfigMap. destruct (next_fault c) as [[e|] c1] eqn:Hf;
    apply next_fault_stores in Hf as (Hcm & _ & Hr).
  - by intros [= <- <-].
  - destruct (configMaps c1 !! key); by intros [= <- <-].
Qed.

Lemma UpdateConfigMap_runs (cm : ConfigMap) (c c' : Cluster) (err : option error) :
  UpdateConfigMap cm c = (err, c') → runs c' = runs c.
Proof.
  unfold UpdateConfigMap. destruct (next_fault c) as [[e|] c1] eqn:Hf;
    apply next_fault_stores in Hf as (_ & _ & Hr).
  - by intros [= <- <-].
  - destruct (configMaps c1 !! _); by intros [= <- <-].
Qed.

Lemma retryOnConflict_runs (n : nat) (fn : Cluster → option error * Cluster) :
  (∀ c c' err, fn c = (err, c') → runs c' = runs c) →
  ∀ c c' err, retryOnConflict n fn c = (err, c') → runs c' = runs c.
Proof.
  intros Hfn. induction n as [|n IH]; intros c c' err; simpl.
  - by intros [= <- <-].
  - destruct (fn c) as [[e|] c1] eqn:Hc; apply Hfn in Hc.
    + destruct (IsConflict e).
      * destruct n as [|n']; [by intros [= <- <-]|].
        intros H. apply IH in H. congruence.
      * by intros [= <- <-].
    + by intros [= <- <-].
Qed.

Lemma restartContext_runs (NewValue : string → error + Node)
    (formatNode : Node → error + string) (c c' : Cluster) (r : WorkflowRun.t)
    (steps : list WorkflowStep.t) (stepName : string) (dependency : list string)
    (out : Outcome) :
  restartContext NewValue formatNode c r steps stepName dependency = (out, c') →
  runs c' = runs c.
Proof.
  unfold restartContext.
  destruct (WorkflowRunStatus.ContextBackend _) as [name|]; [|by intros [= <- <-]].
  destruct (GetConfigMap _ c) as [[e|cm] c1] eqn:Hget;
    apply GetConfigMap_stores in Hget as [Hr _]; [by intros [= <- <-]|].
  destruct (NewValue _) as [e|v]; [by intros [= <- <-]|].
  destruct (clearContextVars _ _ _ _ _) as [e|s]; [by intros [= <- <-]|].
  destruct (Data cm) as [data|]; [|by intros [= <- <-]].
  destruct (RetryOnConflict _ c1) as [err c2] eqn:Hup.
  apply (retryOnConflict_runs _ _ (UpdateConfigMap_runs _)) in Hup.
  intros [= <- <-]. congruence.
Qed.

Section RestartLoop.

Variable rangeMap : gmap string (list string) → list (string * list string).
Variable fuel : nat.
Variable steps : list WorkflowStep.t.
Variable stepName : string.
Variable mode : WorkflowExecuteMode.

Lemma restartSubLoop_skip (i : nat) (step : WorkflowStepStatus.t)
    (spre rest : list StepStatus.t) (st : restartState) :
  stepName ∉ (StepStatus.Name <$> spre) →
  restartSubLoop rangeMap fuel steps stepName mode i step (spre ++ rest) st
  = restartSubLoop rangeMap fuel steps stepName mode i step rest st.
Proof.
  induction spre as [|sub spre IH]; simpl; [done|].
  rewrite not_elem_of_cons. intros [Hne Hrest].
  rewrite decide_False by congruence. auto.
Qed.

Lemma restartLoop_skip (idxs1 idxs2 : list nat) (st : restartState) :
  unnamedAt stepName idxs1 st →
  restartLoop rangeMap fuel steps stepName mode (idxs1 ++ idxs2) st
  = restartLoop rangeMap fuel steps stepName mode idxs2 st.
Proof.
  induction idxs1 as [|i rest IH]; simpl; intros Hun; [done|].
  assert (Hrest : unnamedAt stepName rest st).
  { intros j s Hj. apply Hun. by right. }
  destruct (stepStatus st !! i) as [step|] eqn:Hi; [|auto].
  destruct (Hun i step) as [Hne Hsubs]; [left | done |].
  rewrite decide_False by done.
  rewrite restartSubLoop_unnamed by done. auto.
Qed.

Lemma unnamedAt_prefix (pre rest : list WorkflowStepStatus.t) (st : restartState) :
  stepStatus st = pre ++ rest → unnamed stepName pre →
  unnamedAt stepName (seq 0 (length pre)) st.
Proof.
  intros Hst Hpre i step Hi Hlook.
  unfold unnamed in Hpre. rewrite Forall_forall in Hpre. apply Hpre.
  apply elem_of_seq in Hi. rewrite Hst, lookup_app_l in Hlook by lia.
  apply list_elem_of_lookup. eauto.
Qed.


Lemma seq_split (a b : nat) : seq 0 (a + S b) = seq 0 a ++ a :: seq (S a) b.
Proof. by rewrite seq_app. Qed.

(** The loop, when the first status of the name is the one of a step that
    failed: the statuses of that name and of its dependents are deleted. *)
Lemma restartLoop_failed_step (st : restartState) (pre post : list WorkflowStepStatus.t)
    (s : WorkflowStepStatus.t) (dep : list string) :
  stepStatus st = pre ++ s :: post →
  unnamed stepName pre →
  WorkflowStepStatus.Name s = stepName →
  WorkflowStepStatus.Phase s = WorkflowStepPhaseFailed →
  getStepDependency rangeMap fuel steps stepName
    (bool_decide (ModeSteps mode = WorkflowModeDAG)) = Some dep →
  restartLoop rangeMap fuel steps stepName mode (seq 0 (length (stepStatus st))) st
  = Break (mkRestart
             (setRunSteps (deleteStepStatus dep (stepStatus st) stepName false) (rsRun st))
             (stepStatus st) false true dep).
Proof.
  intros Hst Hpre Hname Hphase Hdep.
  rewrite Hst at 1. rewrite length_app. simpl length. rewrite seq_split.
  rewrite restartLoop_skip by (by eapply unnamedAt_prefix).
  simpl. rewrite Hst at 1. rewrite list_lookup_middle by done.
  rewrite decide_True by done. rewrite decide_False by (intros H; by apply H).
  by rewrite Hdep.
Qed.

End RestartLoop.

Lemma alter_middle {A : Type} (f : A → A) (pre post : list A) (x : A) :
  alter f (length pre) (pre ++ x :: post) = pre ++ f x :: post.
Proof. induction pre as [|y pre IH]; simpl; [done | by f_equal]. Qed.

Lemma writeRunStep_aliased (f : WorkflowStepStatus.t → WorkflowStepStatus.t) (i : nat)
    (st : restartState) :
  aliased st = true → runSteps st = stepStatus st → i < length (stepStatus st) →
  writeRunStep f i st
  = Some (mkRestart (setRunSteps (alter f i (stepStatus st)) (rsRun st))
                    (alter f i (stepStatus st)) true (found st) (dependency st)).
Proof.
  intros Halias Hrun Hi. unfold writeRunStep.
  rewrite Hrun, decide_True by done. by rewrite Halias.
Qed.

Section RestartLoopSub.

Variable rangeMap : gmap string (list string) → list (string * list string).
Variable fuel : nat.
Variable steps : list WorkflowStep.t.
Variable stepName : string.
Variable mode : WorkflowExecuteMode.


End RestartLoopSub.

Lemma cleared_status_cleared (status : WorkflowRunStatus.t) :
  restartCleared status (clearedStatus status).
Proof.
  unfold clearedStatus.
  destruct (bool_decide _) eqn:He; unfold restartCleared; simpl; repeat split.
  apply bool_decide_eq_false in He. simpl in He. by apply dec_stable in He.
Qed.



(** What is left of [RestartFromStep] after its loop: the status is written
    and the variables are cleared; the run in memory stays as the loop left
    it, and when nil is returned the stored status is the one of the run. *)
Lemma RestartFromStep_after_loop (NewValue : string → error + Node)
    (formatNode : Node → error + string) (c : Cluster) (r : WorkflowRun.t)
    (steps : list WorkflowStep.t) (stepName : string) (dependency : list string) :
  ∃ out c',
    match RetryOnConflict (StatusUpdate r) c with
    | (Some err, cli) => (Returned (Some err), cli, r)
    | (None, cli) =>
        let '(out, cli) := restartContext NewValue formatNode cli r steps stepName dependency in
        (out, cli, r)
    end = (out, c', r)
    ∧ out ≠ Diverged
    ∧ (out = Returned None → runs c' !! runKey r = Some (WorkflowRun.Status r)).
Proof.
  destruct (RetryOnConflict (StatusUpdate r) c) as [[err|] c1] eqn:Hw.
  - eexists _, _. split; [reflexivity|]. split; [done|]. intros [=].
  - apply retryOnConflict_writeStatus_ok in Hw as [Hw _].
    destruct (restartContext _ _ c1 r steps stepName dependency) as [out c2] eqn:Hctx.
    exists out, c2. split; [done|]. split.
    + unfold restartContext in Hctx.
      destruct (WorkflowRunStatus.ContextBackend _); [|by injection Hctx as <- <-].
      destruct (GetConfigMap _ c1) as [[e|cm] c3]; [by injection Hctx as <- <-|].
      destruct (NewValue _); [by injection Hctx as <- <-|].
      destruct (clearContextVars _ _ _ _ _); [by injection Hctx as <- <-|].
      destruct (Data cm); [|by injection Hctx as <- <-].
      destruct (RetryOnConflict _ c3). by injection Hctx as <- <-.
    + intros _. apply restartContext_runs in Hctx. by rewrite Hctx.
Qed.

Section RestartFrom.

Variable rangeMap : gmap string (list string) → list (string * list string).
Variable NewValue : string → error + Node.
Variable formatNode : Node → error + string.
Variable fuel : nat.

Lemma restartFrom_failed_step (c : Cluster) (r : WorkflowRun.t) (steps : list WorkflowStep.t)
    (stepName : string) (pre post : list WorkflowStepStatus.t) (s : WorkflowStepStatus.t)
    (dep : list string) :
  WorkflowRunStatus.Steps (WorkflowRun.Status r) = pre ++ s :: post →
  unnamed stepName pre →
  WorkflowStepStatus.Name s = stepName →
  WorkflowStepStatus.Phase s = WorkflowStepPhaseFailed →
  getStepDependency rangeMap fuel steps stepName
    (bool_decide (ModeSteps (WorkflowRunStatus.Mode (WorkflowRun.Status r)) = WorkflowModeDAG))
  = Some dep →
  ∃ out c',
    restartFrom rangeMap NewValue formatNode fuel c r steps stepName
    = (out, c',
       setRunSteps (deleteStepStatus dep (WorkflowRunStatus.Steps (WorkflowRun.Status r))
                      stepName false) r)
    ∧ out ≠ Diverged
    ∧ (out = Returned None →
       runs c' !! runKey r
       = Some (WorkflowRunStatus.with_Steps
                 (deleteStepStatus dep (WorkflowRunStatus.Steps (WorkflowRun.Status r))
                    stepName false)
                 (WorkflowRun.Status r))).
Proof.
  intros Hst Hpre Hs Hphase Hdep. unfold restartFrom.
  set (st := mkRestart r _ true false []).
  rewrite (restartLoop_failed_step rangeMap fuel steps stepName _ st pre post s dep);
    try done.
  simpl.
  destruct (RestartFromStep_after_loop NewValue formatNode c
              (setRunSteps (deleteStepStatus dep (WorkflowRunStatus.Steps (WorkflowRun.Status r))
                              stepName false) r)
              steps stepName dep) as (out & c' & Heq & Hout & Hstored).
  exists out, c'. split; [exact Heq|]. split; [done|]. exact Hstored.
Qed.


End RestartFrom.

(** *** The dependents that are found are the downstream ones *)
















(** Scenario 5, computed: [a] and [b] are kept, [c] and [d] are deleted, and
    the marks of the end of the run are cleared, in memory and as stored. *)
Example RestartFromStep_scenario5 :
  let restarted :=
    WorkflowRunStatus.mk false false false None
      [ WorkflowStepStatus.mk (exampleStatus "a" "apply" WorkflowStepPhaseSucceeded "") [];
        WorkflowStepStatus.mk (exampleStatus "b" "apply" WorkflowStepPhaseSucceeded "") [] ]
      None (mkMode WorkflowModeStep WorkflowModeStep) in
  RestartFromStep keyOrder exampleNewValue exampleFormat 0
    (exampleCluster scenario5Status) (exampleRun scenario5Steps scenario5Status) "c"
  = (Returned None, exampleCluster restarted, exampleRun scenario5Steps restarted).
Proof. vm_compute. reflexivity. Qed.

(** The group example, computed: the group runs again with the substep [x]
    only, and [d], which comes after the group, is deleted. *)
Example RestartFromStep_group :
  let restarted :=
    WorkflowRunStatus.mk false false false None
      [ WorkflowStepStatus.mk (exampleStatus "a" "apply" WorkflowStepPhaseSucceeded "") [];
        WorkflowStepStatus.mk (exampleStatus "g" "step-group" WorkflowStepPhaseRunning "")
          [ exampleStatus "x" "apply" WorkflowStepPhaseSucceeded "" ] ]
      None (mkMode WorkflowModeStep WorkflowModeStep) in
  RestartFromStep keyOrder exampleNewValue exampleFormat 0
    (exampleCluster groupStatus) (exampleRun groupSteps groupStatus) "y"
  = (Returned None, exampleCluster restarted, exampleRun groupSteps restarted).
Proof. vm_compute. reflexivity. Qed.

(** Scenario 5 with a durable context object: the variables [oc] and [od],
    the outputs of [c] and [d], are dropped from it. *)
Example RestartFromStep_clears_vars :
  let restarted :=
    WorkflowRunStatus.mk false false false (Some "workflow-run-context")
      [ WorkflowStepStatus.mk (exampleStatus "a" "apply" WorkflowStepPhaseSucceeded "") [];
        WorkflowStepStatus.mk (exampleStatus "b" "apply" WorkflowStepPhaseSucceeded "") [] ]
      None (mkMode WorkflowModeStep WorkflowModeStep) in
  RestartFromStep keyOrder exampleNewValue exampleFormat 0
    (scenario5Cluster "oa ob oc od" scenario5Context)
    (exampleRun scenario5Steps scenario5Context) "c"
  = (Returned None, scenario5Cluster "oa ob " restarted, exampleRun scenario5Steps restarted).
Proof. vm_compute. reflexivity. Qed.

(** A label in quotes is compared without them, and a declaration that is
    not a field is not kept. *)
Example clearContextVars_example :
  clearContextVars exampleFormat scenario5Steps
    (StructLit [ Field (Ident "oa") (OtherNode "1");
                 Field (BasicLit (String quote ("oc" +:+ String quote ""))) (OtherNode "2");
                 OtherDecl "...";
                 Field (Ident "od") (OtherNode "3");
                 Field (Ident "other") (OtherNode "4") ])
    "c" ["d"]
  = inr "oa other "
  ∧ clearContextVars exampleFormat scenario5Steps (OtherNode "1") "c" ["d"]
    = inl (Errorf "value is not a struct lit").
Proof. split; vm_compute; reflexivity. Qed.

(** A restart from a step that did not fail, from a substep that did not,
    and from a name with no status: each is refused, and nothing is stored. *)
Lemma invalid_requests_are_refused_witness :
  let wo := mkOperator (exampleCluster groupStatus) None (exampleRun groupSteps groupStatus) in
  (∃ cli' run',
     RestartFromStep keyOrder exampleNewValue exampleFormat 0 (cli wo) (run wo) "a"
     = (Returned (Some errNotFailed), cli', run') ∧ runs cli' = runs (cli wo))
  ∧ (∃ cli' run',
       RestartFromStep keyOrder exampleNewValue exampleFormat 0 (cli wo) (run wo) "x"
       = (Returned (Some errNotFailed), cli', run') ∧ runs cli' = runs (cli wo))
  ∧ (∃ cli' run',
       RestartFromStep keyOrder exampleNewValue exampleFormat 0 (cli wo) (run wo) "q"
       = (Returned (Some (Errorf "failed step q not found")), cli', run')
       ∧ runs cli' = runs (cli wo)).
Proof.
  intros wo. split; [|split].
  - destruct (proj1 (proj2 (invalid_requests_are_refused keyOrder exampleNewValue
                              exampleFormat 0 wo "a")) WorkflowStepPhaseSucceeded)
      as (e & cli' & run' & Heq & Hruns & _ & He).
    + left. eexists. split; [left|]. done.
    + intros [(ss & Hss & Hn & Hp)|(ss & sub & Hss & Hsub & Hn & Hp)].
      * repeat (apply elem_of_cons in Hss as [->|Hss]; [done|]). inversion Hss.
      * repeat (apply elem_of_cons in Hss as [->|Hss];
                  [repeat (apply elem_of_cons in Hsub as [->|Hsub]; [done|]);
                   inversion Hsub|]).
        inversion Hss.
    + exists cli', run'. rewrite Heq, He; [done | done | by eexists].
  - destruct (proj1 (proj2 (invalid_requests_are_refused keyOrder exampleNewValue
                              exampleFormat 0 wo "x")) WorkflowStepPhaseSucceeded)
      as (e & cli' & run' & Heq & Hruns & _ & He).
    + right. eexists _, _. split; [right; left|]. split; [left|]. done.
    + intros [(ss & Hss & Hn & Hp)|(ss & sub & Hss & Hsub & Hn & Hp)].
      * repeat (apply elem_of_cons in Hss as [->|Hss]; [done|]). inversion Hss.
      * repeat (apply elem_of_cons in Hss as [->|Hss];
                  [repeat (apply elem_of_cons in Hsub as [->|Hsub]; [done|]);
                   inversion Hsub|]).
        inversion Hss.
    + exists cli', run'. rewrite Heq, He; [done | done | by eexists].
  - destruct (proj2 (proj2 (invalid_requests_are_refused keyOrder exampleNewValue
                              exampleFormat 0 wo "q")))
      as (e & cli' & run' & Heq & Hruns & _ & He).
    + intros phase [(ss & Hss & Hn & Hp)|(ss & sub & Hss & Hsub & Hn & Hp)].
      * repeat (apply elem_of_cons in Hss as [->|Hss]; [done|]). inversion Hss.
      * repeat (apply elem_of_cons in Hss as [->|Hss];
                  [repeat (apply elem_of_cons in Hsub as [->|Hsub]; [done|]);
                   inversion Hsub|]).
        inversion Hss.
    + exists cli', run'. rewrite Heq, He; [done | done | by eexists].
Defined.

(** The identifiers of a run whose status records [a] and the substep [x] of
    [g]: both are generated again as recorded, whatever the random source;
    [q] has no record and gets ten random letters. *)
Example generated_ids :
  let r := mkRand (fun n => n) 0 in
  generateStepID groupStatus "a" r = ("id-a", r)
  ∧ generateSubStepID groupStatus "x" "g" r = ("id-x", r)
  ∧ generateStepID groupStatus "q" r = ("abcdefghij", mkRand (fun n => n) 10)
  ∧ (taskID <$> default []
       (sum_rect (fun _ => list recordedTask) (fun _ => []) (fun l => l)
          <$> (fst <$> Generate recordedTask recorder (exampleRun groupSteps groupStatus) r)))
    = ["id-a"; "id-g"; "id-d"].
Proof. repeat split. Qed.


(** * Further properties of the code *)

(** ** Slices of names and of statuses *)

Lemma mergeUniqueStringSlice_cons (a : list string) (x : string) (b : list string) :
  mergeUniqueStringSlice a (x :: b)
  = mergeUniqueStringSlice (if stringsContain a x then a else a ++ [x]) b.
Proof. reflexivity. Qed.

Lemma mergeUniqueStringSlice_added (a b : list string) :
  ∃ added, mergeUniqueStringSlice a b = a ++ added
           ∧ sublist added b ∧ NoDup added ∧ ∀ x, x ∈ added → x ∉ a.
Proof.
  revert a. induction b as [|x b IH]; intros a.
  - exists []. rewrite app_nil_r. repeat split; [constructor | constructor | inversion 1].
  - rewrite mergeUniqueStringSlice_cons.
    destruct (stringsContain a x) eqn:Hx.
    + destruct (IH a) as (added & -> & Hsub & Hnd & Hnew).
      exists added. repeat split; [by constructor | done | done].
    + apply stringsContain_false in Hx.
      destruct (IH (a ++ [x])) as (added & -> & Hsub & Hnd & Hnew).
      exists (x :: added). rewrite <- app_assoc. repeat split.
      * by constructor.
      * constructor; [|done]. intros Hin. apply (Hnew x Hin), elem_of_app. right. left.
      * intros y Hy. apply elem_of_cons in Hy as [->|Hy]; [done|].
        intros Hya. apply (Hnew y Hy), elem_of_app. by left.
Qed.

Lemma mergeUniqueStringSlice_elem (a b : list string) (x : string) :
  x ∈ mergeUniqueStringSlice a b ↔ x ∈ a ∨ x ∈ b.
Proof.
  revert a. induction b as [|y b IH]; intros a.
  - simpl. split; [by left|]. intros [H|H]; [done | inversion H].
  - rewrite mergeUniqueStringSlice_cons, IH, elem_of_cons.
    destruct (stringsContain a y) eqn:Hy.
    + apply stringsContain_true in Hy. split; [tauto|].
      intros [H|[->|H]]; tauto.
    + rewrite elem_of_app, list_elem_of_singleton. tauto.
Qed.

(** X1. [mergeUniqueStringSlice] returns [a] followed by the elements of [b]
    that are new, each once and in the order of [b]: its elements are the
    ones of [a] and of [b], and it has no duplicate when [a] has none. *)
Theorem mergeUniqueStringSlice_union (a b : list string) :
  (∃ added, mergeUniqueStringSlice a b = a ++ added
            ∧ sublist added b ∧ NoDup added ∧ ∀ x, x ∈ added → x ∉ a)
  ∧ (∀ x, x ∈ mergeUniqueStringSlice a b ↔ x ∈ a ∨ x ∈ b)
  ∧ (NoDup a → NoDup (mergeUniqueStringSlice a b)).
Proof.
  split; [apply mergeUniqueStringSlice_added|]. split.
  - apply mergeUniqueStringSlice_elem.
  - intros Hnd. destruct (mergeUniqueStringSlice_added a b) as (added & -> & _ & Hadd & Hnew).
    apply NoDup_app. split; [done|]. split; [|done].
    intros x Hx Hin. by apply (Hnew x Hin).
Qed.

Lemma filter_bool_twice {A : Type} (p : A → bool) (l : list A) :
  List.filter p (List.filter p l) = List.filter p l.
Proof.
  induction l as [|x l IH]; simpl; [done|].
  destruct (p x) eqn:Hp; simpl; [by rewrite Hp, IH | done].
Qed.

Lemma filter_bool_impl_sublist {A : Type} (p q : A → bool) (l : list A) :
  (∀ x, p x = true → q x = true) →
  sublist (List.filter p l) (List.filter q l).
Proof.
  intros Hpq. induction l as [|x l IH]; simpl; [constructor|].
  destruct (p x) eqn:Hp.
  - rewrite (Hpq x Hp). by constructor.
  - destruct (q x); [by constructor | done].
Qed.

Lemma filter_bool_all {A : Type} (p : A → bool) (l : list A) :
  List.filter p l = l ↔ Forall (fun x => p x = true) l.
Proof.
  induction l as [|x l IH]; simpl.
  - split; [constructor | done].
  - destruct (p x) eqn:Hp.
    + rewrite Forall_cons. split.
      * intros [= H]. split; [done | by apply IH].
      * intros [_ H]. f_equal. by apply IH.
    + split.
      * intros H. exfalso.
        pose proof (sublist_length _ _ (filter_bool_sublist p l)) as Hlen.
        rewrite H in Hlen. simpl in Hlen. lia.
      * intros H. apply Forall_cons in H as [H _]. congruence.
Qed.

(** X2. [deleteStepStatus] only takes statuses away: what it returns is what
    it was given minus some elements, in the same order. With [group] set the
    status called [stepName] is not deleted for its name, so that call keeps
    at least what the call without [group] keeps, and with no dependents it
    returns the statuses as they are. A second call changes nothing. *)
Theorem deleteStepStatus_only_deletes (dependency : list string)
    (steps : list WorkflowStepStatus.t) (stepName : string) (group : bool) :
  sublist (deleteStepStatus dependency steps stepName group) steps
  ∧ sublist (deleteStepStatus dependency steps stepName false)
            (deleteStepStatus dependency steps stepName true)
  ∧ deleteStepStatus [] steps stepName true = steps
  ∧ deleteStepStatus dependency (deleteStepStatus dependency steps stepName group)
                     stepName group
    = deleteStepStatus dependency steps stepName group.
Proof.
  rewrite !deleteStepStatus_filter. split; [apply filter_bool_sublist|]. split.
  - apply filter_bool_impl_sublist. intros x. rewrite !andb_true_iff. simpl. tauto.
  - split; [|apply filter_bool_twice].
    apply filter_bool_all, Forall_forall. by intros x _.
Qed.

(** X3. [deleteSubStepStatus] returns the substeps it was given without the
    ones called [stepName] and the ones in [dependency], in the same order:
    a substep is returned exactly when it was given, is not called
    [stepName] and is not in [dependency]. It returns them all exactly when
    there is none to delete, and a second call changes nothing. *)
Theorem deleteSubStepStatus_only_deletes (dependency : list string)
    (subSteps : list StepStatus.t) (stepName : string) :
  sublist (deleteSubStepStatus dependency subSteps stepName) subSteps
  ∧ (∀ sub, sub ∈ deleteSubStepStatus dependency subSteps stepName ↔
            sub ∈ subSteps
            ∧ StepStatus.Name sub ≠ stepName ∧ (StepStatus.Name sub ∉ dependency))
  ∧ deleteSubStepStatus dependency subSteps stepName
    = filter (fun sub => StepStatus.Name sub ≠ stepName ∧ (StepStatus.Name sub ∉ dependency))
             subSteps
  ∧ Forall (fun sub => StepStatus.Name sub ≠ stepName ∧ StepStatus.Name sub ∉ dependency)
           (deleteSubStepStatus dependency subSteps stepName)
  ∧ (deleteSubStepStatus dependency subSteps stepName = subSteps ↔
     Forall (fun sub => StepStatus.Name sub ≠ stepName ∧ StepStatus.Name sub ∉ dependency)
            subSteps)
  ∧ deleteSubStepStatus dependency (deleteSubStepStatus dependency subSteps stepName) stepName
    = deleteSubStepStatus dependency subSteps stepName.
Proof.
  split; [rewrite deleteSubStepStatus_filter; apply filter_bool_sublist|].
  split; [intros sub; rewrite deleteSubStepStatus_elem; tauto|]. split.
  { rewrite deleteSubStepStatus_filter.
    induction subSteps as [|sub rest IH]; [done|]. simpl. rewrite filter_cons, <- IH.
    destruct (stringsContain dependency (StepStatus.Name sub)) eqn:Hc; simpl.
    - apply stringsContain_true in Hc. rewrite decide_False; [done | tauto].
    - apply stringsContain_false in Hc.
      destruct (decide (StepStatus.Name sub = stepName)) as [Hn|Hn].
      + rewrite bool_decide_eq_false_2 by tauto. rewrite decide_False; [done | tauto].
      + rewrite bool_decide_eq_true_2 by done. by rewrite decide_True. }
  split.
  - apply Forall_forall. intros sub Hsub.
    apply deleteSubStepStatus_elem in Hsub. tauto.
  - split; [|rewrite !deleteSubStepStatus_filter; apply filter_bool_twice].
    rewrite deleteSubStepStatus_filter, filter_bool_all.
    apply Forall_iff. intros sub.
    rewrite andb_true_iff, negb_true_iff, stringsContain_false, bool_decide_eq_true. tauto.
Qed.

(** ** The dependents, whatever the order of the map *)

Lemma visitDeps_collected (stepName : string) (recur : string → option (list string))
    (sub : list string) (step : string) (acc deps : list string) :
  (stepName ∈ deps → recur step = Some sub) →
  visitDeps stepName recur step (Some acc) deps
  = Some (acc ++ (deps ≫= (fun dep => if decide (dep = stepName) then step :: sub else []))).
Proof.
  revert acc. induction deps as [|dep deps IH]; intros acc Hrec.
  - simpl. by rewrite app_nil_r.
  - rewrite visitDeps_cons, bind_cons.
    destruct (decide (dep = stepName)) as [->|Hne].
    + rewrite Hrec by left. rewrite IH by (intros H; apply Hrec; by right).
      by rewrite <- !app_assoc.
    + rewrite IH by (intros H; apply Hrec; by right). done.
Qed.

Lemma visitEntries_collected (stepName : string) (recur : string → option (list string))
    (sub : string → list string) (entries : list (string * list string)) (acc : list string) :
  (∀ step deps, (step, deps) ∈ entries → stepName ∈ deps → recur step = Some (sub step)) →
  visitEntries stepName recur (Some acc) entries
  = Some (acc ++ collected stepName sub entries).
Proof.
  revert acc. induction entries as [|[step deps] entries IH]; intros acc Hrec.
  - simpl. by rewrite app_nil_r.
  - rewrite visitEntries_cons. cbn [fst snd].
    rewrite (visitDeps_collected stepName recur (sub step)) by (apply Hrec; left).
    rewrite IH by (intros s d Hin; apply Hrec; by right).
    unfold collected. rewrite bind_cons. cbn [fst snd]. by rewrite <- app_assoc.
Qed.

Lemma sameResult_refl (r : option (list string)) : sameResult r r.
Proof. destruct r; simpl; done. Qed.

Lemma sameResult_sym (r1 r2 : option (list string)) : sameResult r1 r2 → sameResult r2 r1.
Proof. destruct r1, r2; simpl; try done; by intros ->. Qed.

Lemma sameResult_trans (r1 r2 r3 : option (list string)) :
  sameResult r1 r2 → sameResult r2 r3 → sameResult r1 r3.
Proof. destruct r1, r2, r3; simpl; try done; by intros -> ->. Qed.

(** The loops with the calls told apart return what the loops of
    [findDependency] return, when the calls do. *)
Lemma visitDepsAt_sameResult (stepName : string) (recur1 : nat → option (list string))
    (recur2 : string → option (list string)) (step : string) (i : nat)
    (acc1 acc2 : option (list string)) (deps : list string) :
  (∀ j, sameResult (recur1 j) (recur2 step)) →
  sameResult acc1 acc2 →
  sameResult (visitDepsAt stepName recur1 step i acc1 deps)
             (visitDeps stepName recur2 step acc2 deps).
Proof.
  intros Hrec. revert i acc1 acc2. induction deps as [|dep deps IH]; intros i acc1 acc2 Hacc.
  - done.
  - rewrite visitDeps_cons. simpl. apply IH.
    destruct (decide (dep = stepName)); [|done].
    specialize (Hrec i).
    destruct acc1 as [l1|], acc2 as [l2|], (recur1 i) as [s1|], (recur2 step) as [s2|];
      simpl in *; try done.
    by rewrite Hacc, Hrec.
Qed.

Lemma visitEntriesAt_sameResult (stepName : string)
    (recur1 : string → nat → option (list string)) (recur2 : string → option (list string))
    (acc1 acc2 : option (list string)) (entries : list (string * list string)) :
  (∀ step j, sameResult (recur1 step j) (recur2 step)) →
  sameResult acc1 acc2 →
  sameResult (visitEntriesAt stepName recur1 acc1 entries)
             (visitEntries stepName recur2 acc2 entries).
Proof.
  intros Hrec. revert acc1 acc2.
  induction entries as [|[step deps] entries IH]; intros acc1 acc2 Hacc; [done|].
  rewrite visitEntries_cons. simpl. apply IH.
  apply visitDepsAt_sameResult; [|done]. intros j. apply Hrec.
Qed.

(** The order of the entries does not matter to what the outer loop
    returns. *)
Lemma visitEntries_Permutation (stepName : string) (recur : string → option (list string))
    (acc : list string) (entries1 entries2 : list (string * list string)) :
  entries1 ≡ₚ entries2 →
  sameResult (visitEntries stepName recur (Some acc) entries1)
             (visitEntries stepName recur (Some acc) entries2).
Proof.
  intros Hperm.
  assert (Hsome : is_Some (visitEntries stepName recur (Some acc) entries1) ↔
                  is_Some (visitEntries stepName recur (Some acc) entries2)).
  { rewrite !visitEntries_is_Some.
    split; intros [H1 H2]; (split; [done|]); intros step deps Hin; apply H2.
    - by rewrite Hperm.
    - by rewrite <- Hperm. }
  destruct (visitEntries stepName recur (Some acc) entries1) as [r1|] eqn:H1;
    destruct (visitEntries stepName recur (Some acc) entries2) as [r2|] eqn:H2.
  - assert (Hrec : ∀ entries, is_Some (visitEntries stepName recur (Some acc) entries) →
              ∀ step deps, (step, deps) ∈ entries → stepName ∈ deps →
                           recur step = Some (default [] (recur step))).
    { intros entries [_ H]%visitEntries_is_Some step deps Hin Hs.
      by destruct (H step deps Hin Hs) as [sub ->]. }
    rewrite (visitEntries_collected stepName recur (fun step => default [] (recur step)))
      in H1 by (apply Hrec; by rewrite H1).
    rewrite (visitEntries_collected stepName recur (fun step => default [] (recur step)))
      in H2 by (apply Hrec; by rewrite H2).
    injection H1 as <-. injection H2 as <-. simpl. unfold collected. by rewrite Hperm.
  - destruct (proj1 Hsome) as [? [=]]. by eexists.
  - destruct (proj2 Hsome) as [? [=]]. by eexists.
  - done.
Qed.

(** Whatever order each call takes, it returns, if it does, the names that
    [findDependency] returns when every call takes the order of the keys,
    each as many times. *)
Lemma findDependencyAt_keyOrder
    (order : list (string * nat) → gmap string (list string) → list (string * list string))
    (dependsOn : gmap string (list string)) (fuel : nat) :
  (∀ path m, order path m ≡ₚ map_to_list m) →
  ∀ path stepName,
    sameResult (findDependencyAt order fuel path stepName dependsOn)
               (findDependency keyOrder fuel stepName dependsOn).
Proof.
  intros Horder. induction fuel as [|fuel IH]; intros path stepName; [done|].
  simpl. eapply sameResult_trans.
  - apply (visitEntriesAt_sameResult stepName _
             (fun step => findDependency keyOrder fuel step dependsOn));
      [|apply sameResult_refl].
    intros step j. apply IH.
  - apply visitEntries_Permutation. apply Horder.
Qed.

Lemma visitDepsAt_one_order (stepName : string) (recur1 : nat → option (list string))
    (recur2 : string → option (list string)) (step : string) (i : nat)
    (acc : option (list string)) (deps : list string) :
  (∀ j, recur1 j = recur2 step) →
  visitDepsAt stepName recur1 step i acc deps = visitDeps stepName recur2 step acc deps.
Proof.
  intros Hrec. revert i acc. induction deps as [|dep deps IH]; intros i acc; [done|].
  rewrite visitDeps_cons. simpl. by rewrite Hrec, IH.
Qed.

(** When every call takes the same order, this is [findDependency]. *)
Lemma findDependencyAt_one_order
    (rangeMap : gmap string (list string) → list (string * list string))
    (dependsOn : gmap string (list string)) (fuel : nat) :
  ∀ path stepName,
    findDependencyAt (fun _ => rangeMap) fuel path stepName dependsOn
    = findDependency rangeMap fuel stepName dependsOn.
Proof.
  induction fuel as [|fuel IH]; intros path stepName; [done|]. simpl.
  generalize (Some (@nil string)) as acc.
  induction (rangeMap dependsOn) as [|[step deps] entries IHe]; intros acc; [done|].
  rewrite visitEntries_cons. simpl. rewrite <- IHe. f_equal.
  apply visitDepsAt_one_order. intros j. apply IH.
Qed.

(** X4. Go leaves the order of a [range] over a map open, and
    [findDependency] ranges over [dependsOn] in every call, each time in an
    order of its own. Whether it returns does not depend on the orders
    taken, and the lists it returns under two choices of the orders are
    permutations of each other: the same names, each as many times. When
    every call takes the same order, what is returned is what
    [findDependency] with that order returns. *)
Theorem findDependency_any_order
    (order1 order2 : list (string * nat) → gmap string (list string)
                     → list (string * list string))
    (dependsOn : gmap string (list string)) (fuel : nat) (stepName : string)
    (path1 path2 : list (string * nat)) :
  (∀ path m, order1 path m ≡ₚ map_to_list m) →
  (∀ path m, order2 path m ≡ₚ map_to_list m) →
  (is_Some (findDependencyAt order1 fuel path1 stepName dependsOn) ↔
   is_Some (findDependencyAt order2 fuel path2 stepName dependsOn))
  ∧ (∀ r1 r2,
       findDependencyAt order1 fuel path1 stepName dependsOn = Some r1 →
       findDependencyAt order2 fuel path2 stepName dependsOn = Some r2 →
       r1 ≡ₚ r2)
  ∧ (∀ rangeMap,
       findDependencyAt (fun _ => rangeMap) fuel path1 stepName dependsOn
       = findDependency rangeMap fuel stepName dependsOn).
Proof.
  intros H1 H2.
  assert (Hsame : sameResult (findDependencyAt order1 fuel path1 stepName dependsOn)
                             (findDependencyAt order2 fuel path2 stepName dependsOn)).
  { eapply sameResult_trans; [by apply findDependencyAt_keyOrder|].
    apply sameResult_sym. by apply findDependencyAt_keyOrder. }
  split; [|split].
  - destruct (findDependencyAt order1 _ _ _ _), (findDependencyAt order2 _ _ _ _);
      simpl in Hsame; try done; split; intros [? [=]].
  - intros r1 r2 Hr1 Hr2. by rewrite Hr1, Hr2 in Hsame.
  - intros rangeMap. apply findDependencyAt_one_order.
Qed.

Lemma findDependency_any_order_witness :
  (is_Some (findDependencyAt (fun _ => keyOrder) 4 [] "a" (dependsOnMap exampleDag)) ↔
   is_Some (findDependencyAt zigzagOrder 4 [] "a" (dependsOnMap exampleDag)))
  ∧ (∀ r1 r2,
       findDependencyAt (fun _ => keyOrder) 4 [] "a" (dependsOnMap exampleDag) = Some r1 →
       findDependencyAt zigzagOrder 4 [] "a" (dependsOnMap exampleDag) = Some r2 →
       r1 ≡ₚ r2)
  ∧ (∀ rangeMap,
       findDependencyAt (fun _ => rangeMap) 4 [] "a" (dependsOnMap exampleDag)
       = findDependency rangeMap 4 "a" (dependsOnMap exampleDag)).
Proof.
  apply (findDependency_any_order (fun _ => keyOrder) zigzagOrder).
  - intros path m. apply keyOrder_entries.
  - intros path m. unfold zigzagOrder. destruct (Nat.even _); [done|].
    apply reverse_Permutation.
Defined.

Lemma visitEntries_unlisted (stepName : string) (recur : string → option (list string))
    (acc : option (list string)) (entries : list (string * list string)) :
  (∀ step deps, (step, deps) ∈ entries → stepName ∉ deps) →
  visitEntries stepName recur acc entries = acc.
Proof.
  revert acc. induction entries as [|[step deps] entries IH]; intros acc Hun; [done|].
  rewrite visitEntries_cons. cbn [fst snd].
  rewrite IH by (intros s d Hin; apply (Hun s d); by right).
  assert (Hdeps : stepName ∉ deps) by (apply (Hun step deps); left).
  clear -Hdeps. revert acc. induction deps as [|dep deps IHd]; intros acc; [done|].
  rewrite visitDeps_cons. apply not_elem_of_cons in Hdeps as [Hne Hdeps].
  rewrite decide_False by done. by apply IHd.
Qed.

(** X5. [findDependency] returns keys of [dependsOn] only, and for a name
    that no entry lists, a name that is no key of the map too, it returns
    the empty list at once, whatever the rest of the map, cycles included. *)
Theorem findDependency_keys_and_unlisted
    (rangeMap : gmap string (list string) → list (string * list string))
    (dependsOn : gmap string (list string)) (fuel : nat) (stepName : string) :
  (∀ m, rangeMap m ≡ₚ map_to_list m) →
  (∀ r, findDependency rangeMap fuel stepName dependsOn = Some r →
        ∀ x, x ∈ r → is_Some (dependsOn !! x))
  ∧ ((∀ step deps, dependsOn !! step = Some deps → stepName ∉ deps) →
     findDependency rangeMap (S fuel) stepName dependsOn = Some []).
Proof.
  intros Hperm. split.
  - intros r Hr x Hx. apply (dependent_key dependsOn stepName).
    by apply (findDependency_elem rangeMap Hperm dependsOn fuel stepName r).
  - intros Hun. simpl. apply visitEntries_unlisted.
    intros step deps Hin. apply (Hun step deps).
    by apply (elem_of_rangeMap rangeMap Hperm).
Qed.

Lemma findDependency_keys_and_unlisted_witness :
  (∀ r, findDependency keyOrder 4 "a" (dependsOnMap exampleDag) = Some r →
        ∀ x, x ∈ r → is_Some (dependsOnMap exampleDag !! x))
  ∧ findDependency keyOrder 1 "c" {[ "a" := ["a"]; "c" := ["a"] ]} = Some []
  ∧ findDependency keyOrder 1 "nobody" {[ "a" := ["a"]; "c" := ["a"] ]} = Some [].
Proof.
  split; [|split].
  - apply (findDependency_keys_and_unlisted keyOrder _ 4 "a" keyOrder_entries).
  - apply (findDependency_keys_and_unlisted keyOrder _ 0 "c" keyOrder_entries).
    intros step deps Hl.
    apply lookup_insert_Some in Hl as [[_ <-]|[_ Hl]]; [by apply (bool_decide_unpack _)|].
    apply lookup_singleton_Some in Hl as [_ <-]. by apply (bool_decide_unpack _).
  - apply (findDependency_keys_and_unlisted keyOrder _ 0 "nobody" keyOrder_entries).
    intros step deps Hl.
    apply lookup_insert_Some in Hl as [[_ <-]|[_ Hl]]; [by apply (bool_decide_unpack _)|].
    apply lookup_singleton_Some in Hl as [_ <-]. by apply (bool_decide_unpack _).
Defined.

(** ** The maps of the DAG mode, with any names *)

(** X6. When several steps or substeps declare an output of the same name,
    [stepOutputs] records the last one in the order of the declarations; a
    name that none declares has no entry. *)
Theorem stepOutputs_last_declaration (steps : list WorkflowStep.t) (x : string) :
  (∀ pre b post,
     declarations steps = pre ++ b :: post →
     x ∈ (OutputName <$> WorkflowStepBase.Outputs b) →
     (∀ b', b' ∈ post → x ∉ (OutputName <$> WorkflowStepBase.Outputs b')) →
     stepOutputs steps !! x = Some (WorkflowStepBase.Name b))
  ∧ ((∀ b, b ∈ declarations steps → x ∉ (OutputName <$> WorkflowStepBase.Outputs b)) →
     stepOutputs steps !! x = None).
Proof.
  unfold stepOutputs, recordSteps. rewrite (foldl_declarations recordStep). split.
  - intros pre b post -> Hb Hpost. rewrite foldl_app. simpl.
    rewrite recordStep_outputs_other by done. simpl.
    rewrite recordOutputs_lookup. by rewrite decide_True.
  - intros Hnone. by rewrite recordStep_outputs_other.
Qed.

Lemma stepOutputs_last_declaration_witness :
  let twice := [ WorkflowStep.mk (exampleStep "a" [] [] ["x"]) [exampleStep "s" [] [] ["x"]];
                 WorkflowStep.mk (exampleStep "b" [] [] ["y"]) [] ] in
  stepOutputs twice !! "x" = Some "s" ∧ stepOutputs twice !! "z" = None.
Proof.
  intros twice. split.
  - apply (proj1 (stepOutputs_last_declaration twice "x")
             [exampleStep "a" [] [] ["x"]] (exampleStep "s" [] [] ["x"])
             [exampleStep "b" [] [] ["y"]]); [reflexivity | by apply (bool_decide_unpack _) |].
    intros b' Hb'. apply list_elem_of_singleton in Hb' as ->. by apply (bool_decide_unpack _).
  - apply (proj2 (stepOutputs_last_declaration twice "z")).
    intros b Hb. repeat (apply elem_of_cons in Hb as [->|Hb]; [by apply (bool_decide_unpack _)|]).
    inversion Hb.
Defined.

Lemma recordStep_keys (bs : list WorkflowStepBase.t)
    (a : gmap string string * gmap string (list string)) (n : string) :
  is_Some ((foldl recordStep a bs).2 !! n) ↔
  is_Some (a.2 !! n) ∨ n ∈ (WorkflowStepBase.Name <$> bs).
Proof.
  revert a. induction bs as [|b bs IH]; intros a.
  - simpl. split; [by left|]. intros [H|H]; [done | inversion H].
  - simpl foldl. rewrite IH, fmap_cons, elem_of_cons. simpl.
    destruct (decide (n = WorkflowStepBase.Name b)) as [->|Hne].
    + rewrite lookup_insert_eq. split; [intros _; right; by left | intros _; left; eauto].
    + rewrite lookup_insert_ne by done. tauto.
Qed.

Lemma recordStep_values (bs : list WorkflowStepBase.t)
    (a : gmap string string * gmap string (list string)) (n : string) (deps : list string) :
  (foldl recordStep a bs).2 !! n = Some deps →
  a.2 !! n = Some deps
  ∨ ∃ b, b ∈ bs ∧ WorkflowStepBase.Name b = n ∧ deps = WorkflowStepBase.DependsOn b.
Proof.
  revert a. induction bs as [|b bs IH]; intros a; [by left|].
  simpl foldl. intros H. apply IH in H as [H|(b' & Hb' & Hn & Hd)].
  - simpl in H. destruct (decide (n = WorkflowStepBase.Name b)) as [->|Hne].
    + rewrite lookup_insert_eq in H. injection H as <-.
      right. exists b. split; [left | done].
    + rewrite lookup_insert_ne in H by done. by left.
  - right. exists b'. split; [by right | done].
Qed.

Lemma addInputs_default (stepOutputs : gmap string string) (name : string)
    (inputs : list inputItem) (dependsOn : gmap string (list string)) :
  default [] (addInputs stepOutputs name inputs dependsOn !! name)
  = withProducers stepOutputs inputs (default [] (dependsOn !! name))
  ∧ (is_Some (dependsOn !! name) →
     is_Some (addInputs stepOutputs name inputs dependsOn !! name)).
Proof.
  unfold addInputs, withProducers. revert dependsOn.
  induction inputs as [|i inputs IH]; intros dependsOn; [done|].
  simpl. destruct (stepOutputs !! From i) as [p|]; [|apply IH].
  destruct (stringsContain (default [] (dependsOn !! name)) p); [apply IH|].
  destruct (IH (<[name := default [] (dependsOn !! name) ++ [p]]> dependsOn)) as [H1 H2].
  rewrite lookup_insert_eq in H1, H2. simpl in H1. split; [done|].
  intros _. apply H2. eauto.
Qed.

Lemma addStepInputs_keys (stepOutputs : gmap string string) (bs : list WorkflowStepBase.t)
    (dependsOn : gmap string (list string)) (n : string) :
  (is_Some (dependsOn !! n) → is_Some (foldl (addStepInputs stepOutputs) dependsOn bs !! n))
  ∧ (is_Some (foldl (addStepInputs stepOutputs) dependsOn bs !! n) →
     is_Some (dependsOn !! n) ∨ n ∈ (WorkflowStepBase.Name <$> bs)).
Proof.
  revert dependsOn. induction bs as [|b bs IH]; intros dependsOn; [by split; [|left]|].
  simpl foldl. destruct (IH (addStepInputs stepOutputs dependsOn b)) as [H1 H2].
  unfold addStepInputs in *. rewrite fmap_cons.
  destruct (decide (n = WorkflowStepBase.Name b)) as [->|Hne].
  - split; [|intros _; right; left].
    intros H. apply H1. by apply addInputs_default.
  - rewrite addInputs_other in H1, H2 by done. split; [done|].
    intros H. apply H2 in H as [H|H]; [by left | right; by right].
Qed.

Lemma addStepInputs_values (stepOutputs : gmap string string) (bs : list WorkflowStepBase.t)
    (dependsOn : gmap string (list string)) (n d : string) :
  d ∈ default [] (foldl (addStepInputs stepOutputs) dependsOn bs !! n) →
  d ∈ default [] (dependsOn !! n)
  ∨ ∃ b input, b ∈ bs ∧ WorkflowStepBase.Name b = n
               ∧ input ∈ WorkflowStepBase.Inputs b
               ∧ stepOutputs !! From input = Some d.
Proof.
  revert dependsOn. induction bs as [|b bs IH]; intros dependsOn; [by left|].
  simpl foldl. intros H. apply IH in H as [H|(b' & input & Hb' & Hn & Hi & Hp)].
  - unfold addStepInputs in H.
    destruct (decide (n = WorkflowStepBase.Name b)) as [->|Hne].
    + rewrite (proj1 (addInputs_default _ _ _ _)) in H.
      apply withProducers_elem in H as [H|(input & Hi & Hp)]; [by left|].
      right. exists b, input. split; [left | done].
    + rewrite addInputs_other in H by done. by left.
  - right. exists b', input. split; [by right | done].
Qed.

(** X7. Whatever the names, two steps of one name too: [dependsOn] has an
    entry for every name of a step or substep and for no other name, and
    every name in an entry comes from the [DependsOn] of a step or substep
    of that name or is the recorded producer of an input of one. *)
Theorem dependsOnMap_entries (steps : list WorkflowStep.t) :
  (∀ n, is_Some (dependsOnMap steps !! n) ↔
        n ∈ (WorkflowStepBase.Name <$> declarations steps))
  ∧ (∀ n deps d,
       dependsOnMap steps !! n = Some deps → d ∈ deps →
       ∃ b, b ∈ declarations steps ∧ WorkflowStepBase.Name b = n
            ∧ (d ∈ WorkflowStepBase.DependsOn b
               ∨ ∃ input, input ∈ WorkflowStepBase.Inputs b
                          ∧ stepOutputs steps !! From input = Some d)).
Proof.
  unfold dependsOnMap, addInputEdges, stepOutputs.
  rewrite (foldl_declarations (addStepInputs (recordSteps steps).1)).
  assert (Hrec : (recordSteps steps).2 = (foldl recordStep (∅, ∅) (declarations steps)).2).
  { unfold recordSteps. by rewrite (foldl_declarations recordStep). }
  split.
  - intros n.
    destruct (addStepInputs_keys (recordSteps steps).1 (declarations steps)
                (recordSteps steps).2 n) as [H1 H2].
    rewrite Hrec, recordStep_keys in H1, H2. simpl in H1, H2.
    rewrite lookup_empty in H1, H2. rewrite Hrec. split.
    + intros H. apply H2 in H as [[[? [=]]|H]|H]; done.
    + intros H. apply H1. by right.
  - intros n deps d Hn Hd.
    destruct (addStepInputs_values (recordSteps steps).1 (declarations steps)
                (recordSteps steps).2 n d) as [H|(b & input & Hb & Hbn & Hi & Hp)].
    { by rewrite Hn. }
    + destruct ((recordSteps steps).2 !! n) as [deps0|] eqn:H0; [|inversion H].
      rewrite Hrec in H0.
      apply recordStep_values in H0 as [H0|(b & Hb & Hbn & ->)].
      * simpl in H0. by rewrite lookup_empty in H0.
      * exists b. split; [done|]. split; [done | by left].
    + exists b. split; [done|]. split; [done|]. right. by exists input.
Qed.

Lemma withProducers_added (stepOutputs : gmap string string) (inputs : list inputItem)
    (deps : list string) :
  ∃ added, withProducers stepOutputs inputs deps = deps ++ added
           ∧ NoDup added ∧ (∀ x, x ∈ added → x ∉ deps)
           ∧ length added ≤ length inputs.
Proof.
  unfold withProducers. revert deps. induction inputs as [|i inputs IH]; intros deps.
  - exists []. simpl. rewrite app_nil_r. repeat split; [constructor | inversion 1 | done].
  - simpl. destruct (stepOutputs !! From i) as [p|].
    + destruct (stringsContain deps p) eqn:Hp.
      * destruct (IH deps) as (added & -> & Hnd & Hnew & Hlen).
        exists added. repeat split; [done | done | lia].
      * apply stringsContain_false in Hp.
        destruct (IH (deps ++ [p])) as (added & -> & Hnd & Hnew & Hlen).
        exists (p :: added). rewrite <- app_assoc. repeat split.
        -- constructor; [|done]. intros Hin. apply (Hnew p Hin), elem_of_app. right. left.
        -- intros y Hy. apply elem_of_cons in Hy as [->|Hy]; [done|].
           intros Hyd. apply (Hnew y Hy), elem_of_app. by left.
        -- simpl. lia.
    + destruct (IH deps) as (added & -> & Hnd & Hnew & Hlen).
      exists added. repeat split; [done | done | lia].
Qed.

(** X8. For steps and substeps with names of their own, the entry of a step
    in [dependsOn] starts with its [DependsOn] as declared; what follows
    are the producers of its inputs, the names recorded in [stepOutputs] for
    the [From] of an input: every one of them that is not in [DependsOn],
    and nothing else, none twice, at most one for each input. *)
Theorem dependsOn_explicit_first (steps : list WorkflowStep.t) (b : WorkflowStepBase.t) :
  NoDup (WorkflowStepBase.Name <$> declarations steps) →
  b ∈ declarations steps →
  ∃ added,
    dependsOnMap steps !! WorkflowStepBase.Name b
    = Some (WorkflowStepBase.DependsOn b ++ added)
    ∧ NoDup added
    ∧ (∀ x, x ∈ added → x ∉ WorkflowStepBase.DependsOn b)
    ∧ length added ≤ length (WorkflowStepBase.Inputs b)
    ∧ (∀ d, d ∈ added ↔
            (d ∉ WorkflowStepBase.DependsOn b)
            ∧ ∃ input, input ∈ WorkflowStepBase.Inputs b
                       ∧ stepOutputs steps !! From input = Some d).
Proof.
  intros Hnd Hb. rewrite dependsOnMap_lookup by done.
  pose proof (withProducers_elem (recordSteps steps).1 (WorkflowStepBase.Inputs b)
                (WorkflowStepBase.DependsOn b)) as Helem.
  destruct (withProducers_added (recordSteps steps).1 (WorkflowStepBase.Inputs b)
              (WorkflowStepBase.DependsOn b)) as (added & Heq & Hnodup & Hnew & Hlen).
  rewrite Heq in Helem. rewrite Heq. exists added. do 4 (split; [done|]).
  intros d. unfold stepOutputs. split.
  - intros Hd. split; [by apply Hnew|].
    destruct (proj1 (Helem d)) as [Hin|Hin]; [apply elem_of_app; by right | | done].
    by destruct (Hnew d Hd).
  - intros [Hnot Hin].
    destruct (proj1 (elem_of_app _ _ d) (proj2 (Helem d) (or_intror Hin))); done.
Qed.

Lemma dependsOn_explicit_first_witness :
  ∃ added,
    dependsOnMap exampleDag !! "b" = Some ([] ++ added)
    ∧ NoDup added ∧ (∀ x, x ∈ added → x ∉ []) ∧ length added ≤ 1
    ∧ (∀ d, d ∈ added ↔
            (d ∉ [])
            ∧ ∃ input, input ∈ [mkInput "x" "value"]
                       ∧ stepOutputs exampleDag !! From input = Some d).
Proof.
  apply (dependsOn_explicit_first exampleDag (exampleStep "b" [] ["x"] [])).
  - by apply (bool_decide_unpack _).
  - right. left.
Defined.

(** ** Terminate, Resume and Suspend, again and after each other *)

Lemma StepStatus_ext (s s' : StepStatus.t) :
  StepStatus.ID s' = StepStatus.ID s →
  StepStatus.Name s' = StepStatus.Name s →
  StepStatus.Type_ s' = StepStatus.Type_ s →
  StepStatus.Phase s' = StepStatus.Phase s →
  StepStatus.Message s' = StepStatus.Message s →
  StepStatus.Reason s' = StepStatus.Reason s →
  StepStatus.FirstExecuteTime s' = StepStatus.FirstExecuteTime s →
  StepStatus.LastExecuteTime s' = StepStatus.LastExecuteTime s →
  s' = s.
Proof. destruct s, s'. simpl. by intros -> -> -> -> -> -> -> ->. Qed.

Lemma terminatedEntry_not_running (s s' : StepStatus.t) :
  terminatedEntry s s' → StepStatus.Phase s' ≠ WorkflowStepPhaseRunning.
Proof.
  intros (_ & _ & _ & _ & _ & _ & Hrun & Hfail & Hother).
  destruct (decide (StepStatus.Phase s = WorkflowStepPhaseRunning)) as [H|H].
  - destruct (Hrun H) as [-> _]. phases. congruence.
  - destruct (decide (StepStatus.Phase s = WorkflowStepPhaseFailed)) as [H'|H'].
    + destruct (Hfail H') as [-> _]. phases. congruence.
    + by rewrite (Hother H H').
Qed.

Lemma terminatedEntry_again (s s' s'' : StepStatus.t) :
  terminatedEntry s s' → terminatedEntry s' s'' → s'' = s'.
Proof.
  intros Hs (Hid & Hname & Htype & Hmsg & Hfirst & Hlast & Hrun & Hfail & Hother).
  pose proof (terminatedEntry_not_running s s' Hs) as Hnr.
  destruct (decide (StepStatus.Phase s' = WorkflowStepPhaseFailed)) as [Hf|Hf];
    [|by apply Hother].
  destruct (Hfail Hf) as (Hphase & Hkeep & Hterm).
  apply StepStatus_ext; try done; [congruence|].
  destruct (decide (StepStatus.Reason s' = StatusReasonFailedAfterRetries)) as [H1|H1];
    [apply Hkeep; by left|].
  destruct (decide (StepStatus.Reason s' = StatusReasonTimeout)) as [H2|H2];
    [apply Hkeep; by right|].
  rewrite (Hterm H1 H2). symmetry.
  destruct Hs as (_ & _ & _ & _ & _ & _ & Hrun0 & Hfail0 & Hother0).
  destruct (decide (StepStatus.Phase s = WorkflowStepPhaseRunning)) as [H|H];
    [by destruct (Hrun0 H)|].
  destruct (decide (StepStatus.Phase s = WorkflowStepPhaseFailed)) as [H'|H'].
  - destruct (Hfail0 H') as (_ & Hkeep0 & Hterm0).
    destruct (decide (StepStatus.Reason s = StatusReasonFailedAfterRetries)) as [H3|H3];
      [rewrite Hkeep0 in H1 by (by left); congruence|].
    destruct (decide (StepStatus.Reason s = StatusReasonTimeout)) as [H4|H4];
      [rewrite Hkeep0 in H2 by (by right); congruence|].
    by apply Hterm0.
  - rewrite (Hother0 H H') in Hf. congruence.
Qed.

Lemma Forall2_again {A : Type} (R : A → A → Prop) (l l' l'' : list A) :
  (∀ x x' x'', R x x' → R x' x'' → x'' = x') →
  Forall2 R l l' → Forall2 R l' l'' → l'' = l'.
Proof.
  intros HR Hl. revert l''. induction Hl as [|x x' l l' Hx Hl IH]; intros l'' Hl'.
  - by inversion Hl'.
  - inversion Hl' as [|? x'' ? k Hx' Hk]; subst. f_equal; [by eapply HR | by apply IH].
Qed.

Lemma terminateSteps_again (steps : list WorkflowStepStatus.t) :
  rangeUpdate terminateStep (rangeUpdate terminateStep steps)
  = rangeUpdate terminateStep steps.
Proof.
  eapply Forall2_again; [|apply terminateSteps_Forall2|apply terminateSteps_Forall2].
  intros [s subs] [s' subs'] [s'' subs''] [Hs Hsubs] [Hs' Hsubs']. simpl in *.
  f_equal; [by eapply terminatedEntry_again|].
  eapply Forall2_again; [|exact Hsubs|exact Hsubs']. apply terminatedEntry_again.
Qed.

Lemma terminateSteps_noneRunning (steps : list WorkflowStepStatus.t)
    (status : WorkflowRunStatus.t) :
  WorkflowRunStatus.Steps status = rangeUpdate terminateStep steps →
  noneRunning status.
Proof.
  intros Heq. unfold noneRunning. rewrite Heq. clear Heq.
  pose proof (terminateSteps_Forall2 steps) as H.
  induction H as [|step step' l l' [Hs Hsubs] Hl IH]; [constructor|constructor; [|done]].
  split; [by eapply terminatedEntry_not_running|].
  clear -Hsubs. induction Hsubs as [|sub sub' k k' Hsub Hk IH]; [constructor|constructor; [|done]].
  by eapply terminatedEntry_not_running.
Qed.

Lemma rangeUpdate_nil_inv {A : Type} (f : nat → A → list A → list A) (l : list A) :
  (∀ i x arr, arr !! i = Some x → ∃ y, f i x arr = <[i := y]> arr) →
  rangeUpdate f l = [] → l = [].
Proof.
  intros Hf Hnil.
  pose proof (rangeUpdate_Forall2 (fun _ _ => True) f l) as H.
  assert (Forall2 (fun _ _ : A => True) l (rangeUpdate f l)) as H'.
  { apply H. intros i x arr Hi. destruct (Hf i x arr Hi) as [y ->]. eauto. }
  rewrite Hnil in H'. by apply Forall2_nil_inv_r in H'.
Qed.

(** The run that a [TerminateWorkflow] left, when it held a step or the
    patch failed: its flags are set and its steps have gone through the
    switch. *)
Lemma TerminateWorkflow_left (cli : Cluster) (run : WorkflowRun.t) :
  let '(err, cli1, run1) := TerminateWorkflow cli run in
  WorkflowRunStatus.Steps (WorkflowRun.Status run) ≠ [] ∨ is_Some err →
  WorkflowRunStatus.Steps (WorkflowRun.Status run1)
  = rangeUpdate terminateStep (WorkflowRunStatus.Steps (WorkflowRun.Status run))
  ∧ WorkflowRunStatus.Terminated (WorkflowRun.Status run1) = true
  ∧ WorkflowRunStatus.Suspend (WorkflowRun.Status run1) = false.
Proof.
  pose proof (TerminateWorkflow_result cli run) as H. cbv zeta in H.
  destruct (TerminateWorkflow cli run) as [[err cli1] run1].
  destruct H as (_ & _ & H). intros Hcase.
  destruct err as [e|].
  - by destruct H as [_ ->].
  - destruct H as (stored & _ & -> & _). simpl. split; [|done].
    destruct Hcase as [Hne|[? [=]]].
    destruct (rangeUpdate terminateStep _) eqn:Hnil; [|done].
    destruct Hne. apply (rangeUpdate_nil_inv terminateStep); [|done].
    intros i x arr Hi. destruct (terminateStep_insert i x arr Hi) as (y & ? & _). eauto.
Qed.

(** X9. After [TerminateWorkflow] of a run that holds a step, and after one
    that returns an error, no step and no substep of the run is in the phase
    Running; a run that holds no step and is patched holds the stored steps
    afterwards, as they are stored. A second [TerminateWorkflow] of the run
    that the first one left, when it fails or finds that run stored (as the
    first one leaves it when it returns nil), leaves the run and the stored
    runs as they are. [Resume] refuses the run and changes nothing. *)
Theorem TerminateWorkflow_is_final (cli : Cluster) (run : WorkflowRun.t) :
  let '(err, cli1, run1) := TerminateWorkflow cli run in
  (WorkflowRunStatus.Steps (WorkflowRun.Status run) ≠ [] ∨ is_Some err →
   noneRunning (WorkflowRun.Status run1)
   ∧ ∀ cli2,
       let '(err2, cli3, run2) := TerminateWorkflow cli2 run1 in
       is_Some err2 ∨ runs cli2 !! runKey run1 = Some (WorkflowRun.Status run1) →
       run2 = run1 ∧ runs cli3 = runs cli2)
  ∧ (WorkflowRunStatus.Steps (WorkflowRun.Status run) = [] → err = None →
     ∃ stored, runs cli !! runKey run = Some stored
       ∧ WorkflowRunStatus.Steps (WorkflowRun.Status run1) = WorkflowRunStatus.Steps stored)
  ∧ (err = None → runs cli1 !! runKey run1 = Some (WorkflowRun.Status run1))
  ∧ (∀ cli2 w, Resume (mkOperator cli2 w run1)
               = (Some (Errorf "can not resume a terminated workflow"),
                  mkOperator cli2 w run1)).
Proof.
  pose proof (TerminateWorkflow_result cli run) as H. cbv zeta in H.
  pose proof (TerminateWorkflow_left cli run) as Hleft.
  destruct (TerminateWorkflow cli run) as [[err cli1] run1].
  destruct H as (_ & _ & H). split; [|split; [|split]].
  - intros Hcase. destruct (Hleft Hcase) as (Hsteps & Hterm & Hsusp).
    split; [by eapply terminateSteps_noneRunning|].
    intros cli2.
    pose proof (TerminateWorkflow_result cli2 run1) as H2. cbv zeta in H2.
    destruct (TerminateWorkflow cli2 run1) as [[err2 cli3] run2].
    destruct H2 as (_ & _ & H2).
    assert (WorkflowRunStatus.with_Steps
              (rangeUpdate terminateStep (WorkflowRunStatus.Steps (WorkflowRun.Status run1)))
              (WorkflowRunStatus.with_Suspend false
                 (WorkflowRunStatus.with_Terminated true (WorkflowRun.Status run1)))
            = WorkflowRun.Status run1) as Hsent.
    { rewrite Hsteps, terminateSteps_again, <- Hsteps.
      destruct (WorkflowRun.Status run1). simpl in *. by rewrite Hterm, Hsusp. }
    rewrite Hsent in H2. intros Hcase2. destruct err2 as [e2|].
    + destruct H2 as [-> ->]. by destruct run1.
    + destruct Hcase2 as [[? [=]]|Hstored].
      destruct H2 as (stored & Hs & -> & ->). rewrite Hstored in Hs.
      injection Hs as <-. rewrite mergePatch_same by done.
      split; [by destruct run1|]. by apply insert_id.
  - intros Hnil ->. destruct H as (stored & Hs & -> & _). exists stored.
    split; [done|]. simpl. rewrite Hnil. done.
  - intros ->. destruct H as (stored & Hs & -> & ->). simpl. apply lookup_insert_eq.
  - intros cli2 w. unfold Resume. simpl.
    assert (WorkflowRunStatus.Terminated (WorkflowRun.Status run1) = true) as ->; [|done].
    destruct err as [e|]; [by destruct H as [_ ->]|].
    by destruct H as (stored & _ & -> & _).
Qed.

Lemma resumedEntry_not_running (s s' : StepStatus.t) :
  resumedEntry s s' →
  ¬ (StepStatus.Type_ s' = WorkflowStepTypeSuspend
     ∧ StepStatus.Phase s' = WorkflowStepPhaseRunning).
Proof.
  intros (_ & _ & Htype & _ & _ & _ & _ & Hflip & Hkeep) [Ht Hp].
  rewrite Htype in Ht.
  destruct (decide (StepStatus.Phase s = WorkflowStepPhaseRunning)) as [H|H].
  - rewrite (Hflip Ht H) in Hp. phases. congruence.
  - rewrite Hkeep in Hp by (by right). done.
Qed.

Lemma resumedEntry_again (s s' s'' : StepStatus.t) :
  resumedEntry s s' → resumedEntry s' s'' → s'' = s'.
Proof.
  intros Hs (Hid & Hname & Htype & Hmsg & Hreason & Hfirst & Hlast & Hflip & Hkeep).
  apply StepStatus_ext; try done.
  apply Hkeep. pose proof (resumedEntry_not_running s s' Hs) as Hn.
  destruct (decide (StepStatus.Type_ s' = WorkflowStepTypeSuspend)); [|by left].
  right. intros Hp. by apply Hn.
Qed.

Lemma resumeSteps_again (steps : list WorkflowStepStatus.t) :
  rangeUpdate resumeStep (rangeUpdate resumeStep steps) = rangeUpdate resumeStep steps.
Proof.
  eapply Forall2_again; [|apply resumeSteps_Forall2|apply resumeSteps_Forall2].
  intros [s subs] [s' subs'] [s'' subs''] [Hs Hsubs] [Hs' Hsubs']. simpl in *.
  f_equal; [by eapply resumedEntry_again|].
  eapply Forall2_again; [|exact Hsubs|exact Hsubs']. apply resumedEntry_again.
Qed.

Lemma resumeSteps_noSuspendRunning (steps : list WorkflowStepStatus.t)
    (status : WorkflowRunStatus.t) :
  WorkflowRunStatus.Steps status = rangeUpdate resumeStep steps →
  noSuspendRunning status.
Proof.
  intros Heq. unfold noSuspendRunning. rewrite Heq. clear Heq.
  pose proof (resumeSteps_Forall2 steps) as H.
  induction H as [|step step' l l' [Hs Hsubs] Hl IH]; [constructor|constructor; [|done]].
  split; [by eapply resumedEntry_not_running|].
  clear -Hsubs. induction Hsubs as [|sub sub' k k' Hsub Hk IH]; [constructor|constructor; [|done]].
  by eapply resumedEntry_not_running.
Qed.

Lemma ResumeWorkflow_left (c : Cluster) (r : WorkflowRun.t) :
  let '(err, c1, run1) := ResumeWorkflow c r in
  (WorkflowRunStatus.Steps (WorkflowRun.Status r) ≠ [] ∨ is_Some err →
   WorkflowRunStatus.Steps (WorkflowRun.Status run1)
   = rangeUpdate resumeStep (WorkflowRunStatus.Steps (WorkflowRun.Status r)))
  ∧ WorkflowRunStatus.Terminated (WorkflowRun.Status run1)
    = WorkflowRunStatus.Terminated (WorkflowRun.Status r)
  ∧ WorkflowRunStatus.Suspend (WorkflowRun.Status run1) = false
  ∧ WorkflowRun.Name run1 = WorkflowRun.Name r.
Proof.
  pose proof (ResumeWorkflow_result c r) as H. cbv zeta in H.
  destruct (ResumeWorkflow c r) as [[err c1] run1].
  destruct H as (_ & _ & H).
  destruct err as [e|].
  - by destruct H as [_ ->].
  - destruct H as (stored & _ & -> & _). simpl. split; [|done].
    intros [Hne|[? [=]]].
    destruct (rangeUpdate resumeStep _) eqn:Hnil; [|done].
    destruct Hne. apply (rangeUpdate_nil_inv resumeStep); [|done].
    intros i x arr Hi. destruct (resumeStep_insert i x arr Hi) as (y & ? & _). eauto.
Qed.

(** X10. After [ResumeWorkflow] of a run that holds a step, and after one
    that returns an error, no step and no substep of type suspend is in the
    phase Running; a run that holds no step and is patched holds the stored
    steps afterwards, as they are stored. A second [ResumeWorkflow] of the
    run that the first one left, when it fails or finds that run stored (as
    the first one leaves it when it returns nil), leaves the run and the
    stored runs as they are. [Resume] of the resumed run, when it is not
    terminated, makes no call to the API server at all: the cluster and the
    run stay as they are, and only the message is written. *)
Theorem ResumeWorkflow_is_final (c : Cluster) (r : WorkflowRun.t) :
  let '(err, c1, run1) := ResumeWorkflow c r in
  (WorkflowRunStatus.Steps (WorkflowRun.Status r) ≠ [] ∨ is_Some err →
   noSuspendRunning (WorkflowRun.Status run1)
   ∧ ∀ cli2,
       let '(err2, cli3, run2) := ResumeWorkflow cli2 run1 in
       is_Some err2 ∨ runs cli2 !! runKey run1 = Some (WorkflowRun.Status run1) →
       run2 = run1 ∧ runs cli3 = runs cli2)
  ∧ (WorkflowRunStatus.Steps (WorkflowRun.Status r) = [] → err = None →
     ∃ stored, runs c !! runKey r = Some stored
       ∧ WorkflowRunStatus.Steps (WorkflowRun.Status run1) = WorkflowRunStatus.Steps stored)
  ∧ (err = None → runs c1 !! runKey run1 = Some (WorkflowRun.Status run1))
  ∧ (WorkflowRunStatus.Terminated (WorkflowRun.Status r) = false →
     ∀ cli2 w,
       let '(err2, wo2) := Resume (mkOperator cli2 w run1) in
       cli wo2 = cli2 ∧ run wo2 = run1
       ∧ (err2, outputWriter wo2)
         = writeOutputF w ("Successfully resume workflow: " +:+ WorkflowRun.Name r +:+ "
")).
Proof.
  pose proof (ResumeWorkflow_result c r) as H. cbv zeta in H.
  pose proof (ResumeWorkflow_left c r) as Hleft.
  destruct (ResumeWorkflow c r) as [[err c1] run1].
  destruct H as (_ & _ & H). destruct Hleft as (Hsteps & Hterm & Hsusp & Hname).
  split; [|split; [|split]].
  - intros Hcase. specialize (Hsteps Hcase).
    split; [by eapply resumeSteps_noSuspendRunning|].
    intros cli2.
    pose proof (ResumeWorkflow_result cli2 run1) as H2. cbv zeta in H2.
    destruct (ResumeWorkflow cli2 run1) as [[err2 cli3] run2].
    destruct H2 as (_ & _ & H2).
    assert (WorkflowRunStatus.with_Steps
              (rangeUpdate resumeStep (WorkflowRunStatus.Steps (WorkflowRun.Status run1)))
              (WorkflowRunStatus.with_Suspend false (WorkflowRun.Status run1))
            = WorkflowRun.Status run1) as Hsent.
    { rewrite Hsteps, resumeSteps_again, <- Hsteps.
      destruct (WorkflowRun.Status run1). simpl in *. by rewrite Hsusp. }
    rewrite Hsent in H2. intros Hcase2. destruct err2 as [e2|].
    + destruct H2 as [-> ->]. by destruct run1.
    + destruct Hcase2 as [[? [=]]|Hstored].
      destruct H2 as (stored & Hs & -> & ->). rewrite Hstored in Hs.
      injection Hs as <-. rewrite mergePatch_same by done.
      split; [by destruct run1|]. by apply insert_id.
  - intros Hnil ->. destruct H as (stored & Hs & -> & _). exists stored.
    split; [done|]. simpl.
    destruct (rangeUpdate resumeStep _) eqn:Hr; [done|]. by rewrite Hnil in Hr.
  - intros ->. destruct H as (stored & Hs & -> & ->). simpl. apply lookup_insert_eq.
  - intros Ht cli2 w. unfold Resume. simpl. rewrite Hterm, Ht, Hsusp, Hname.
    destruct (writeOutputF w _) as [err2 w2]. done.
Qed.

(** ** What reaches the cluster *)

Lemma writeStatus_frame (run : WorkflowRun.t) (c c' : Cluster) (err : option error) :
  writeStatus run c = (err, c') →
  configMaps c' = configMaps c ∧ workflows c' = workflows c
  ∧ match err with
    | Some _ => runs c' = runs c
    | None => is_Some (runs c !! runKey run)
              ∧ runs c' = <[runKey run := WorkflowRun.Status run]> (runs c)
    end.
Proof.
  unfold writeStatus. destruct (next_fault c) as [[e|] c1] eqn:Hf;
    apply next_fault_stores in Hf as (Hcm & Hw & Hr).
  - by intros [= <- <-].
  - fold (runKey run). destruct (runs c1 !! runKey run) eqn:Hl.
    + intros [= <- <-]. simpl. rewrite <- Hr, Hl. eauto.
    + by intros [= <- <-].
Qed.

Lemma retryOnConflict_writeStatus_frame (n : nat) (run : WorkflowRun.t)
    (c c' : Cluster) (err : option error) :
  retryOnConflict (S n) (writeStatus run) c = (err, c') →
  configMaps c' = configMaps c ∧ workflows c' = workflows c
  ∧ match err with
    | Some _ => runs c' = runs c
    | None => is_Some (runs c !! runKey run)
              ∧ runs c' = <[runKey run := WorkflowRun.Status run]> (runs c)
    end.
Proof.
  revert c. induction n as [|n IH]; intros c; simpl.
  - destruct (writeStatus run c) as [[e|] c1] eqn:Hw; apply writeStatus_frame in Hw.
    + destruct (IsConflict e); by intros [= <- <-].
    + by intros [= <- <-].
  - destruct (writeStatus run c) as [[e|] c1] eqn:Hw; apply writeStatus_frame in Hw.
    + destruct (IsConflict e); [|by intros [= <- <-]].
      destruct Hw as (Hcm & Hwf & Hr). intros H. apply IH in H as (? & ? & H).
      rewrite Hcm, Hwf, Hr in *. done.
    + by intros [= <- <-].
Qed.

(** X11. [TerminateWorkflow] and [ResumeWorkflow] write nothing but the
    status of their own run, and they send it as a merge patch: the context
    objects and the workflows of the cluster stay as they are, and without
    an error the run was stored already, its stored status is afterwards the
    stored one with the status in memory merged into it, which keeps the
    stored steps, context reference and modes where the run in memory has
    none, and the run in memory has that merged status too. With an error
    nothing is stored, also no status for a run that the cluster does not
    have, while the status in memory is changed all the same. *)
Theorem status_writes_are_framed (cli : Cluster) (run : WorkflowRun.t) :
  (let sent :=
     WorkflowRunStatus.with_Steps
       (rangeUpdate terminateStep (WorkflowRunStatus.Steps (WorkflowRun.Status run)))
       (WorkflowRunStatus.with_Suspend false
          (WorkflowRunStatus.with_Terminated true (WorkflowRun.Status run))) in
   let '(err, cli', run') := TerminateWorkflow cli run in
   configMaps cli' = configMaps cli ∧ workflows cli' = workflows cli
   ∧ match err with
     | Some _ => runs cli' = runs cli ∧ run' = WorkflowRun.with_Status sent run
     | None => ∃ stored, runs cli !! runKey run = Some stored
                 ∧ run' = WorkflowRun.with_Status (mergePatch sent stored) run
                 ∧ runs cli' = <[runKey run := mergePatch sent stored]> (runs cli)
     end)
  ∧ (let sent :=
       WorkflowRunStatus.with_Steps
         (rangeUpdate resumeStep (WorkflowRunStatus.Steps (WorkflowRun.Status run)))
         (WorkflowRunStatus.with_Suspend false (WorkflowRun.Status run)) in
     let '(err, cli', run') := ResumeWorkflow cli run in
     configMaps cli' = configMaps cli ∧ workflows cli' = workflows cli
     ∧ match err with
       | Some _ => runs cli' = runs cli ∧ run' = WorkflowRun.with_Status sent run
       | None => ∃ stored, runs cli !! runKey run = Some stored
                   ∧ run' = WorkflowRun.with_Status (mergePatch sent stored) run
                   ∧ runs cli' = <[runKey run := mergePatch sent stored]> (runs cli)
       end)
  ∧ (∀ held stored : WorkflowRunStatus.t,
       let merged := mergePatch held stored in
       WorkflowRunStatus.Suspend merged = WorkflowRunStatus.Suspend held
       ∧ WorkflowRunStatus.Terminated merged = WorkflowRunStatus.Terminated held
       ∧ WorkflowRunStatus.Finished merged = WorkflowRunStatus.Finished held
       ∧ WorkflowRunStatus.EndTime merged = WorkflowRunStatus.EndTime held
       ∧ WorkflowRunStatus.Steps merged
         = (if decide (WorkflowRunStatus.Steps held = [])
            then WorkflowRunStatus.Steps stored else WorkflowRunStatus.Steps held)
       ∧ WorkflowRunStatus.ContextBackend merged
         = (if decide (WorkflowRunStatus.ContextBackend held = None)
            then WorkflowRunStatus.ContextBackend stored
            else WorkflowRunStatus.ContextBackend held)).
Proof.
  split; [apply TerminateWorkflow_result|]. split; [apply ResumeWorkflow_result|].
  intros held stored. unfold mergePatch. simpl. do 4 (split; [done|]).
  split; [by destruct (WorkflowRunStatus.Steps held)|].
  by destruct (WorkflowRunStatus.ContextBackend held).
Qed.

(** ** Suspend *)

Lemma suspendOnce_frame (key : ObjectKey) (c c' : Cluster) (run run' : WorkflowRun.t)
    (err : option error) :
  key = runKey run →
  suspendOnce key (c, run) = (err, (c', run')) →
  configMaps c' = configMaps c ∧ workflows c' = workflows c ∧ runKey run' = runKey run
  ∧ WorkflowRun.Name run' = WorkflowRun.Name run
  ∧ match err with
    | Some _ => runs c' = runs c
    | None => ∃ st, runs c !! key = Some st
                    ∧ WorkflowRun.Status run' = WorkflowRunStatus.with_Suspend true st
                    ∧ runs c' = <[key := WorkflowRunStatus.with_Suspend true st]> (runs c)
    end.
Proof.
  intros ->. unfold suspendOnce, GetRun. simpl.
  destruct (next_fault c) as [[e|] c1] eqn:Hf;
    apply next_fault_stores in Hf as (Hcm & Hw & Hr).
  { by intros [= <- <- <-]. }
  destruct (runs c1 !! runKey run) as [st|] eqn:Hl; [|by intros [= <- <- <-]].
  destruct (StatusPatch _) as [err' [c2 run2]] eqn:Hp.
  apply StatusPatch_result in Hp as (Hcm' & Hw' & Hp).
  intros [= <- <- <-]. rewrite Hcm', Hw', Hcm, Hw. do 2 (split; [done|]).
  destruct err' as [e|].
  { destruct Hp as [Hp ->]. simpl. do 2 (split; [done|]). congruence. }
  destruct Hp as (stored & Hs & -> & Hp). simpl in *.
  unfold runKey in Hs, Hp, Hl. simpl in Hs, Hp. fold (runKey run) in Hs, Hp, Hl.
  rewrite Hl in Hs. injection Hs as <-.
  rewrite mergePatch_same in * by done.
  do 2 (split; [done|]). exists st. rewrite <- Hr. done.
Qed.

Lemma retryOnConflictWith_suspendOnce (n : nat) (key : ObjectKey) (c c' : Cluster)
    (run run' : WorkflowRun.t) (err : option error) :
  key = runKey run →
  retryOnConflictWith (S n) (suspendOnce key) (c, run) = (err, (c', run')) →
  configMaps c' = configMaps c ∧ workflows c' = workflows c
  ∧ WorkflowRun.Name run' = WorkflowRun.Name run
  ∧ match err with
    | Some _ => runs c' = runs c
    | None => ∃ st, runs c !! key = Some st
                    ∧ WorkflowRun.Status run' = WorkflowRunStatus.with_Suspend true st
                    ∧ runs c' = <[key := WorkflowRunStatus.with_Suspend true st]> (runs c)
    end.
Proof.
  revert c run. induction n as [|n IH]; intros c run Hkey; simpl.
  - destruct (suspendOnce key (c, run)) as [[e|] [c1 run1]] eqn:Hs;
      apply suspendOnce_frame in Hs as (? & ? & ? & ? & ?); try done.
    + destruct (IsConflict e); by intros [= <- <- <-].
    + by intros [= <- <- <-].
  - destruct (suspendOnce key (c, run)) as [[e|] [c1 run1]] eqn:Hs;
      apply suspendOnce_frame in Hs as (Hcm & Hw & Hk & Hn & Hr); try done.
    + destruct (IsConflict e); [|by intros [= <- <- <-]].
      intros H. apply IH in H as (? & ? & ? & H); [|congruence].
      rewrite Hcm, Hw, Hn, Hr in *. done.
    + by intros [= <- <- <-].
Qed.

(** X12. [Suspend] does not use the status that the operator has in memory:
    it reads the stored status of the run, sets Suspend in it and stores
    that, whether or not the run is terminated. So either it returns an
    error of the API server and the stored runs are as before, or the stored
    status of this run is the one stored before with Suspend set, the status
    in memory is that same status, and what it returns is what writing the
    message returns. Context objects and workflows stay as they are. When
    the API server has no fault to report, a stored run is always suspended,
    and for a run that is not stored NotFound is returned with nothing
    changed. *)
Theorem Suspend_takes_the_stored_status (wo : workflowRunOperator) :
  let key := runKey (run wo) in
  let '(err, wo') := Suspend wo in
  configMaps (cli wo') = configMaps (cli wo)
  ∧ workflows (cli wo') = workflows (cli wo)
  ∧ ((is_Some err ∧ runs (cli wo') = runs (cli wo))
     ∨ ∃ st, runs (cli wo) !! key = Some st
         ∧ WorkflowRun.Status (run wo') = WorkflowRunStatus.with_Suspend true st
         ∧ runs (cli wo') = <[key := WorkflowRunStatus.with_Suspend true st]> (runs (cli wo))
         ∧ (err, outputWriter wo')
           = writeOutputF (outputWriter wo)
               ("Successfully suspend workflow: " +:+ WorkflowRun.Name (run wo) +:+ "
"))
  ∧ (faults (cli wo) = [] →
     match runs (cli wo) !! key with
     | Some st =>
         WorkflowRun.Status (run wo') = WorkflowRunStatus.with_Suspend true st
         ∧ runs (cli wo') = <[key := WorkflowRunStatus.with_Suspend true st]> (runs (cli wo))
     | None => err = Some ErrNotFound ∧ wo' = wo
     end).
Proof.
  intros key. destruct (Suspend wo) as [err wo'] eqn:HS.
  assert (Hgen : configMaps (cli wo') = configMaps (cli wo)
    ∧ workflows (cli wo') = workflows (cli wo)
    ∧ ((is_Some err ∧ runs (cli wo') = runs (cli wo))
       ∨ ∃ st, runs (cli wo) !! key = Some st
           ∧ WorkflowRun.Status (run wo') = WorkflowRunStatus.with_Suspend true st
           ∧ runs (cli wo')
             = <[key := WorkflowRunStatus.with_Suspend true st]> (runs (cli wo))
           ∧ (err, outputWriter wo')
             = writeOutputF (outputWriter wo)
                 ("Successfully suspend workflow: " +:+ WorkflowRun.Name (run wo) +:+ "
"))).
  { revert HS. unfold Suspend. fold (runKey (run wo)). fold key.
    destruct (retryOnConflictWith _ _ _) as [[e|] [c r]] eqn:Hr;
      apply retryOnConflictWith_suspendOnce in Hr as (Hcm & Hw & Hn & Hr); try done.
    - intros [= <- <-]. simpl. split; [done|]. split; [done|]. left. eauto.
    - rewrite Hn. destruct (writeOutputF _ _) as [werr w] eqn:Hout.
      intros [= <- <-]. simpl. split; [done|]. split; [done|]. right.
      destruct Hr as (st & ? & ? & ?). exists st. done. }
  destruct Hgen as (Hcm & Hw & Hgen). do 2 (split; [done|]). split; [done|].
  intros Hfaults. revert HS. unfold Suspend. fold (runKey (run wo)). fold key.
  unfold DefaultBackoffSteps. simpl retryOnConflictWith.
  unfold suspendOnce at 1, GetRun. simpl.
  rewrite (next_fault_nil _ Hfaults).
  destruct (runs (cli wo) !! key) as [st|] eqn:Hl.
  - unfold StatusPatch. cbn [fst snd]. rewrite (next_fault_nil _ Hfaults). simpl.
    fold (runKey (run wo)). fold key. rewrite Hl.
    rewrite (mergePatch_same (WorkflowRunStatus.with_Suspend true st) st) by done.
    destruct (writeOutputF _ _) as [werr w]. intros [= <- <-]. done.
  - simpl. intros [= <- <-]. by destruct wo.
Qed.

(** ** Restart from scratch, when the API server fails *)

Lemma DeleteConfigMap_frame (cm : ConfigMap) (c c' : Cluster) (err : option error) :
  DeleteConfigMap cm c = (err, c') →
  runs c' = runs c ∧ workflows c' = workflows c
  ∧ match err with
    | Some _ => configMaps c' = configMaps c
    | None => configMaps c' = delete (cmNamespace cm, cmName cm) (configMaps c)
    end.
Proof.
  unfold DeleteConfigMap. destruct (next_fault c) as [[e|] c1] eqn:Hf;
    apply next_fault_stores in Hf as (Hcm & Hw & Hr).
  - by intros [= <- <-].
  - destruct (configMaps c1 !! _); intros [= <- <-]; simpl; by rewrite ?Hcm.
Qed.

Lemma GetConfigMap_frame (key : ObjectKey) (c c' : Cluster) (res : error + ConfigMap) :
  GetConfigMap key c = (res, c') →
  runs c' = runs c ∧ workflows c' = workflows c ∧ configMaps c' = configMaps c
  ∧ ∀ cm, res = inr cm → (cmNamespace cm, cmName cm) = key.
Proof.
  unfold GetConfigMap. destruct (next_fault c) as [[e|] c1] eqn:Hf;
    apply next_fault_stores in Hf as (Hcm & Hw & Hr).
  - intros [= <- <-]. by repeat split.
  - destruct (configMaps c1 !! key); intros [= <- <-]; repeat split; try done.
    intros cm [= <-]. by destruct key.
Qed.

(** X13. [RestartWorkflow] with the empty step name always returns. When it
    returns nil, the run in memory has the zero status, the run was stored
    and its stored status is now the zero status. When it returns an error,
    the stored status of every run is the one before, while the run in
    memory is either untouched or already reset. In both cases the
    workflows stay, and of the context objects at most the one named by
    [ContextBackend] is gone. *)
Theorem RestartWorkflow_reset_outcomes
    (rangeMap : gmap string (list string) → list (string * list string))
    (NewValue : string → error + Node) (formatNode : Node → error + string)
    (fuel : nat) (cli : Cluster) (run : WorkflowRun.t) :
  let '(out, cli', run') := RestartWorkflow rangeMap NewValue formatNode fuel cli run "" in
  ∃ err, out = Returned err
    ∧ workflows cli' = workflows cli
    ∧ (configMaps cli' = configMaps cli
       ∨ ∃ name, WorkflowRunStatus.ContextBackend (WorkflowRun.Status run) = Some name
           ∧ configMaps cli' = delete (WorkflowRun.Namespace run, name) (configMaps cli))
    ∧ match err with
      | None => run' = WorkflowRun.with_Status WorkflowRunStatus.zero run
                ∧ is_Some (runs cli !! runKey run)
                ∧ runs cli' = <[runKey run := WorkflowRunStatus.zero]> (runs cli)
      | Some _ => runs cli' = runs cli
                  ∧ (run' = run ∨ run' = WorkflowRun.with_Status WorkflowRunStatus.zero run)
      end.
Proof.
  unfold RestartWorkflow. rewrite decide_False by (intros H; by apply H).
  assert (Hend : ∀ c1, runs c1 = runs cli → workflows c1 = workflows cli →
    (configMaps c1 = configMaps cli
     ∨ ∃ name, WorkflowRunStatus.ContextBackend (WorkflowRun.Status run) = Some name
         ∧ configMaps c1 = delete (WorkflowRun.Namespace run, name) (configMaps cli)) →
    let '(out, cli', run') :=
      (let '(err, c2) := StatusUpdate (WorkflowRun.with_Status WorkflowRunStatus.zero run) c1 in
       (Returned err, c2, WorkflowRun.with_Status WorkflowRunStatus.zero run)) in
    ∃ err, out = Returned err
      ∧ workflows cli' = workflows cli
      ∧ (configMaps cli' = configMaps cli
         ∨ ∃ name, WorkflowRunStatus.ContextBackend (WorkflowRun.Status run) = Some name
             ∧ configMaps cli' = delete (WorkflowRun.Namespace run, name) (configMaps cli))
      ∧ match err with
        | None => run' = WorkflowRun.with_Status WorkflowRunStatus.zero run
                  ∧ is_Some (runs cli !! runKey run)
                  ∧ runs cli' = <[runKey run := WorkflowRunStatus.zero]> (runs cli)
        | Some _ => runs cli' = runs cli
                    ∧ (run' = run
                       ∨ run' = WorkflowRun.with_Status WorkflowRunStatus.zero run)
        end).
  { intros c1 Hr Hw Hcm.
    destruct (StatusUpdate _ c1) as [err c2] eqn:Hu.
    apply writeStatus_frame in Hu as (Hcm2 & Hw2 & Hu).
    exists err. split; [done|]. rewrite Hcm2, Hw2. do 2 (split; [done|]).
    destruct err as [e|].
    - split; [congruence | by right].
    - destruct Hu as [Hs Hu]. rewrite Hr in Hs, Hu. done. }
  destruct (WorkflowRunStatus.ContextBackend (WorkflowRun.Status run)) as [name|] eqn:Hctx.
  - destruct (GetConfigMap _ cli) as [[e|cm] c1] eqn:Hget;
      apply GetConfigMap_frame in Hget as (Hr & Hw & Hcm & Hkey).
    + destruct (IsNotFound e); simpl.
      * apply Hend; [done | done | left; done].
      * exists (Some e). rewrite Hr, Hw, Hcm. split; [done|]. split; [done|].
        split; [by left|]. split; [done | by left].
    + destruct (DeleteConfigMap cm c1) as [[e|] c2] eqn:Hdel;
        apply DeleteConfigMap_frame in Hdel as (Hr2 & Hw2 & Hcm2).
      * exists (Some e). rewrite Hr2, Hw2, Hcm2, Hr, Hw, Hcm. split; [done|].
        split; [done|]. split; [by left|]. split; [done | by left].
      * apply Hend; [congruence | congruence |]. right. exists name. split; [done|].
        rewrite Hcm2, (Hkey cm eq_refl), Hcm. done.
  - apply Hend; [done | done | by left].
Qed.

(** X14. [RestartWorkflow] with the empty step name is not atomic, and its
    status update is not tried again: when the context object is stored and
    the API server answers the Get and the Delete but fails the status
    update, with a conflict or with any other error, that error is returned
    with the context object deleted and the status in memory reset, while
    the stored status of the run is still the one before. *)
Theorem RestartWorkflow_reset_not_atomic
    (rangeMap : gmap string (list string) → list (string * list string))
    (NewValue : string → error + Node) (formatNode : Node → error + string)
    (fuel : nat) (cli : Cluster) (run : WorkflowRun.t) (name : string) (e : error)
    (rest : list (option error)) :
  WorkflowRunStatus.ContextBackend (WorkflowRun.Status run) = Some name →
  is_Some (configMaps cli !! (WorkflowRun.Namespace run, name)) →
  faults cli = None :: None :: Some e :: rest →
  RestartWorkflow rangeMap NewValue formatNode fuel cli run ""
  = (Returned (Some e),
     mkCluster (delete (WorkflowRun.Namespace run, name) (configMaps cli))
               (workflows cli) (runs cli) rest,
     WorkflowRun.with_Status WorkflowRunStatus.zero run).
Proof.
  intros Hctx [data Hdata] Hf. unfold RestartWorkflow.
  rewrite decide_False by (intros H; by apply H). rewrite Hctx.
  unfold GetConfigMap, next_fault. rewrite Hf. simpl. rewrite Hdata.
  unfold DeleteConfigMap, next_fault. simpl. rewrite Hdata.
  unfold StatusUpdate, writeStatus, next_fault. simpl. reflexivity.
Qed.

Lemma RestartWorkflow_reset_not_atomic_witness :
  let status := WorkflowRunStatus.mk false true true (Some "workflow-run-context")
      [ WorkflowStepStatus.mk (exampleStatus "a" "apply" WorkflowStepPhaseFailed "Execute") [] ]
      (Some 5%Z) (mkMode "DAG" "DAG") in
  let cli := mkCluster {[ ("default", "workflow-run-context") := Some ∅ ]} ∅
               {[ ("default", "run") := status ]} [None; None; Some ErrConflict] in
  RestartWorkflow keyOrder (fun _ => inr (StructLit [])) (fun _ => inr "") 0
    cli (exampleRun [] status) ""
  = (Returned (Some ErrConflict),
     mkCluster (delete ("default", "workflow-run-context")
                  {[ ("default", "workflow-run-context") := Some ∅ ]})
               ∅ {[ ("default", "run") := status ]} [],
     exampleRun [] WorkflowRunStatus.zero).
Proof.
  intros status cli.
  apply (RestartWorkflow_reset_not_atomic keyOrder (fun _ => inr (StructLit []))
           (fun _ => inr "") 0 cli (exampleRun [] status) "workflow-run-context"
           ErrConflict []).
  - reflexivity.
  - by eexists.
  - reflexivity.
Defined.

(** ** What a restart from a step touches, however it ends *)

Lemma UpdateConfigMap_frame (cm : ConfigMap) (c c' : Cluster) (err : option error) :
  UpdateConfigMap cm c = (err, c') →
  runs c' = runs c ∧ workflows c' = workflows c
  ∧ match err with
    | Some _ => configMaps c' = configMaps c
    | None => configMaps c' = <[(cmNamespace cm, cmName cm) := Data cm]> (configMaps c)
    end.
Proof.
  unfold UpdateConfigMap. destruct (next_fault c) as [[e|] c1] eqn:Hf;
    apply next_fault_stores in Hf as (Hcm & Hw & Hr).
  - by intros [= <- <-].
  - destruct (configMaps c1 !! _); intros [= <- <-]; simpl; by rewrite ?Hcm.
Qed.

Lemma retryOnConflict_UpdateConfigMap_frame (n : nat) (cm : ConfigMap) (c c' : Cluster)
    (err : option error) :
  retryOnConflict (S n) (UpdateConfigMap cm) c = (err, c') →
  runs c' = runs c ∧ workflows c' = workflows c
  ∧ match err with
    | Some _ => configMaps c' = configMaps c
    | None => configMaps c' = <[(cmNamespace cm, cmName cm) := Data cm]> (configMaps c)
    end.
Proof.
  revert c. induction n as [|n IH]; intros c; simpl.
  - destruct (UpdateConfigMap cm c) as [[e|] c1] eqn:Hu; apply UpdateConfigMap_frame in Hu.
    + destruct (IsConflict e); by intros [= <- <-].
    + by intros [= <- <-].
  - destruct (UpdateConfigMap cm c) as [[e|] c1] eqn:Hu; apply UpdateConfigMap_frame in Hu.
    + destruct (IsConflict e); [|by intros [= <- <-]].
      destruct Hu as (Hr & Hw & Hcm). intros H. apply IH in H as (? & ? & H).
      rewrite Hr, Hw, Hcm in *. done.
    + by intros [= <- <-].
Qed.

Lemma decodedData_Some (data : option (gmap string string)) (d : gmap string string) :
  decodedData data = Some d ↔ data = Some d ∧ d ≠ ∅.
Proof.
  unfold decodedData. destruct data as [d'|]; [|by split; [|intros []]].
  destruct (decide (d' = ∅)) as [->|Hne].
  - split; [done|]. by intros [[= <-] ?].
  - split; [by intros [= <-]|]. by intros [[= <-] _].
Qed.

Lemma GetConfigMap_inr (key : ObjectKey) (c c' : Cluster) (cm : ConfigMap) :
  GetConfigMap key c = (inr cm, c') →
  (cmNamespace cm, cmName cm) = key
  ∧ ∃ data, configMaps c !! key = Some data ∧ Data cm = decodedData data.
Proof.
  unfold GetConfigMap. destruct (next_fault c) as [[e|] c1] eqn:Hf;
    apply next_fault_stores in Hf as (Hcm & Hw & Hr); [discriminate|].
  rewrite <- Hcm. destruct (configMaps c1 !! key) as [data|]; [|discriminate].
  intros [= <- <-]. split; [by destruct key|]. by exists data.
Qed.

Lemma restartContext_frame (rangeMap : gmap string (list string) → list (string * list string))
    (NewValue : string → error + Node) (formatNode : Node → error + string)
    (c c' : Cluster) (r : WorkflowRun.t) (steps : list WorkflowStep.t) (stepName : string)
    (dependency : list string) (out : Outcome) :
  restartContext NewValue formatNode c r steps stepName dependency = (out, c') →
  runs c' = runs c ∧ workflows c' = workflows c
  ∧ (configMaps c' = configMaps c
     ∨ ∃ name data s,
         WorkflowRunStatus.ContextBackend (WorkflowRun.Status r) = Some name
         ∧ configMaps c !! (WorkflowRun.Namespace r, name) = Some (Some data)
         ∧ configMaps c'
           = <[(WorkflowRun.Namespace r, name) := Some (<[ConfigMapKeyVars := s]> data)]>
               (configMaps c)).
Proof.
  unfold restartContext.
  destruct (WorkflowRunStatus.ContextBackend _) as [name|] eqn:Hctx;
    [|intros [= <- <-]; by repeat split; try left].
  destruct (GetConfigMap _ c) as [[e|cm] c1] eqn:Hget.
  { apply GetConfigMap_frame in Hget as (Hr & Hw & Hcm & _).
    intros [= <- <-]. by repeat split; try left. }
  pose proof (GetConfigMap_inr _ _ _ _ Hget) as (Hkey & stored & Hdata & Hdec).
  apply GetConfigMap_frame in Hget as (Hr & Hw & Hcm & _).
  destruct (NewValue _) as [e|v]; [intros [= <- <-]; by repeat split; try left|].
  destruct (clearContextVars _ _ _ _ _) as [e|s];
    [intros [= <- <-]; by repeat split; try left|].
  destruct (Data cm) as [data|] eqn:HD; [|intros [= <- <-]; by repeat split; try left].
  symmetry in Hdec. apply decodedData_Some in Hdec as [-> _].
  destruct (RetryOnConflict _ c1) as [err c2] eqn:Hu.
  apply retryOnConflict_UpdateConfigMap_frame in Hu as (Hr2 & Hw2 & Hcm2).
  intros [= <- <-]. rewrite Hr2, Hw2, Hr, Hw. do 2 (split; [done|]).
  destruct err as [e|]; [left; congruence|].
  right. exists name, data, s. split; [done|]. split; [done|].
  rewrite Hcm2. simpl. rewrite Hkey, Hcm. done.
Qed.

Lemma butSteps_fields (r r' : WorkflowRun.t) :
  setRunSteps [] r' = setRunSteps [] r →
  WorkflowRun.Name r' = WorkflowRun.Name r
  ∧ WorkflowRun.Namespace r' = WorkflowRun.Namespace r
  ∧ WorkflowRun.Spec r' = WorkflowRun.Spec r
  ∧ WorkflowRunStatus.Terminated (WorkflowRun.Status r')
    = WorkflowRunStatus.Terminated (WorkflowRun.Status r)
  ∧ WorkflowRunStatus.Suspend (WorkflowRun.Status r')
    = WorkflowRunStatus.Suspend (WorkflowRun.Status r)
  ∧ WorkflowRunStatus.Finished (WorkflowRun.Status r')
    = WorkflowRunStatus.Finished (WorkflowRun.Status r)
  ∧ WorkflowRunStatus.EndTime (WorkflowRun.Status r')
    = WorkflowRunStatus.EndTime (WorkflowRun.Status r)
  ∧ WorkflowRunStatus.ContextBackend (WorkflowRun.Status r')
    = WorkflowRunStatus.ContextBackend (WorkflowRun.Status r)
  ∧ WorkflowRunStatus.Mode (WorkflowRun.Status r')
    = WorkflowRunStatus.Mode (WorkflowRun.Status r).
Proof.
  destruct r as [? ? ? []], r' as [? ? ? []]. unfold setRunSteps. simpl.
  intros [= -> -> -> -> -> -> -> -> ->]. done.
Qed.

Lemma writeRunStep_butSteps (f : WorkflowStepStatus.t → WorkflowStepStatus.t) (i : nat)
    (st st' : restartState) :
  writeRunStep f i st = Some st' →
  setRunSteps [] (rsRun st') = setRunSteps [] (rsRun st).
Proof.
  unfold writeRunStep. destruct (decide _); [|discriminate]. by intros [= <-].
Qed.

Section RestartFrame.

Variable rangeMap : gmap string (list string) → list (string * list string).
Variable fuel : nat.
Variable steps : list WorkflowStep.t.
Variable stepName : string.
Variable mode : WorkflowExecuteMode.

Lemma restartSubLoop_butSteps (i : nat) (step : WorkflowStepStatus.t)
    (subs : list StepStatus.t) (st : restartState) :
  setRunSteps []
    (rsRun (flowState (restartSubLoop rangeMap fuel steps stepName mode i step subs st)))
  = setRunSteps [] (rsRun st).
Proof.
  induction subs as [|sub rest IH]; simpl; [done|].
  destruct (decide (StepStatus.Name sub = stepName)); [|done].
  destruct (decide (StepStatus.Phase sub ≠ WorkflowStepPhaseFailed)); [done|].
  destruct (getStepDependency _ _ _ _ _) as [subDependency|]; [|done].
  destruct (writeRunStep _ i st) as [st1|] eqn:H1; [|done].
  apply writeRunStep_butSteps in H1.
  destruct (writeRunStep _ i st1) as [st2|] eqn:H2; [|done].
  apply writeRunStep_butSteps in H2.
  destruct (writeRunStep _ i st2) as [st3|] eqn:H3; [|simpl; congruence].
  apply writeRunStep_butSteps in H3.
  destruct (getStepDependency _ _ _ _ _) as [stepDependency|]; simpl; [|congruence].
  rewrite setRunSteps_twice. congruence.
Qed.

Lemma restartLoop_butSteps (idxs : list nat) (st : restartState) :
  setRunSteps [] (rsRun (flowState (restartLoop rangeMap fuel steps stepName mode idxs st)))
  = setRunSteps [] (rsRun st).
Proof.
  revert st. induction idxs as [|i rest IH]; intros st; simpl; [done|].
  destruct (stepStatus st !! i) as [step|]; [|apply IH].
  destruct (decide (WorkflowStepStatus.Name step = stepName)).
  - destruct (decide (WorkflowStepStatus.Phase step ≠ WorkflowStepPhaseFailed)); [done|].
    destruct (getStepDependency _ _ _ _ _); done.
  - pose proof (restartSubLoop_butSteps i step (WorkflowStepStatus.SubStepsStatus step) st)
      as Hsub.
    destruct (restartSubLoop _ _ _ _ _ _ _ _ _) as [st'|st'|e st'|st'|st'];
      simpl in Hsub; try done; rewrite IH; done.
Qed.

End RestartFrame.

Lemma restartFrom_frame
    (rangeMap : gmap string (list string) → list (string * list string))
    (NewValue : string → error + Node) (formatNode : Node → error + string)
    (fuel : nat) (steps : list WorkflowStep.t) (stepName : string)
    (c : Cluster) (r : WorkflowRun.t) :
  let '(out, c', r') := restartFrom rangeMap NewValue formatNode fuel c r steps stepName in
  workflows c' = workflows c
  ∧ (runs c' = runs c
     ∨ is_Some (runs c !! runKey r)
       ∧ runs c' = <[runKey r := WorkflowRun.Status r']> (runs c))
  ∧ (configMaps c' = configMaps c
     ∨ ∃ name data s,
         WorkflowRunStatus.ContextBackend (WorkflowRun.Status r) = Some name
         ∧ configMaps c !! (WorkflowRun.Namespace r, name) = Some (Some data)
         ∧ configMaps c'
           = <[(WorkflowRun.Namespace r, name) := Some (<[ConfigMapKeyVars := s]> data)]>
               (configMaps c))
  ∧ setRunSteps [] r' = setRunSteps [] r.
Proof.
  unfold restartFrom.
  pose proof (restartLoop_butSteps rangeMap fuel steps stepName
                (WorkflowRunStatus.Mode (WorkflowRun.Status r))
                (seq 0 (length (WorkflowRunStatus.Steps (WorkflowRun.Status r))))
                (mkRestart r (WorkflowRunStatus.Steps (WorkflowRun.Status r)) true false []))
    as Hinv.
  assert (Hdone : ∀ st,
    setRunSteps [] (rsRun st) = setRunSteps [] r →
    let '(out, c', r') :=
      (if negb (found st)
       then (Returned (Some (Errorf ("failed step " +:+ stepName +:+ " not found"))),
             c, rsRun st)
       else match RetryOnConflict (StatusUpdate (rsRun st)) c with
            | (Some err, cli) => (Returned (Some err), cli, rsRun st)
            | (None, cli) =>
                let '(out, cli) := restartContext NewValue formatNode cli (rsRun st) steps
                                     stepName (dependency st) in
                (out, cli, rsRun st)
            end) in
    workflows c' = workflows c
    ∧ (runs c' = runs c
       ∨ is_Some (runs c !! runKey r)
         ∧ runs c' = <[runKey r := WorkflowRun.Status r']> (runs c))
    ∧ (configMaps c' = configMaps c
       ∨ ∃ name data s,
           WorkflowRunStatus.ContextBackend (WorkflowRun.Status r) = Some name
           ∧ configMaps c !! (WorkflowRun.Namespace r, name) = Some (Some data)
           ∧ configMaps c'
             = <[(WorkflowRun.Namespace r, name) := Some (<[ConfigMapKeyVars := s]> data)]>
                 (configMaps c))
    ∧ setRunSteps [] r' = setRunSteps [] r).
  { intros st Hst.
    pose proof (butSteps_fields _ _ Hst) as (Hn & Hns & _ & _ & _ & _ & _ & Hctx & _).
    assert (Hkey : runKey (rsRun st) = runKey r) by (unfold runKey; congruence).
    destruct (negb (found st)); [by repeat split; try left|].
    destruct (RetryOnConflict (StatusUpdate (rsRun st)) c) as [[err|] c1] eqn:Hw;
      apply retryOnConflict_writeStatus_frame in Hw as (Hcm & Hwf & Hr).
    - rewrite Hcm, Hwf, Hr. by repeat split; try left.
    - destruct (restartContext _ _ c1 _ _ _ _) as [out c2] eqn:Hc.
      apply (restartContext_frame rangeMap) in Hc as (Hr2 & Hwf2 & Hcm2).
      rewrite Hwf2, Hr2, Hwf. split; [done|]. split.
      + right. rewrite <- Hkey. done.
      + split; [|done]. rewrite Hcm, Hctx, Hns in Hcm2. done. }
  destruct (restartLoop _ _ _ _ _ _ _) as [st|st|e st|st|st]; simpl in Hinv.
  - exact (Hdone st Hinv).
  - exact (Hdone st Hinv).
  - split; [done|]. split; [by left|]. split; [by left|]. done.
  - split; [done|]. split; [by left|]. split; [by left|]. done.
  - split; [done|]. split; [by left|]. split; [by left|]. done.
Qed.

(** X15. What [RestartFromStep] touches, whether it returns nil, returns an
    error or panics. The workflows of the cluster stay. The stored statuses
    of the runs are the ones before, or the ones before with the status of
    this run, which was stored, replaced by the one in memory. The context
    objects are the ones before, or the ones before with the variables
    replaced in the data of the object named by [ContextBackend]; none is
    created or deleted. The name, the namespace and the specification of the
    run stay. With the empty step name the run and the cluster are
    untouched; with any other name the marks of the end of the run are
    cleared in memory, also when the request is then refused. *)
Theorem RestartFromStep_frame
    (rangeMap : gmap string (list string) → list (string * list string))
    (NewValue : string → error + Node) (formatNode : Node → error + string)
    (fuel : nat) (cli : Cluster) (run : WorkflowRun.t) (stepName : string) :
  let '(out, cli', run') :=
    RestartFromStep rangeMap NewValue formatNode fuel cli run stepName in
  workflows cli' = workflows cli
  ∧ (runs cli' = runs cli
     ∨ is_Some (runs cli !! runKey run)
       ∧ runs cli' = <[runKey run := WorkflowRun.Status run']> (runs cli))
  ∧ (configMaps cli' = configMaps cli
     ∨ ∃ name data s,
         WorkflowRunStatus.ContextBackend (WorkflowRun.Status run) = Some name
         ∧ configMaps cli !! (WorkflowRun.Namespace run, name) = Some (Some data)
         ∧ configMaps cli'
           = <[(WorkflowRun.Namespace run, name) := Some (<[ConfigMapKeyVars := s]> data)]>
               (configMaps cli))
  ∧ WorkflowRun.Name run' = WorkflowRun.Name run
  ∧ WorkflowRun.Namespace run' = WorkflowRun.Namespace run
  ∧ WorkflowRun.Spec run' = WorkflowRun.Spec run
  ∧ if decide (stepName = "") then run' = run ∧ cli' = cli
    else restartCleared (WorkflowRun.Status run) (WorkflowRun.Status run').
Proof.
  unfold RestartFromStep. destruct (decide (stepName = "")) as [Hempty|Hname].
  { by repeat split; try left. }
  pose proof (cleared_status_cleared (WorkflowRun.Status run))
    as (Ht & Hs & Hf & He & Hctx & Hmode).
  set (run0 := WorkflowRun.with_Status (clearedStatus (WorkflowRun.Status run)) run).
  assert (Hfrom : ∀ c1 steps,
    workflows c1 = workflows cli → runs c1 = runs cli → configMaps c1 = configMaps cli →
    let '(out, cli', run') :=
      restartFrom rangeMap NewValue formatNode fuel c1 run0 steps stepName in
    workflows cli' = workflows cli
    ∧ (runs cli' = runs cli
       ∨ is_Some (runs cli !! runKey run)
         ∧ runs cli' = <[runKey run := WorkflowRun.Status run']> (runs cli))
    ∧ (configMaps cli' = configMaps cli
       ∨ ∃ name data s,
           WorkflowRunStatus.ContextBackend (WorkflowRun.Status run) = Some name
           ∧ configMaps cli !! (WorkflowRun.Namespace run, name) = Some (Some data)
           ∧ configMaps cli'
             = <[(WorkflowRun.Namespace run, name) := Some (<[ConfigMapKeyVars := s]> data)]>
                 (configMaps cli))
    ∧ WorkflowRun.Name run' = WorkflowRun.Name run
    ∧ WorkflowRun.Namespace run' = WorkflowRun.Namespace run
    ∧ WorkflowRun.Spec run' = WorkflowRun.Spec run
    ∧ restartCleared (WorkflowRun.Status run) (WorkflowRun.Status run')).
  { intros c1 steps Hw1 Hr1 Hcm1.
    pose proof (restartFrom_frame rangeMap NewValue formatNode fuel steps stepName c1 run0)
      as H.
    destruct (restartFrom _ _ _ _ c1 run0 steps stepName) as [[out cli'] run'].
    destruct H as (Hw & Hr & Hcm & Hrun).
    apply butSteps_fields in Hrun as (? & ? & ? & Ht' & Hs' & Hf' & He' & Hctx' & Hmode').
    subst run0. simpl in *.
    rewrite Hw, Hw1. split; [done|]. rewrite Hr1 in Hr. split; [exact Hr|].
    rewrite Hcm1, Hctx in Hcm. split; [exact Hcm|]. do 3 (split; [done|]).
    unfold restartCleared. rewrite Ht', Hs', Hf', He', Hctx', Hmode'. done. }
  simpl.
  destruct (WorkflowSpec (WorkflowRun.Spec run)) as [steps|].
  - by apply Hfrom.
  - destruct (GetWorkflow _ cli) as [[e|steps] c1] eqn:Hget.
    + unfold GetWorkflow in Hget. destruct (next_fault cli) as [[e'|] c2] eqn:Hfault;
        apply next_fault_stores in Hfault as (Hcm & Hw & Hr).
      * injection Hget as <- <-. rewrite Hcm, Hw, Hr.
        repeat split; try (by left); done.
      * destruct (workflows c2 !! _); [discriminate|]. injection Hget as <- <-.
        rewrite Hcm, Hw, Hr. repeat split; try (by left); done.
    + unfold GetWorkflow in Hget. destruct (next_fault cli) as [[e'|] c2] eqn:Hfault;
        apply next_fault_stores in Hfault as (Hcm & Hw & Hr); [discriminate|].
      destruct (workflows c2 !! _); [|discriminate]. injection Hget as <- <-.
      by apply Hfrom.
Qed.

(** ** A restart from a step on a cluster that answers every call *)

Lemma restart_after_loop_no_faults (NewValue : string → error + Node)
    (formatNode : Node → error + string) (c : Cluster) (r : WorkflowRun.t)
    (steps : list WorkflowStep.t) (stepName : string) (dep : list string) :
  faults c = [] →
  is_Some (runs c !! runKey r) →
  ∃ out cms,
    match RetryOnConflict (StatusUpdate r) c with
    | (Some err, cli) => (Returned (Some err), cli, r)
    | (None, cli) =>
        let '(out, cli) := restartContext NewValue formatNode cli r steps stepName dep in
        (out, cli, r)
    end
    = (out, mkCluster cms (workflows c) (<[runKey r := WorkflowRun.Status r]> (runs c)) [], r)
    ∧ match WorkflowRunStatus.ContextBackend (WorkflowRun.Status r) with
      | None => out = Returned None ∧ cms = configMaps c
      | Some name =>
          match configMaps c !! (WorkflowRun.Namespace r, name) with
          | None => out = Returned (Some ErrNotFound) ∧ cms = configMaps c
          | Some data =>
              match NewValue (default "" (decodedData data ≫= (.!! ConfigMapKeyVars))) with
              | inl e => out = Returned (Some e) ∧ cms = configMaps c
              | inr v =>
                  match clearContextVars formatNode steps v stepName dep with
                  | inl e => out = Returned (Some e) ∧ cms = configMaps c
                  | inr text =>
                      match decodedData data with
                      | None => out = Panicked ∧ cms = configMaps c
                      | Some d =>
                          out = Returned None
                          ∧ cms = <[(WorkflowRun.Namespace r, name)
                                    := Some (<[ConfigMapKeyVars := text]> d)]> (configMaps c)
                      end
                  end
              end
          end
      end.
Proof.
  destruct c as [cms wfs rs fs]. simpl. intros -> [stored Hstored].
  unfold RetryOnConflict, DefaultBackoffSteps. simpl retryOnConflict.
  unfold StatusUpdate, writeStatus, next_fault. simpl.
  unfold runKey in *. rewrite Hstored. unfold with_runs. simpl.
  unfold restartContext.
  destruct (WorkflowRunStatus.ContextBackend (WorkflowRun.Status r)) as [name|].
  2: { eexists _, _. split; [reflexivity|]. done. }
  unfold GetConfigMap, next_fault. simpl.
  destruct (cms !! (WorkflowRun.Namespace r, name)) as [data|] eqn:Hdata.
  2: { eexists _, _. split; [reflexivity|]. done. }
  simpl.
  destruct (NewValue _) as [e|v].
  { eexists _, _. split; [reflexivity|]. done. }
  destruct (clearContextVars _ _ _ _ _) as [e|text].
  { eexists _, _. split; [reflexivity|]. done. }
  destruct (decodedData data) as [d|].
  2: { eexists _, _. split; [reflexivity|]. done. }
  unfold RetryOnConflict, DefaultBackoffSteps. simpl retryOnConflict.
  unfold UpdateConfigMap, next_fault. simpl. rewrite Hdata.
  eexists _, _. split; [reflexivity|]. done.
Qed.

Lemma declaredSteps_no_faults (cli : Cluster) (run : WorkflowRun.t)
    (steps : list WorkflowStep.t) :
  faults cli = [] → (declaredSteps cli run).1 = inr steps →
  declaredSteps cli run = (inr steps, cli).
Proof.
  intros Hf. unfold declaredSteps.
  destruct (WorkflowSpec (WorkflowRun.Spec run)); [by intros [= ->]|].
  unfold GetWorkflow. rewrite (next_fault_nil _ Hf).
  destruct (workflows cli !! _); simpl; [by intros [= ->] | discriminate].
Qed.

(** X16. [RestartFromStep] for a step that failed, on a cluster that
    answers every call and stores the run: the new status, with the marks of
    the end of the run cleared and the statuses of the step and of its
    dependents deleted, is stored before the context object is looked at,
    and stays stored whatever happens then. Without a [ContextBackend] nil
    is returned. With one, NotFound is returned when the object is not
    stored, the error of the CUE value or of its formatting when there is
    one, and the call panics when the object is stored without data or with
    empty data, which the client decodes as a nil map; in all of these the
    context objects are the ones before. Otherwise nil is returned and the
    variables in the object are replaced. *)
Theorem RestartFromStep_stores_before_context
    (rangeMap : gmap string (list string) → list (string * list string))
    (NewValue : string → error + Node) (formatNode : Node → error + string)
    (fuel : nat) (cli : Cluster) (run : WorkflowRun.t) (stepName : string)
    (steps : list WorkflowStep.t) (pre post : list WorkflowStepStatus.t)
    (s : WorkflowStepStatus.t) (dep : list string) :
  stepName ≠ "" →
  faults cli = [] →
  is_Some (runs cli !! runKey run) →
  (declaredSteps cli run).1 = inr steps →
  WorkflowRunStatus.Steps (WorkflowRun.Status run) = pre ++ s :: post →
  unnamed stepName pre →
  WorkflowStepStatus.Name s = stepName →
  WorkflowStepStatus.Phase s = WorkflowStepPhaseFailed →
  getStepDependency rangeMap fuel steps stepName
    (bool_decide (ModeSteps (WorkflowRunStatus.Mode (WorkflowRun.Status run))
                  = WorkflowModeDAG)) = Some dep →
  let status' :=
    WorkflowRunStatus.with_Steps
      (deleteStepStatus dep (WorkflowRunStatus.Steps (WorkflowRun.Status run)) stepName false)
      (clearedStatus (WorkflowRun.Status run)) in
  ∃ out cms,
    RestartFromStep rangeMap NewValue formatNode fuel cli run stepName
    = (out, mkCluster cms (workflows cli) (<[runKey run := status']> (runs cli)) [],
       WorkflowRun.with_Status status' run)
    ∧ match WorkflowRunStatus.ContextBackend (WorkflowRun.Status run) with
      | None => out = Returned None ∧ cms = configMaps cli
      | Some name =>
          match configMaps cli !! (WorkflowRun.Namespace run, name) with
          | None => out = Returned (Some ErrNotFound) ∧ cms = configMaps cli
          | Some data =>
              match NewValue (default "" (decodedData data ≫= (.!! ConfigMapKeyVars))) with
              | inl e => out = Returned (Some e) ∧ cms = configMaps cli
              | inr v =>
                  match clearContextVars formatNode steps v stepName dep with
                  | inl e => out = Returned (Some e) ∧ cms = configMaps cli
                  | inr text =>
                      match decodedData data with
                      | None => out = Panicked ∧ cms = configMaps cli
                      | Some d =>
                          out = Returned None
                          ∧ cms = <[(WorkflowRun.Namespace run, name)
                                    := Some (<[ConfigMapKeyVars := text]> d)]>
                                    (configMaps cli)
                      end
                  end
              end
          end
      end.
Proof.
  intros Hname Hf Hstored Hdecl Hst Hpre Hs Hphase Hdep status'.
  apply declaredSteps_no_faults in Hdecl; [|done].
  pose proof (cleared_status_Steps (WorkflowRun.Status run)) as Hsteps.
  pose proof (cleared_status_cleared (WorkflowRun.Status run))
    as (_ & _ & _ & _ & Hctx & Hmode).
  set (run0 := WorkflowRun.with_Status (clearedStatus (WorkflowRun.Status run)) run).
  assert (Hunfold : RestartFromStep rangeMap NewValue formatNode fuel cli run stepName
            = restartFrom rangeMap NewValue formatNode fuel cli run0 steps stepName).
  { unfold RestartFromStep. rewrite decide_False by done. simpl.
    unfold declaredSteps in Hdecl.
    destruct (WorkflowSpec (WorkflowRun.Spec run)); [by injection Hdecl as <-|].
    by rewrite Hdecl. }
  rewrite Hunfold. unfold restartFrom.
  set (st := mkRestart run0 _ true false []).
  rewrite (restartLoop_failed_step rangeMap fuel steps stepName _ st pre post s dep);
    try done.
  2: { simpl. by rewrite Hsteps. }
  2: { simpl. by rewrite Hmode. }
  subst st. cbn [found negb rsRun stepStatus dependency].
  destruct (restart_after_loop_no_faults NewValue formatNode cli
              (setRunSteps
                 (deleteStepStatus dep (WorkflowRunStatus.Steps (WorkflowRun.Status run0))
                    stepName false) run0)
              steps stepName dep Hf Hstored) as (out & cms & Heq & Hout).
  rewrite Heq. exists out, cms. split.
  - subst run0 status'. unfold setRunSteps, runKey. simpl. rewrite Hsteps. reflexivity.
  - subst run0. simpl in Hout. rewrite Hctx in Hout. exact Hout.
Qed.

Lemma RestartFromStep_stores_before_context_witness :
  let nilData := mkCluster {[ ("default", "workflow-run-context") := Some ∅ ]} ∅
                   {[ ("default", "run") := scenario5Context ]} [] in
  let status' :=
    WorkflowRunStatus.with_Steps
      (deleteStepStatus ["d"] (WorkflowRunStatus.Steps scenario5Context) "c" false)
      (clearedStatus scenario5Context) in
  RestartFromStep keyOrder exampleNewValue exampleFormat 0
    nilData (exampleRun scenario5Steps scenario5Context) "c"
  = (Panicked,
     mkCluster {[ ("default", "workflow-run-context") := Some ∅ ]} ∅
       (<[("default", "run") := status']> {[ ("default", "run") := scenario5Context ]}) [],
     exampleRun scenario5Steps status').
Proof.
  intros nilData status'.
  destruct (RestartFromStep_stores_before_context keyOrder exampleNewValue exampleFormat 0
              nilData (exampleRun scenario5Steps scenario5Context) "c" scenario5Steps
              [ WorkflowStepStatus.mk (exampleStatus "a" "apply" WorkflowStepPhaseSucceeded "") [];
                WorkflowStepStatus.mk (exampleStatus "b" "apply" WorkflowStepPhaseSucceeded "") [] ]
              [ WorkflowStepStatus.mk (exampleStatus "d" "apply" WorkflowStepPhasePending "") [] ]
              (WorkflowStepStatus.mk (exampleStatus "c" "apply" WorkflowStepPhaseFailed "Execute") [])
              ["d"] ltac:(done) eq_refl ltac:(by eexists) eq_refl eq_refl
              ltac:(by apply (bool_decide_unpack _)) eq_refl eq_refl eq_refl)
    as (out & cms & Heq & Hout).
  simpl in Hout. destruct Hout as [-> ->]. exact Heq.
Defined.

(** ** When a restart from a step does not return *)

Section RestartReturns.

Variable rangeMap : gmap string (list string) → list (string * list string).
Variable fuel : nat.
Variable steps : list WorkflowStep.t.
Variable stepName : string.
Variable mode : WorkflowExecuteMode.

Hypothesis stepsDependency : ∀ name,
  is_Some (getStepDependency rangeMap fuel steps name
             (bool_decide (ModeSteps mode = WorkflowModeDAG))).
Hypothesis subStepsDependency : ∀ name,
  is_Some (getStepDependency rangeMap fuel steps name
             (bool_decide (ModeSubSteps mode = WorkflowModeDAG))).

Lemma restartSubLoop_returns (i : nat) (step : WorkflowStepStatus.t)
    (subs : list StepStatus.t) (st st' : restartState) :
  restartSubLoop rangeMap fuel steps stepName mode i step subs st ≠ Diverge st'.
Proof.
  induction subs as [|sub rest IH]; simpl; [done|].
  destruct (decide (StepStatus.Name sub = stepName)); [|done].
  destruct (decide (StepStatus.Phase sub ≠ WorkflowStepPhaseFailed)); [done|].
  destruct (subStepsDependency stepName) as [subDependency ->].
  destruct (writeRunStep _ i st) as [st1|]; [|done].
  destruct (writeRunStep _ i st1) as [st2|]; [|done].
  destruct (writeRunStep _ i st2) as [st3|]; [|done].
  destruct (stepsDependency (WorkflowStepStatus.Name step)) as [stepDependency ->]. done.
Qed.

Lemma restartLoop_returns (idxs : list nat) (st st' : restartState) :
  restartLoop rangeMap fuel steps stepName mode idxs st ≠ Diverge st'.
Proof.
  revert st. induction idxs as [|i rest IH]; intros st; simpl; [done|].
  destruct (stepStatus st !! i) as [step|]; [|apply IH].
  destruct (decide (WorkflowStepStatus.Name step = stepName)).
  - destruct (decide (WorkflowStepStatus.Phase step ≠ WorkflowStepPhaseFailed)); [done|].
    by destruct (stepsDependency stepName) as [dep ->].
  - pose proof (restartSubLoop_returns i step (WorkflowStepStatus.SubStepsStatus step) st)
      as Hsub.
    destruct (restartSubLoop _ _ _ _ _ _ _ _ _) as [st1|st1|e st1|st1|st1];
      [apply IH | apply IH | done | done | by destruct (Hsub st1)].
Qed.

End RestartReturns.

Lemma restartLoop_cyclic_step
    (rangeMap : gmap string (list string) → list (string * list string))
    (fuel : nat) (steps : list WorkflowStep.t) (stepName : string)
    (mode : WorkflowExecuteMode) (st : restartState)
    (pre post : list WorkflowStepStatus.t) (s : WorkflowStepStatus.t) :
  stepStatus st = pre ++ s :: post →
  unnamed stepName pre →
  WorkflowStepStatus.Name s = stepName →
  WorkflowStepStatus.Phase s = WorkflowStepPhaseFailed →
  getStepDependency rangeMap fuel steps stepName
    (bool_decide (ModeSteps mode = WorkflowModeDAG)) = None →
  restartLoop rangeMap fuel steps stepName mode (seq 0 (length (stepStatus st))) st
  = Diverge st.
Proof.
  intros Hst Hpre Hname Hphase Hdep.
  rewrite Hst at 1. rewrite length_app. simpl length. rewrite seq_split.
  rewrite restartLoop_skip by (by eapply unnamedAt_prefix).
  simpl. rewrite Hst at 1. rewrite list_lookup_middle by done.
  rewrite decide_True by done. rewrite decide_False by (intros H; by apply H).
  by rewrite Hdep.
Qed.

Lemma restartFrom_returns
    (rangeMap : gmap string (list string) → list (string * list string))
    (NewValue : string → error + Node) (formatNode : Node → error + string)
    (fuel : nat) (steps : list WorkflowStep.t) (stepName : string)
    (c : Cluster) (r : WorkflowRun.t) :
  (∀ name dag, dag = bool_decide (ModeSteps (WorkflowRunStatus.Mode (WorkflowRun.Status r))
                                  = WorkflowModeDAG)
               ∨ dag = bool_decide (ModeSubSteps (WorkflowRunStatus.Mode (WorkflowRun.Status r))
                                    = WorkflowModeDAG) →
               is_Some (getStepDependency rangeMap fuel steps name dag)) →
  (restartFrom rangeMap NewValue formatNode fuel c r steps stepName).1.1 ≠ Diverged.
Proof.
  intros Hdep. unfold restartFrom.
  pose proof (restartLoop_returns rangeMap fuel steps stepName
                (WorkflowRunStatus.Mode (WorkflowRun.Status r))
                (λ name, Hdep name _ (or_introl eq_refl))
                (λ name, Hdep name _ (or_intror eq_refl))
                (seq 0 (length (WorkflowRunStatus.Steps (WorkflowRun.Status r))))
                (mkRestart r (WorkflowRunStatus.Steps (WorkflowRun.Status r)) true false []))
    as Hloop.
  assert (Hdone : ∀ st,
    (if negb (found st)
     then (Returned (Some (Errorf ("failed step " +:+ stepName +:+ " not found"))),
           c, rsRun st)
     else match RetryOnConflict (StatusUpdate (rsRun st)) c with
          | (Some err, cli) => (Returned (Some err), cli, rsRun st)
          | (None, cli) =>
              let '(out, cli) := restartContext NewValue formatNode cli (rsRun st) steps
                                   stepName (dependency st) in
              (out, cli, rsRun st)
          end).1.1 ≠ Diverged).
  { intros st. destruct (negb (found st)); [done|].
    destruct (RestartFromStep_after_loop NewValue formatNode c (rsRun st) steps stepName
                (dependency st)) as (out & c' & Heq & Hout & _).
    rewrite Heq. done. }
  destruct (restartLoop _ _ _ _ _ _ _) as [st|st|e st|st|st]; try done;
    try apply Hdone. by destruct (Hloop st).
Qed.

Lemma RestartFromStep_declared
    (rangeMap : gmap string (list string) → list (string * list string))
    (NewValue : string → error + Node) (formatNode : Node → error + string)
    (fuel : nat) (cli : Cluster) (run : WorkflowRun.t) (stepName : string) :
  stepName ≠ "" →
  RestartFromStep rangeMap NewValue formatNode fuel cli run stepName
  = match declaredSteps cli run with
    | (inl err, cli1) =>
        (Returned (Some err), cli1,
         WorkflowRun.with_Status (clearedStatus (WorkflowRun.Status run)) run)
    | (inr steps, cli1) =>
        restartFrom rangeMap NewValue formatNode fuel cli1
          (WorkflowRun.with_Status (clearedStatus (WorkflowRun.Status run)) run)
          steps stepName
    end.
Proof.
  intros Hname. unfold RestartFromStep, declaredSteps.
  rewrite decide_False by done. reflexivity.
Qed.

Lemma declaredSteps_stores (cli cli1 : Cluster) (run : WorkflowRun.t)
    (res : error + list WorkflowStep.t) :
  declaredSteps cli run = (res, cli1) →
  runs cli1 = runs cli ∧ configMaps cli1 = configMaps cli.
Proof.
  unfold declaredSteps. destruct (WorkflowSpec _); [by intros [= <- <-]|].
  apply GetWorkflow_stores.
Qed.

(** X17. Whether [RestartFromStep] returns. When neither the steps nor the
    substeps run in DAG mode it always returns or panics, whatever the
    declared steps depend on; so it does in DAG mode when no declared step
    depends on itself. In DAG mode, when the failed step found first is one
    that depends on itself, directly or through other steps, the call never
    returns, and nothing was stored before. *)
Theorem RestartFromStep_returns_unless_cyclic
    (rangeMap : gmap string (list string) → list (string * list string))
    (NewValue : string → error + Node) (formatNode : Node → error + string)
    (fuel : nat) (cli : Cluster) (run : WorkflowRun.t) (stepName : string) :
  (∀ m, rangeMap m ≡ₚ map_to_list m) →
  let mode := WorkflowRunStatus.Mode (WorkflowRun.Status run) in
  let '(out, cli', run') :=
    RestartFromStep rangeMap NewValue formatNode fuel cli run stepName in
  ((∀ steps, (declaredSteps cli run).1 = inr steps →
      (ModeSteps mode ≠ WorkflowModeDAG ∧ ModeSubSteps mode ≠ WorkflowModeDAG)
      ∨ (acyclic (dependsOnMap steps) ∧ size (dependsOnMap steps) < fuel)) →
   out ≠ Diverged)
  ∧ (∀ steps pre s post,
       stepName ≠ "" →
       (declaredSteps cli run).1 = inr steps →
       WorkflowRunStatus.Steps (WorkflowRun.Status run) = pre ++ s :: post →
       unnamed stepName pre →
       WorkflowStepStatus.Name s = stepName →
       WorkflowStepStatus.Phase s = WorkflowStepPhaseFailed →
       ModeSteps mode = WorkflowModeDAG →
       dependent (dependsOnMap steps) stepName stepName →
       out = Diverged ∧ runs cli' = runs cli ∧ configMaps cli' = configMaps cli).
Proof.
  intros Hperm mode.
  destruct (RestartFromStep _ _ _ _ cli run stepName) as [[out cli'] run'] eqn:HR.
  pose proof (cleared_status_Steps (WorkflowRun.Status run)) as Hsteps.
  pose proof (cleared_status_cleared (WorkflowRun.Status run))
    as (_ & _ & _ & _ & _ & Hmode).
  split.
  - intros Hcond. destruct (decide (stepName = "")) as [Hempty|Hname].
    { unfold RestartFromStep in HR. rewrite decide_True in HR by done.
      by injection HR as <- _ _. }
    rewrite RestartFromStep_declared in HR by done.
    destruct (declaredSteps cli run) as [[e|steps] cli1]; [by injection HR as <- _ _|].
    specialize (Hcond steps eq_refl).
    pose proof (restartFrom_returns rangeMap NewValue formatNode fuel steps stepName cli1
                  (WorkflowRun.with_Status (clearedStatus (WorkflowRun.Status run)) run))
      as Hret.
    rewrite HR in Hret. apply Hret. simpl. rewrite Hmode. fold mode.
    intros name dag Hdag. unfold getStepDependency.
    destruct Hcond as [[Hs Hsub]|[Hacyclic Hfuel]].
    + rewrite !bool_decide_eq_false_2 in Hdag by done.
      destruct Hdag as [-> | ->]; simpl; eauto.
    + destruct (negb dag); [eauto|]. by apply findDependency_terminates.
  - intros steps pre s post Hname Hdecl Hst Hpre Hs Hphase Hdag Hcycle.
    rewrite RestartFromStep_declared in HR by done.
    destruct (declaredSteps cli run) as [[e|steps'] cli1] eqn:Hd; [discriminate|].
    simpl in Hdecl. injection Hdecl as ->.
    apply declaredSteps_stores in Hd as [Hr Hcm].
    unfold restartFrom in HR. revert HR.
    set (st := mkRestart _ _ true false []).
    rewrite (restartLoop_cyclic_step rangeMap fuel steps stepName _ st pre post s);
      try done.
    + by intros [= <- <- <-].
    + simpl. by rewrite Hsteps.
    + simpl. rewrite Hmode. fold mode. rewrite bool_decide_eq_true_2 by done.
      unfold getStepDependency. simpl. by apply findDependency_cycle.
Qed.

Lemma RestartFromStep_returns_unless_cyclic_witness :
  let cyclic := [ WorkflowStep.mk (exampleStep "a" ["b"] [] []) [];
                  WorkflowStep.mk (exampleStep "b" ["a"] [] []) [] ] in
  let status mode :=
    WorkflowRunStatus.mk false true true None
      [ WorkflowStepStatus.mk (exampleStatus "a" "apply" WorkflowStepPhaseFailed "Execute") [];
        WorkflowStepStatus.mk (exampleStatus "b" "apply" WorkflowStepPhasePending "") [] ]
      None (mkMode mode mode) in
  (∀ fuel,
     (RestartFromStep keyOrder exampleNewValue exampleFormat fuel
        (exampleCluster (status WorkflowModeStep))
        (exampleRun cyclic (status WorkflowModeStep)) "a").1.1 ≠ Diverged)
  ∧ (∀ fuel,
       (RestartFromStep keyOrder exampleNewValue exampleFormat fuel
          (exampleCluster (status WorkflowModeDAG))
          (exampleRun cyclic (status WorkflowModeDAG)) "a").1.1 = Diverged).
Proof.
  intros cyclic status. split; intros fuel.
  - pose proof (RestartFromStep_returns_unless_cyclic keyOrder exampleNewValue exampleFormat
                  fuel (exampleCluster (status WorkflowModeStep))
                  (exampleRun cyclic (status WorkflowModeStep)) "a" keyOrder_entries) as H.
    destruct (RestartFromStep _ _ _ _ _ _ _) as [[out cli'] run'].
    apply (proj1 H). intros steps _. left. by split.
  - pose proof (RestartFromStep_returns_unless_cyclic keyOrder exampleNewValue exampleFormat
                  fuel (exampleCluster (status WorkflowModeDAG))
                  (exampleRun cyclic (status WorkflowModeDAG)) "a" keyOrder_entries) as H.
    destruct (RestartFromStep _ _ _ _ _ _ _) as [[out cli'] run'].
    apply (proj2 H cyclic []
             (WorkflowStepStatus.mk
                (exampleStatus "a" "apply" WorkflowStepPhaseFailed "Execute") [])
             [ WorkflowStepStatus.mk (exampleStatus "b" "apply" WorkflowStepPhasePending "") [] ]);
      try done.
    + constructor.
    + apply (tc_l _ "a" "b" "a"); [|apply tc_once].
      * exists ["a"]. split; [vm_compute; reflexivity | left].
      * exists ["b"]. split; [vm_compute; reflexivity | left].
Defined.

(** ** A name that two groups use for a substep *)

Lemma unnamedAt_middle (stepName : string) (pre mid rest : list WorkflowStepStatus.t)
    (st : restartState) :
  stepStatus st = pre ++ mid ++ rest → unnamed stepName mid →
  unnamedAt stepName (seq (length pre) (length mid)) st.
Proof.
  intros Hst Hmid i step Hi Hlook.
  unfold unnamed in Hmid. rewrite Forall_forall in Hmid. apply Hmid.
  apply elem_of_seq in Hi.
  rewrite Hst, lookup_app_r, lookup_app_l in Hlook by lia.
  apply list_elem_of_lookup. eauto.
Qed.

Lemma deleteStepStatus_length_prefix (dependency : list string)
    (kept gone : list WorkflowStepStatus.t) (stepName : string) (group : bool) :
  Forall (fun e => WorkflowStepStatus.Name e ∈ dependency) gone →
  length (deleteStepStatus dependency (kept ++ gone) stepName group) ≤ length kept.
Proof.
  intros Hgone. rewrite deleteStepStatus_filter, List.filter_app, length_app.
  replace (List.filter _ gone) with (@nil WorkflowStepStatus.t).
  - simpl. rewrite Nat.add_0_r. apply sublist_length, filter_bool_sublist.
  - symmetry. induction Hgone as [|e gone He Hgone IH]; simpl; [done|].
    apply stringsContain_true in He. rewrite He. simpl. exact IH.
Qed.

Section RepeatedSubstep.

Variable rangeMap : gmap string (list string) → list (string * list string).
Variable fuel : nat.
Variable steps : list WorkflowStep.t.
Variable stepName : string.
Variable mode : WorkflowExecuteMode.

Lemma restartLoop_repeated_substep (st : restartState)
    (pre mid post : list WorkflowStepStatus.t) (g1 g2 : WorkflowStepStatus.t)
    (spre1 spost1 spre2 spost2 : list StepStatus.t) (sub1 sub2 : StepStatus.t)
    (subDependency stepDependency : list string) :
  aliased st = true →
  runSteps st = stepStatus st →
  stepStatus st = pre ++ g1 :: mid ++ g2 :: post →
  unnamed stepName pre →
  unnamed stepName mid →
  WorkflowStepStatus.Name g1 ≠ stepName →
  WorkflowStepStatus.Name g2 ≠ stepName →
  WorkflowStepStatus.SubStepsStatus g1 = spre1 ++ sub1 :: spost1 →
  stepName ∉ (StepStatus.Name <$> spre1) →
  StepStatus.Name sub1 = stepName →
  StepStatus.Phase sub1 = WorkflowStepPhaseFailed →
  WorkflowStepStatus.SubStepsStatus g2 = spre2 ++ sub2 :: spost2 →
  stepName ∉ (StepStatus.Name <$> spre2) →
  StepStatus.Name sub2 = stepName →
  StepStatus.Phase sub2 = WorkflowStepPhaseFailed →
  getStepDependency rangeMap fuel steps stepName
    (bool_decide (ModeSubSteps mode = WorkflowModeDAG)) = Some subDependency →
  getStepDependency rangeMap fuel steps (WorkflowStepStatus.Name g1)
    (bool_decide (ModeSteps mode = WorkflowModeDAG)) = Some stepDependency →
  Forall (fun e => WorkflowStepStatus.Name e ∈ stepDependency) (mid ++ g2 :: post) →
  ∃ st', restartLoop rangeMap fuel steps stepName mode (seq 0 (length (stepStatus st))) st
         = Panic st'.
Proof.
  intros Halias Hrun Hst Hpre Hmid Hg1 Hg2 Hsubs1 Hspre1 Hsub1 Hphase1
    Hsubs2 Hspre2 Hsub2 Hphase2 HsubDep HstepDep Hgone.
  assert (Hlen : length pre < length (stepStatus st)).
  { rewrite Hst, length_app. simpl. lia. }
  eexists.
  rewrite Hst at 1. rewrite length_app. simpl length. rewrite seq_split.
  rewrite restartLoop_skip by (by eapply unnamedAt_prefix).
  simpl. rewrite Hst at 1. rewrite list_lookup_middle by done.
  rewrite decide_False by done.
  rewrite Hsubs1 at 1. rewrite restartSubLoop_skip by done. simpl.
  rewrite decide_True by done. rewrite decide_False by (intros H; by apply H).
  rewrite HsubDep.
  rewrite writeRunStep_aliased by done.
  rewrite writeRunStep_aliased; [|done|done|by simpl; rewrite !length_alter].
  rewrite writeRunStep_aliased; [|done|done|by simpl; rewrite !length_alter].
  rewrite HstepDep. simpl. rewrite Hst, !alter_middle.
  fold (restartedGroup subDependency stepName g1).
  set (g1' := restartedGroup subDependency stepName g1).
  set (st4 := mkRestart _ _ false true _).
  assert (Hst4 : stepStatus st4 = (pre ++ [g1']) ++ mid ++ g2 :: post).
  { simpl. by rewrite <- app_assoc. }
  rewrite length_app. simpl length.
  replace (S (length pre)) with (length (pre ++ [g1']))
    by (rewrite length_app; simpl; lia).
  rewrite seq_app, <- cons_seq.
  rewrite restartLoop_skip by (by eapply unnamedAt_middle).
  assert (Hlook : stepStatus st4 !! (length (pre ++ [g1']) + length mid) = Some g2).
  { rewrite Hst4, app_assoc, <- length_app. by apply list_lookup_middle. }
  cbn [restartLoop]. rewrite Hlook.
  rewrite decide_False by done.
  rewrite Hsubs2 at 1. rewrite restartSubLoop_skip by done. cbn [restartSubLoop].
  rewrite decide_True by done. rewrite decide_False by (intros H; by apply H).
  rewrite HsubDep.
  unfold writeRunStep at 1. rewrite decide_False; [reflexivity|].
  apply Nat.le_ngt. etrans; [|apply Nat.le_add_r].
  unfold runSteps, st4. simpl rsRun. unfold setRunSteps. simpl.
  change (pre ++ g1' :: mid ++ g2 :: post) with (pre ++ [g1'] ++ (mid ++ g2 :: post)).
  rewrite app_assoc. by apply deleteStepStatus_length_prefix.
Qed.

End RepeatedSubstep.

(** X18. [RestartFromStep] panics with an index out of range when two
    groups have a failed substep of the given name and the restart of the
    first group deletes the status of the second: the loop goes on after
    the first substep, [run.Status.Steps] is by then the shorter list that
    [deleteStepStatus] returned, and the index of the second group is past
    its end. Nothing was stored before. *)
Theorem RestartFromStep_panics_on_repeated_substep
    (rangeMap : gmap string (list string) → list (string * list string))
    (NewValue : string → error + Node) (formatNode : Node → error + string)
    (fuel : nat) (cli : Cluster) (run : WorkflowRun.t) (stepName : string)
    (steps : list WorkflowStep.t)
    (pre mid post : list WorkflowStepStatus.t) (g1 g2 : WorkflowStepStatus.t)
    (spre1 spost1 spre2 spost2 : list StepStatus.t) (sub1 sub2 : StepStatus.t)
    (subDependency stepDependency : list string) :
  let mode := WorkflowRunStatus.Mode (WorkflowRun.Status run) in
  stepName ≠ "" →
  (declaredSteps cli run).1 = inr steps →
  WorkflowRunStatus.Steps (WorkflowRun.Status run) = pre ++ g1 :: mid ++ g2 :: post →
  unnamed stepName pre →
  unnamed stepName mid →
  WorkflowStepStatus.Name g1 ≠ stepName →
  WorkflowStepStatus.Name g2 ≠ stepName →
  WorkflowStepStatus.SubStepsStatus g1 = spre1 ++ sub1 :: spost1 →
  stepName ∉ (StepStatus.Name <$> spre1) →
  StepStatus.Name sub1 = stepName →
  StepStatus.Phase sub1 = WorkflowStepPhaseFailed →
  WorkflowStepStatus.SubStepsStatus g2 = spre2 ++ sub2 :: spost2 →
  stepName ∉ (StepStatus.Name <$> spre2) →
  StepStatus.Name sub2 = stepName →
  StepStatus.Phase sub2 = WorkflowStepPhaseFailed →
  getStepDependency rangeMap fuel steps stepName
    (bool_decide (ModeSubSteps mode = WorkflowModeDAG)) = Some subDependency →
  getStepDependency rangeMap fuel steps (WorkflowStepStatus.Name g1)
    (bool_decide (ModeSteps mode = WorkflowModeDAG)) = Some stepDependency →
  Forall (fun e => WorkflowStepStatus.Name e ∈ stepDependency) (mid ++ g2 :: post) →
  ∃ cli' run',
    RestartFromStep rangeMap NewValue formatNode fuel cli run stepName
    = (Panicked, cli', run')
    ∧ runs cli' = runs cli ∧ configMaps cli' = configMaps cli.
Proof.
  intros mode Hname Hdecl Hst Hpre Hmid Hg1 Hg2 Hsubs1 Hspre1 Hsub1 Hphase1
    Hsubs2 Hspre2 Hsub2 Hphase2 HsubDep HstepDep Hgone.
  pose proof (cleared_status_Steps (WorkflowRun.Status run)) as Hsteps.
  pose proof (cleared_status_cleared (WorkflowRun.Status run))
    as (_ & _ & _ & _ & _ & Hmode).
  rewrite RestartFromStep_declared by done.
  destruct (declaredSteps cli run) as [[e|steps'] cli1] eqn:Hd; [discriminate|].
  simpl in Hdecl. injection Hdecl as ->.
  apply declaredSteps_stores in Hd as [Hr Hcm].
  unfold restartFrom.
  set (st := mkRestart _ _ true false []).
  destruct (restartLoop_repeated_substep rangeMap fuel steps stepName
              (WorkflowRunStatus.Mode
                 (WorkflowRun.Status
                    (WorkflowRun.with_Status (clearedStatus (WorkflowRun.Status run)) run)))
              st pre mid post g1 g2 spre1 spost1 spre2 spost2 sub1 sub2
              subDependency stepDependency) as [st' Hloop]; try done.
  { simpl. by rewrite Hsteps. }
  { simpl. by rewrite Hmode. }
  { simpl. by rewrite Hmode. }
  subst st. cbn [stepStatus] in Hloop. rewrite Hloop. by eexists _, _.
Qed.

Lemma RestartFromStep_panics_on_repeated_substep_witness :
  ∃ cli' run',
    RestartFromStep keyOrder exampleNewValue exampleFormat 0
      (exampleCluster repeatedStatus) (exampleRun repeatedSteps repeatedStatus) "x"
    = (Panicked, cli', run')
    ∧ runs cli' = runs (exampleCluster repeatedStatus)
    ∧ configMaps cli' = configMaps (exampleCluster repeatedStatus).
Proof.
  apply (RestartFromStep_panics_on_repeated_substep keyOrder exampleNewValue exampleFormat 0
           (exampleCluster repeatedStatus) (exampleRun repeatedSteps repeatedStatus) "x"
           repeatedSteps [] [] []
           (WorkflowStepStatus.mk
              (exampleStatus "g1" "step-group" WorkflowStepPhaseFailed "Execute")
              [exampleStatus "x" "apply" WorkflowStepPhaseFailed "Execute"])
           (WorkflowStepStatus.mk
              (exampleStatus "g2" "step-group" WorkflowStepPhaseFailed "Execute")
              [exampleStatus "x" "apply" WorkflowStepPhaseFailed "Execute"])
           [] [] [] []
           (exampleStatus "x" "apply" WorkflowStepPhaseFailed "Execute")
           (exampleStatus "x" "apply" WorkflowStepPhaseFailed "Execute")
           [] ["g2"]); try done.
  - constructor.
  - constructor.
  - simpl. apply not_elem_of_nil.
  - simpl. apply not_elem_of_nil.
  - repeat constructor.
Defined.

(** ** What [clearContextVars] keeps *)

Lemma keptElements_filter (outputs : list string) (elts : list Decl) :
  keptElements outputs elts
  = List.filter (fun decl =>
                   match decl with
                   | Field label _ => negb (stringsContain outputs (fieldLabel label))
                   | OtherDecl _ => false
                   end) elts.
Proof.
  unfold keptElements.
  rewrite (foldl_keep _ (fun decl =>
                           match decl with
                           | Field label _ => negb (stringsContain outputs (fieldLabel label))
                           | OtherDecl _ => false
                           end)); [done|].
  intros acc [label value|text]; [|done].
  by destruct (stringsContain outputs (fieldLabel label)).
Qed.

Lemma stringsContain_same (items items' : list string) (source : string) :
  (∀ x, x ∈ items ↔ x ∈ items') →
  stringsContain items source = stringsContain items' source.
Proof.
  intros Hsame. destruct (stringsContain items' source) eqn:Hc.
  - apply stringsContain_true. apply Hsame. by apply stringsContain_true.
  - apply stringsContain_false. rewrite Hsame. by apply stringsContain_false.
Qed.

Lemma filter_bool_ext {A : Type} (p q : A → bool) (l : list A) :
  (∀ x, p x = q x) → List.filter p l = List.filter q l.
Proof.
  intros Hpq. induction l as [|x l IH]; simpl; [done|]. by rewrite Hpq, IH.
Qed.

Lemma keptElements_same (outputs outputs' : list string) (elts : list Decl) :
  (∀ x, x ∈ outputs ↔ x ∈ outputs') →
  keptElements outputs elts = keptElements outputs' elts.
Proof.
  intros Hsame. rewrite !keptElements_filter. apply filter_bool_ext.
  intros [label value|text]; [|done]. by rewrite (stringsContain_same _ _ _ Hsame).
Qed.

Lemma outputToClear_same (steps : list WorkflowStep.t) (stepName : string)
    (dependency dependency' : list string) (label : string) :
  (∀ x, x ∈ dependency ↔ x ∈ dependency') →
  outputToClear steps stepName dependency label
  ↔ outputToClear steps stepName dependency' label.
Proof.
  intros Hsame. unfold outputToClear.
  split; intros (b & Hb & Hname & Hout); exists b; rewrite ?Hsame in *;
    (split; [done|]); (split; [|done]); destruct Hname as [H|H]; auto;
    right; by apply Hsame.
Qed.

(** X19. What [clearContextVars] does to the declarations of a struct
    literal, beyond the fields it clears. A declaration that is not a field
    (an embedding, an ellipsis, a comment) is never kept. Clearing again
    what was kept keeps all of it. A longer dependency list keeps a sublist
    of what a shorter one keeps. And only the names in [dependency] count,
    not their order or how often they occur: two lists with the same names
    give the same result. *)
Theorem clearContextVars_keeps_fields_only (formatNode : Node → error + string)
    (steps : list WorkflowStep.t) (elts : list Decl) (stepName : string)
    (dependency : list string) :
  let kept := keptElements (clearedOutputs steps stepName dependency) elts in
  clearContextVars formatNode steps (StructLit elts) stepName dependency
  = formatNode (StructLit kept)
  ∧ (∀ text, OtherDecl text ∉ kept)
  ∧ clearContextVars formatNode steps (StructLit kept) stepName dependency
    = formatNode (StructLit kept)
  ∧ (∀ more,
       sublist (keptElements (clearedOutputs steps stepName (dependency ++ more)) elts) kept)
  ∧ (∀ dependency',
       (∀ x, x ∈ dependency ↔ x ∈ dependency') →
       clearContextVars formatNode steps (StructLit elts) stepName dependency'
       = clearContextVars formatNode steps (StructLit elts) stepName dependency).
Proof.
  intros kept. split; [done|]. split; [|split; [|split]].
  - intros text Hin. apply keptElements_elem in Hin as [_ (l & v & Heq & _)]. discriminate.
  - unfold clearContextVars. f_equal. f_equal. subst kept.
    rewrite !keptElements_filter. apply filter_bool_twice.
  - intros more. subst kept. rewrite !keptElements_filter.
    apply filter_bool_impl_sublist. intros [label value|text]; [|done].
    rewrite !negb_true_iff, !stringsContain_false, !clearedOutputs_elem.
    intros Hno (b & Hb & Hname & Hout). apply Hno. exists b. split; [done|]. split; [|done].
    destruct Hname as [H|H]; [by left|]. right. apply elem_of_app. by left.
  - intros dependency' Hsame. unfold clearContextVars. f_equal. f_equal.
    apply keptElements_same. intros x. rewrite !clearedOutputs_elem.
    symmetry. by apply outputToClear_same.
Qed.

(** ** A restart from a step, whatever the order of the dependents *)

Lemma deleteStepStatus_same (dependency dependency' : list string)
    (statuses : list WorkflowStepStatus.t) (stepName : string) (group : bool) :
  (∀ x, x ∈ dependency ↔ x ∈ dependency') →
  deleteStepStatus dependency statuses stepName group
  = deleteStepStatus dependency' statuses stepName group.
Proof.
  intros Hsame. rewrite !deleteStepStatus_filter. apply filter_bool_ext.
  intros e. by rewrite (stringsContain_same _ _ _ Hsame).
Qed.

Lemma deleteSubStepStatus_same (dependency dependency' : list string)
    (subs : list StepStatus.t) (stepName : string) :
  (∀ x, x ∈ dependency ↔ x ∈ dependency') →
  deleteSubStepStatus dependency subs stepName
  = deleteSubStepStatus dependency' subs stepName.
Proof.
  intros Hsame. rewrite !deleteSubStepStatus_filter. apply filter_bool_ext.
  intros e. by rewrite (stringsContain_same _ _ _ Hsame).
Qed.

Lemma restartContext_same (NewValue : string → error + Node)
    (formatNode : Node → error + string) (c : Cluster) (r : WorkflowRun.t)
    (steps : list WorkflowStep.t) (stepName : string) (dependency dependency' : list string) :
  (∀ x, x ∈ dependency ↔ x ∈ dependency') →
  restartContext NewValue formatNode c r steps stepName dependency
  = restartContext NewValue formatNode c r steps stepName dependency'.
Proof.
  intros Hsame. unfold restartContext.
  destruct (WorkflowRunStatus.ContextBackend _); [|done].
  destruct (GetConfigMap _ c) as [[e|cm] c1]; [done|].
  destruct (NewValue _) as [e|v]; [done|].
  replace (clearContextVars formatNode steps v stepName dependency')
    with (clearContextVars formatNode steps v stepName dependency); [done|].
  unfold clearContextVars. destruct v as [elts|text]; [|done].
  f_equal. f_equal. apply keptElements_same. intros x.
  rewrite !clearedOutputs_elem. by apply outputToClear_same.
Qed.

Lemma clearContextVars_same (formatNode : Node → error + string)
    (steps : list WorkflowStep.t) (v : Node) (stepName : string)
    (dependency dependency' : list string) :
  (∀ x, x ∈ dependency ↔ x ∈ dependency') →
  clearContextVars formatNode steps v stepName dependency
  = clearContextVars formatNode steps v stepName dependency'.
Proof.
  intros Hsame. unfold clearContextVars. destruct v as [elts|text]; [|done].
  f_equal. f_equal. apply keptElements_same. intros x.
  rewrite !clearedOutputs_elem. by apply outputToClear_same.
Qed.

(** X20. The dependents of a step are collected in an order that Go leaves
    open, and some of them more than once. What [RestartFromStep] does with
    the list does not depend on either: two lists with the same names make
    [deleteStepStatus] and [deleteSubStepStatus] return the same statuses,
    [clearContextVars] the same text and the clearing of the context object
    the same cluster, and [mergeUniqueStringSlice] of lists with the same
    names has the same names. *)
Theorem dependents_order_is_immaterial (dependency dependency' : list string) :
  (∀ x, x ∈ dependency ↔ x ∈ dependency') →
  (∀ statuses stepName group,
     deleteStepStatus dependency statuses stepName group
     = deleteStepStatus dependency' statuses stepName group)
  ∧ (∀ subs stepName,
       deleteSubStepStatus dependency subs stepName
       = deleteSubStepStatus dependency' subs stepName)
  ∧ (∀ formatNode steps v stepName,
       clearContextVars formatNode steps v stepName dependency
       = clearContextVars formatNode steps v stepName dependency')
  ∧ (∀ NewValue formatNode c r steps stepName,
       restartContext NewValue formatNode c r steps stepName dependency
       = restartContext NewValue formatNode c r steps stepName dependency')
  ∧ (∀ a a', (∀ x, x ∈ a ↔ x ∈ a') →
       ∀ x, x ∈ mergeUniqueStringSlice a dependency
            ↔ x ∈ mergeUniqueStringSlice a' dependency').
Proof.
  intros Hsame. split; [|split; [|split; [|split]]].
  - intros statuses stepName group. by apply deleteStepStatus_same.
  - intros subs stepName. by apply deleteSubStepStatus_same.
  - intros formatNode steps v stepName. by apply clearContextVars_same.
  - intros NewValue formatNode c r steps stepName. by apply restartContext_same.
  - intros a a' Ha x. rewrite !mergeUniqueStringSlice_elem. by rewrite Ha, Hsame.
Qed.

Lemma dependents_order_is_immaterial_witness :
  deleteStepStatus ["c"; "d"] (WorkflowRunStatus.Steps scenario5Status) "b" false
  = deleteStepStatus ["d"; "c"; "d"] (WorkflowRunStatus.Steps scenario5Status) "b" false
  ∧ ∀ x, x ∈ mergeUniqueStringSlice ["a"] ["c"; "d"]
         ↔ x ∈ mergeUniqueStringSlice ["a"; "a"] ["d"; "c"; "d"].
Proof.
  assert (Hsame : ∀ x : string, x ∈ ["c"; "d"] ↔ x ∈ ["d"; "c"; "d"]).
  { intros x. rewrite !elem_of_cons, elem_of_nil. tauto. }
  destruct (dependents_order_is_immaterial ["c"; "d"] ["d"; "c"; "d"] Hsame)
    as (Hdel & _ & _ & _ & Hmerge).
  split; [apply Hdel|]. apply Hmerge.
  intros x. rewrite !elem_of_cons, elem_of_nil. tauto.
Defined.

(** ** [Generate], whatever the generators of the step types *)

Lemma generateStepID_rand (status : WorkflowRunStatus.t) (name : string) (r : Rand) :
  draws (generateStepID status name r).2 = draws r
  ∧ ∃ k, taken (generateStepID status name r).2 = taken r + 10 * k.
Proof.
  unfold generateStepID. destruct (recordedStepID _ _); simpl.
  - split; [done|]. exists 0. lia.
  - split; [done|]. exists 1. lia.
Qed.

Lemma generateSubStepID_rand (status : WorkflowRunStatus.t) (name parent : string)
    (r : Rand) :
  draws (generateSubStepID status name parent r).2 = draws r
  ∧ ∃ k, taken (generateSubStepID status name parent r).2 = taken r + 10 * k.
Proof.
  unfold generateSubStepID. destruct (recordedSubStepID _ _ _); simpl.
  - split; [done|]. exists 0. lia.
  - split; [done|]. exists 1. lia.
Qed.

Section GenerateAny.

Variable TaskRunner : Type.
Variable GetTaskGenerator :
  string → error + (WorkflowStep.t → TaskGeneratorOptions TaskRunner → error + TaskRunner).
Variable wr : WorkflowRun.t.

Lemma generateSubTaskRunners_any (parent : string) (subSteps : list WorkflowStepBase.t)
    (acc : list TaskRunner) (r : Rand) :
  let '(res, r') :=
    generateSubTaskRunners TaskRunner GetTaskGenerator wr parent subSteps acc r in
  draws r' = draws r ∧ (∃ k, taken r' = taken r + 10 * k)
  ∧ match res with
    | inr tasks =>
        ∃ new, tasks = acc ++ new
          ∧ Forall2 (fun sub t =>
                       ∃ id,
                         assignedID (recordedSubStepID
                                       (WorkflowRunStatus.Steps (WorkflowRun.Status wr))
                                       (WorkflowStepBase.Name sub) parent) id
                         ∧ generateSubTaskRunner TaskRunner GetTaskGenerator wr sub
                             (mkOptions _ id [] "") = inr t)
                    subSteps new
    | inl err =>
        ∃ sub id, sub ∈ subSteps
          ∧ generateSubTaskRunner TaskRunner GetTaskGenerator wr sub (mkOptions _ id [] "")
            = inl err
    end.
Proof.
  revert acc r. induction subSteps as [|sub rest IH]; intros acc r; simpl.
  - split; [done|]. split; [exists 0; lia|]. exists []. split; [by rewrite app_nil_r|].
    constructor.
  - pose proof (generateSubStepID_assigned (WorkflowRun.Status wr)
                  (WorkflowStepBase.Name sub) parent r) as Hid.
    pose proof (generateSubStepID_rand (WorkflowRun.Status wr)
                  (WorkflowStepBase.Name sub) parent r) as (Hd & k & Hk).
    destruct (generateSubStepID _ _ _ r) as [id r1]. simpl in Hid, Hd, Hk.
    destruct (generateSubTaskRunner _ _ wr sub _) as [err|t] eqn:Hgen.
    + split; [done|]. split; [eauto|]. exists sub, id. split; [left | done].
    + specialize (IH (acc ++ [t]) r1).
      destruct (generateSubTaskRunners _ _ wr parent rest (acc ++ [t]) r1) as [res r'].
      destruct IH as (Hd' & (k' & Hk') & Hres).
      split; [congruence|]. split; [exists (k + k'); lia|].
      destruct res as [err|tasks].
      * destruct Hres as (s & i & Hin & He). exists s, i. split; [by right | done].
      * destruct Hres as (new & -> & Hall). exists (t :: new).
        rewrite <- app_assoc. split; [done|]. constructor; [eauto | done].
Qed.

Lemma generateTaskRunner_any (step : WorkflowStep.t) (id : string) (r : Rand) :
  let '(res, r') :=
    generateTaskRunner TaskRunner GetTaskGenerator wr step (mkOptions _ id [] "") r in
  draws r' = draws r ∧ (∃ k, taken r' = taken r + 10 * k)
  ∧ match res with
    | inr t =>
        ∃ options,
          callGenerator TaskRunner GetTaskGenerator step options = inr t
          ∧ optID _ options = id
          ∧ (WorkflowStep.Type_ step = WorkflowStepTypeStepGroup →
             length (SubTaskRunners _ options) = length (WorkflowStep.SubSteps step))
          ∧ (WorkflowStep.Type_ step ≠ WorkflowStepTypeStepGroup →
             options = mkOptions _ id [] "")
    | inl err =>
        (∃ options, optID _ options = id
           ∧ callGenerator TaskRunner GetTaskGenerator step options = inl err)
        ∨ (WorkflowStep.Type_ step = WorkflowStepTypeStepGroup
           ∧ ∃ sub sid, sub ∈ WorkflowStep.SubSteps step
               ∧ generateSubTaskRunner TaskRunner GetTaskGenerator wr sub
                   (mkOptions _ sid [] "") = inl err)
    end.
Proof.
  unfold generateTaskRunner.
  destruct (decide (WorkflowStep.Type_ step = WorkflowStepTypeStepGroup)) as [Hg|Hg].
  - pose proof (generateSubTaskRunners_any (WorkflowStep.Name step)
                  (WorkflowStep.SubSteps step) [] r) as Hsubs.
    destruct (generateSubTaskRunners _ _ wr _ _ [] r) as [[err|subs] r'].
    + destruct Hsubs as (Hd & Hk & Hres). split; [done|]. split; [done|]. right. eauto.
    + destruct Hsubs as (Hd & Hk & new & -> & Hall). split; [done|]. split; [done|].
      destruct (callGenerator _ _ step _) as [err|t] eqn:Hcall.
      * left. eexists. split; [|exact Hcall]. done.
      * eexists. split; [exact Hcall|]. split; [done|]. split; [|done].
        intros _. simpl. symmetry. by eapply Forall2_length.
  - split; [done|]. split; [exists 0; lia|].
    destruct (callGenerator _ _ step _) as [err|t] eqn:Hcall.
    + left. eexists. split; [|exact Hcall]. done.
    + eexists. split; [exact Hcall|]. done.
Qed.

Lemma generateTasks_any (steps : list WorkflowStep.t) (acc : list TaskRunner) (r : Rand) :
  let '(res, r') := generateTasks TaskRunner GetTaskGenerator wr steps acc r in
  draws r' = draws r ∧ (∃ k, taken r' = taken r + 10 * k)
  ∧ match res with
    | inr tasks =>
        ∃ new, tasks = acc ++ new
          ∧ Forall2 (fun step t =>
                       ∃ options,
                         callGenerator TaskRunner GetTaskGenerator step options = inr t
                         ∧ assignedID (recordedStepID
                                         (WorkflowRunStatus.Steps (WorkflowRun.Status wr))
                                         (WorkflowStep.Name step))
                                      (optID _ options)
                         ∧ (WorkflowStep.Type_ step = WorkflowStepTypeStepGroup →
                            length (SubTaskRunners _ options)
                            = length (WorkflowStep.SubSteps step))
                         ∧ (WorkflowStep.Type_ step ≠ WorkflowStepTypeStepGroup →
                            SubTaskRunners _ options = []))
                    steps new
    | inl err =>
        ∃ step, step ∈ steps
          ∧ ((∃ options, callGenerator TaskRunner GetTaskGenerator step options = inl err)
             ∨ (WorkflowStep.Type_ step = WorkflowStepTypeStepGroup
                ∧ ∃ sub sid, sub ∈ WorkflowStep.SubSteps step
                    ∧ generateSubTaskRunner TaskRunner GetTaskGenerator wr sub
                        (mkOptions _ sid [] "") = inl err))
    end.
Proof.
  revert acc r. induction steps as [|step rest IH]; intros acc r; simpl.
  - split; [done|]. split; [exists 0; lia|]. exists []. split; [by rewrite app_nil_r|].
    constructor.
  - pose proof (generateStepID_assigned (WorkflowRun.Status wr) (WorkflowStep.Name step) r)
      as Hid.
    pose proof (generateStepID_rand (WorkflowRun.Status wr) (WorkflowStep.Name step) r)
      as (Hd & k & Hk).
    destruct (generateStepID _ _ r) as [id r1]. simpl in Hid, Hd, Hk.
    pose proof (generateTaskRunner_any step id r1) as Hrun.
    destruct (generateTaskRunner _ _ wr step _ r1) as [[err|t] r2].
    + destruct Hrun as (Hd' & (k' & Hk') & Hres).
      split; [congruence|]. split; [exists (k + k'); lia|].
      exists step. split; [left|]. destruct Hres as [(options & _ & He)|He]; eauto.
    + destruct Hrun as (Hd' & (k' & Hk') & options & Hcall & Hopt & Hgroup & Hplain).
      specialize (IH (acc ++ [t]) r2).
      destruct (generateTasks _ _ wr rest (acc ++ [t]) r2) as [res r'].
      destruct IH as (Hd'' & (k'' & Hk'') & Hres).
      split; [congruence|]. split; [exists (k + k' + k''); lia|].
      destruct res as [err|tasks].
      * destruct Hres as (s & Hin & He). exists s. split; [by right | done].
      * destruct Hres as (new & -> & Hall). exists (t :: new).
        rewrite <- app_assoc. split; [done|]. constructor; [|done].
        exists options. split; [done|]. split; [by rewrite Hopt|]. split; [done|].
        intros Hne. by rewrite (Hplain Hne).
Qed.

Lemma generateSubTaskRunners_recorded_ids (parent : string)
    (subSteps : list WorkflowStepBase.t) (acc : list TaskRunner) (r r0 : Rand) :
  Forall (fun sub =>
            is_Some (recordedSubStepID (WorkflowRunStatus.Steps (WorkflowRun.Status wr))
                       (WorkflowStepBase.Name sub) parent)) subSteps →
  generateSubTaskRunners TaskRunner GetTaskGenerator wr parent subSteps acc r
  = ((generateSubTaskRunners TaskRunner GetTaskGenerator wr parent subSteps acc r0).1, r).
Proof.
  intros Hall. revert acc r0.
  induction Hall as [|sub rest [id Hid] Hrest IH]; intros acc r0.
  - done.
  - simpl. unfold generateSubStepID. rewrite Hid.
    destruct (generateSubTaskRunner _ _ wr sub _); [done|]. apply IH.
Qed.

Lemma generateTasks_recorded_ids (steps : list WorkflowStep.t) (acc : list TaskRunner)
    (r r0 : Rand) :
  Forall (fun step =>
            is_Some (recordedStepID (WorkflowRunStatus.Steps (WorkflowRun.Status wr))
                       (WorkflowStep.Name step))
            ∧ (WorkflowStep.Type_ step = WorkflowStepTypeStepGroup →
               Forall (fun sub =>
                         is_Some (recordedSubStepID
                                    (WorkflowRunStatus.Steps (WorkflowRun.Status wr))
                                    (WorkflowStepBase.Name sub) (WorkflowStep.Name step)))
                      (WorkflowStep.SubSteps step))) steps →
  generateTasks TaskRunner GetTaskGenerator wr steps acc r
  = ((generateTasks TaskRunner GetTaskGenerator wr steps acc r0).1, r).
Proof.
  intros Hall. revert acc r0.
  induction Hall as [|step rest [[id Hid] Hsubs] Hrest IH]; intros acc r0.
  - done.
  - simpl. unfold generateStepID. rewrite Hid.
    assert (Hrun : generateTaskRunner TaskRunner GetTaskGenerator wr step
                     (mkOptions _ id [] "") r
                   = ((generateTaskRunner TaskRunner GetTaskGenerator wr step
                         (mkOptions _ id [] "") r0).1, r)).
    { unfold generateTaskRunner. destruct (decide _) as [Hg|Hg]; [|done].
      rewrite (generateSubTaskRunners_recorded_ids _ _ [] r r0 (Hsubs Hg)).
      destruct (generateSubTaskRunners _ _ wr _ _ [] r0) as [[err|subs] r1]; done. }
    rewrite Hrun.
    destruct (generateTaskRunner _ _ wr step _ r0) as [[err|t] r1]; [done|]. simpl.
    apply IH.
Qed.

End GenerateAny.

(** X21. [Generate], whatever the generators of the step types do. For a
    run with no steps of its own it panics. Otherwise it returns tasks or an
    error, never both. The tasks are as many as the steps and in their
    order, each made by the generator of the type of its step, which was
    handed the identifier recorded for the step, or a fresh one, and for a
    group as many runners as the group has substeps. An error is the one of
    the generator of a step or of a substep of a group, or of the lookup of
    its type. The random source is drawn from ten characters at a time. *)
Theorem Generate_tasks_or_error (TaskRunner : Type)
    (GetTaskGenerator :
       string → error + (WorkflowStep.t → TaskGeneratorOptions TaskRunner → error + TaskRunner))
    (wr : WorkflowRun.t) (r : Rand) :
  match WorkflowSpec (WorkflowRun.Spec wr) with
  | None => Generate TaskRunner GetTaskGenerator wr r = None
  | Some steps =>
      ∃ res r',
        Generate TaskRunner GetTaskGenerator wr r = Some (res, r')
        ∧ draws r' = draws r ∧ (∃ k, taken r' = taken r + 10 * k)
        ∧ match res with
          | inr tasks =>
              Forall2 (fun step t =>
                         ∃ options,
                           callGenerator TaskRunner GetTaskGenerator step options = inr t
                           ∧ assignedID (recordedStepID
                                           (WorkflowRunStatus.Steps (WorkflowRun.Status wr))
                                           (WorkflowStep.Name step))
                                        (optID _ options)
                           ∧ (WorkflowStep.Type_ step = WorkflowStepTypeStepGroup →
                              length (SubTaskRunners _ options)
                              = length (WorkflowStep.SubSteps step))
                           ∧ (WorkflowStep.Type_ step ≠ WorkflowStepTypeStepGroup →
                              SubTaskRunners _ options = []))
                      steps tasks
          | inl err =>
              ∃ step, step ∈ steps
                ∧ ((∃ options,
                      callGenerator TaskRunner GetTaskGenerator step options = inl err)
                   ∨ (WorkflowStep.Type_ step = WorkflowStepTypeStepGroup
                      ∧ ∃ sub sid, sub ∈ WorkflowStep.SubSteps step
                          ∧ generateSubTaskRunner TaskRunner GetTaskGenerator wr sub
                              (mkOptions _ sid [] "") = inl err))
          end
  end.
Proof.
  unfold Generate. destruct (WorkflowSpec (WorkflowRun.Spec wr)) as [steps|]; [|done].
  pose proof (generateTasks_any TaskRunner GetTaskGenerator wr steps [] r) as H.
  destruct (generateTasks _ _ wr steps [] r) as [res r'].
  destruct H as (Hd & Hk & Hres). exists res, r'. split; [done|]. split; [done|].
  split; [done|]. destruct res as [err|tasks]; [done|].
  by destruct Hres as (new & -> & Hall).
Qed.

(** X22. When the status of the run records an identifier for every step of
    the run, and for every substep of every group, [Generate] draws nothing
    from the random source, and what it returns does not depend on it:
    generating the tasks of such a run again gives the same tasks. *)
Theorem Generate_recorded_is_deterministic (TaskRunner : Type)
    (GetTaskGenerator :
       string → error + (WorkflowStep.t → TaskGeneratorOptions TaskRunner → error + TaskRunner))
    (wr : WorkflowRun.t) (steps : list WorkflowStep.t) :
  WorkflowSpec (WorkflowRun.Spec wr) = Some steps →
  Forall (fun step =>
            is_Some (recordedStepID (WorkflowRunStatus.Steps (WorkflowRun.Status wr))
                       (WorkflowStep.Name step))
            ∧ (WorkflowStep.Type_ step = WorkflowStepTypeStepGroup →
               Forall (fun sub =>
                         is_Some (recordedSubStepID
                                    (WorkflowRunStatus.Steps (WorkflowRun.Status wr))
                                    (WorkflowStepBase.Name sub) (WorkflowStep.Name step)))
                      (WorkflowStep.SubSteps step))) steps →
  ∃ res, ∀ r, Generate TaskRunner GetTaskGenerator wr r = Some (res, r).
Proof.
  intros Hspec Hall. unfold Generate. rewrite Hspec.
  exists (generateTasks TaskRunner GetTaskGenerator wr steps [] (mkRand (fun _ => 0) 0)).1.
  intros r. f_equal. by apply generateTasks_recorded_ids.
Qed.

Lemma Generate_recorded_is_deterministic_witness :
  ∃ res, ∀ r, Generate recordedTask recorder (exampleRun crossSteps crossStatus) r
              = Some (res, r).
Proof.
  apply (Generate_recorded_is_deterministic recordedTask recorder
           (exampleRun crossSteps crossStatus) crossSteps eq_refl).
  repeat constructor; try (by eexists); intros _; repeat constructor; by eexists.
Defined.

(** ** Terminate, then restart from a step *)

Lemma terminated_unnamed (stepName : string) (l l' : list WorkflowStepStatus.t) :
  Forall2 (fun step step' =>
             terminatedEntry (WorkflowStepStatus.StepStatus_ step)
                             (WorkflowStepStatus.StepStatus_ step')
             ∧ Forall2 terminatedEntry (WorkflowStepStatus.SubStepsStatus step)
                                       (WorkflowStepStatus.SubStepsStatus step')) l l' →
  unnamed stepName l → unnamed stepName l'.
Proof.
  unfold unnamed. induction 1 as [|step step' l l' [Hs Hsubs] Hl IH]; [done|].
  rewrite !Forall_cons. intros [[Hname Hsub] Hrest]. split; [|by apply IH].
  destruct Hs as (_ & Hn & _). unfold WorkflowStepStatus.Name in *. rewrite Hn.
  split; [done|].
  replace (StepStatus.Name <$> WorkflowStepStatus.SubStepsStatus step')
    with (StepStatus.Name <$> WorkflowStepStatus.SubStepsStatus step); [done|].
  clear -Hsubs. induction Hsubs as [|sub sub' k k' (_ & Hn & _) Hk IH]; [done|].
  rewrite !fmap_cons. by rewrite Hn, IH.
Qed.

(** X23. A run that was terminated can be restarted from any step that was
    running or had failed when it was terminated. [TerminateWorkflow]
    leaves such a step failed in the run that it hands back, after a patch
    as after an error, so [RestartFromStep] of that run, for the first
    status of that name, does not refuse it: it clears Terminated in memory,
    deletes the statuses of the step and of its dependents from the
    terminated run, and when it returns nil that status is stored. The
    declared steps and the mode are the ones of the run handed back. *)
Theorem restart_after_terminate
    (rangeMap : gmap string (list string) → list (string * list string))
    (NewValue : string → error + Node) (formatNode : Node → error + string)
    (fuel : nat) (cli cli2 : Cluster) (run : WorkflowRun.t) (steps : list WorkflowStep.t)
    (pre post : list WorkflowStepStatus.t) (s : WorkflowStepStatus.t) (dep : list string) :
  let stepName := WorkflowStepStatus.Name s in
  let terminated := (TerminateWorkflow cli run).2 in
  stepName ≠ "" →
  WorkflowRunStatus.Steps (WorkflowRun.Status run) = pre ++ s :: post →
  unnamed stepName pre →
  WorkflowStepStatus.Phase s = WorkflowStepPhaseRunning
  ∨ WorkflowStepStatus.Phase s = WorkflowStepPhaseFailed →
  (declaredSteps cli2 terminated).1 = inr steps →
  getStepDependency rangeMap fuel steps stepName
    (bool_decide (ModeSteps (WorkflowRunStatus.Mode (WorkflowRun.Status terminated))
                  = WorkflowModeDAG)) = Some dep →
  ∃ out cli' run',
    RestartFromStep rangeMap NewValue formatNode fuel cli2 terminated stepName
    = (out, cli', run')
    ∧ out ≠ Diverged
    ∧ WorkflowRunStatus.Terminated (WorkflowRun.Status terminated) = true
    ∧ WorkflowRunStatus.Terminated (WorkflowRun.Status run') = false
    ∧ (∀ e, e ∈ WorkflowRunStatus.Steps (WorkflowRun.Status run') ↔
            e ∈ WorkflowRunStatus.Steps (WorkflowRun.Status terminated)
            ∧ WorkflowStepStatus.Name e ≠ stepName
            ∧ (WorkflowStepStatus.Name e ∉ dep))
    ∧ (out = Returned None →
       runs cli' !! runKey terminated = Some (WorkflowRun.Status run')).
Proof.
  intros stepName terminated Hname Hst Hpre Hphase Hdecl Hdep.
  assert (Hleft : WorkflowRunStatus.Steps (WorkflowRun.Status terminated)
                  = rangeUpdate terminateStep (pre ++ s :: post)
                  ∧ WorkflowRunStatus.Terminated (WorkflowRun.Status terminated) = true).
  { subst terminated. pose proof (TerminateWorkflow_left cli run) as H.
    destruct (TerminateWorkflow cli run) as [[err c1] run1]. simpl.
    destruct H as (H & Ht & _); [left; rewrite Hst; by destruct pre|].
    by rewrite H, Hst. }
  destruct Hleft as [Hleft Hterm].
  pose proof (terminateSteps_Forall2 (pre ++ s :: post)) as Hsteps.
  rewrite <- Hleft in Hsteps.
  clearbody terminated.
  apply Forall2_app_inv_l in Hsteps as (pre' & rest' & Hpre' & Hrest' & Heq).
  apply Forall2_cons_inv_l in Hrest' as (s' & post' & [Hs Hsubs] & Hpost' & ->).
  assert (Hname' : WorkflowStepStatus.Name s' = stepName).
  { destruct Hs as (_ & H & _). exact H. }
  assert (Hphase' : WorkflowStepStatus.Phase s' = WorkflowStepPhaseFailed).
  { destruct Hs as (_ & _ & _ & _ & _ & _ & Hrun & Hfail & _).
    destruct Hphase as [H|H]; [by destruct (Hrun H) | by destruct (Hfail H)]. }
  pose proof (terminated_unnamed stepName pre pre' Hpre' Hpre) as Hun.
  pose proof (cleared_status_Steps (WorkflowRun.Status terminated)) as Hcs.
  pose proof (cleared_status_cleared (WorkflowRun.Status terminated))
    as (Ht & _ & _ & _ & _ & Hcm).
  rewrite RestartFromStep_declared by done.
  destruct (declaredSteps cli2 terminated) as [[e|steps'] cli3]; [discriminate|].
  simpl in Hdecl. injection Hdecl as ->.
  destruct (restartFrom_failed_step rangeMap NewValue formatNode fuel cli3
              (WorkflowRun.with_Status (clearedStatus (WorkflowRun.Status terminated))
                 terminated)
              steps stepName pre' post' s' dep) as (out & c' & Hres & Hout & Hstored);
    try done.
  { simpl. by rewrite Hcs. }
  { simpl. by rewrite Hcm. }
  rewrite Hres. eexists out, c', _. split; [reflexivity|]. split; [done|]. simpl.
  split; [done|]. split; [done|]. split.
  - intros e. rewrite Hcs, deleteStepStatus_elem. intuition.
  - intros Hnil. by specialize (Hstored Hnil).
Qed.

Lemma restart_after_terminate_witness :
  let running :=
    WorkflowRunStatus.mk false false false None
      [ WorkflowStepStatus.mk (exampleStatus "a" "apply" WorkflowStepPhaseSucceeded "") [];
        WorkflowStepStatus.mk (exampleStatus "b" "apply" WorkflowStepPhaseRunning "") [] ]
      None (mkMode WorkflowModeStep WorkflowModeStep) in
  let terminated :=
    (TerminateWorkflow (exampleCluster running) (exampleRun scenario5Steps running)).2 in
  ∃ out cli' run',
    RestartFromStep keyOrder exampleNewValue exampleFormat 0
      (exampleCluster (WorkflowRun.Status terminated)) terminated "b"
    = (out, cli', run')
    ∧ WorkflowRunStatus.Terminated (WorkflowRun.Status run') = false
    ∧ WorkflowRunStatus.Steps (WorkflowRun.Status run')
      = [ WorkflowStepStatus.mk (exampleStatus "a" "apply" WorkflowStepPhaseSucceeded "") [] ].
Proof.
  intros running terminated.
  destruct (restart_after_terminate keyOrder exampleNewValue exampleFormat 0
              (exampleCluster running) (exampleCluster (WorkflowRun.Status terminated))
              (exampleRun scenario5Steps running) scenario5Steps
              [ WorkflowStepStatus.mk (exampleStatus "a" "apply" WorkflowStepPhaseSucceeded "") [] ]
              []
              (WorkflowStepStatus.mk (exampleStatus "b" "apply" WorkflowStepPhaseRunning "") [])
              ["c"; "d"] ltac:(done) eq_refl ltac:(by apply (bool_decide_unpack _))
              ltac:(by left) eq_refl eq_refl)
    as (out & cli' & run' & Heq & _ & _ & Ht & _ & _).
  exists out, cli', run'. split; [exact Heq|]. split; [exact Ht|].
  revert Heq. vm_compute. by intros [= _ _ <-].
Defined.

(** ** The messages of the operator *)

Lemma writeOutputF_announces (prefix : string) (wo : workflowRunOperator)
    (c : Cluster) (r : WorkflowRun.t) :
  WorkflowRun.Name r = WorkflowRun.Name (run wo) →
  let '(err, w) := writeOutputF (outputWriter wo) (prefix +:+ WorkflowRun.Name r +:+ "
") in
  announces prefix wo err (mkOperator c w r).
Proof.
  intros ->. unfold writeOutputF, announces.
  destruct (outputWriter wo) as [w|]; [|done].
  destruct (broken w) eqn:Hb; simpl; eauto.
Qed.

Lemma unchanged_announces (prefix : string) (wo : workflowRunOperator) (e : error)
    (c : Cluster) (r : WorkflowRun.t) :
  announces prefix wo (Some e) (mkOperator c (outputWriter wo) r).
Proof. unfold announces. simpl. destruct (outputWriter wo); eauto. Qed.

Lemma RestartWorkflow_Name
    (rangeMap : gmap string (list string) → list (string * list string))
    (NewValue : string → error + Node) (formatNode : Node → error + string)
    (fuel : nat) (c : Cluster) (r : WorkflowRun.t) (step : string) :
  WorkflowRun.Name (RestartWorkflow rangeMap NewValue formatNode fuel c r step).2
  = WorkflowRun.Name r.
Proof.
  unfold RestartWorkflow. destruct (decide (step ≠ "")) as [Hname|_].
  - rewrite RestartFromStep_declared by done.
    destruct (declaredSteps c r) as [[e|steps] c1]; [done|].
    pose proof (restartFrom_frame rangeMap NewValue formatNode fuel steps step c1
                  (WorkflowRun.with_Status (clearedStatus (WorkflowRun.Status r)) r)) as H.
    destruct (restartFrom _ _ _ _ c1 _ steps step) as [[out c2] r2].
    destruct H as (_ & _ & _ & H). by apply butSteps_fields in H as (H & _).
  - destruct (WorkflowRunStatus.ContextBackend _) as [name|].
    + destruct (GetConfigMap _ c) as [[e|cm] c1].
      * destruct (negb (IsNotFound e)); [done|]. simpl. by destruct (StatusUpdate _ c1).
      * destruct (DeleteConfigMap cm c1) as [[e|] c2]; [done|]. by destruct (StatusUpdate _ c2).
    + by destruct (StatusUpdate _ c).
Qed.

(** X24. The messages of the operator. [Suspend], [Resume], [Terminate] and
    [Restart] write their message, with the name of the run, exactly when
    they return nil and have a writer, and write nothing when they return an
    error; an operator without a writer stays without one. What [Terminate]
    leaves of the cluster and of the run is what [TerminateWorkflow] leaves,
    also when the error it returns is the one of the writer. [Rollback]
    writes nothing. *)
Theorem operator_messages
    (rangeMap : gmap string (list string) → list (string * list string))
    (NewValue : string → error + Node) (formatNode : Node → error + string)
    (fuel : nat) (wo : workflowRunOperator) (step : string) :
  (let '(err, wo') := Suspend wo in announces "Successfully suspend workflow: " wo err wo')
  ∧ (let '(err, wo') := Resume wo in announces "Successfully resume workflow: " wo err wo')
  ∧ (let '(err, wo') := Terminate wo in
     announces "Successfully terminate workflow: " wo err wo'
     ∧ (cli wo', run wo') = ((TerminateWorkflow (cli wo) (run wo)).1.2,
                             (TerminateWorkflow (cli wo) (run wo)).2))
  ∧ (let '(out, wo') := Restart rangeMap NewValue formatNode fuel wo step in
     match out with
     | Returned err => announces "Successfully restart workflow: " wo err wo'
     | _ => outputWriter wo' = outputWriter wo
     end)
  ∧ outputWriter (Rollback wo).2 = outputWriter wo.
Proof.
  split; [|split; [|split; [|split]]].
  - unfold Suspend.
    destruct (retryOnConflictWith _ _ _) as [[e|] [c r]] eqn:Hr;
      apply retryOnConflictWith_suspendOnce in Hr as (_ & _ & Hn & _); try done.
    + apply unchanged_announces.
    + pose proof (writeOutputF_announces "Successfully suspend workflow: " wo c r Hn) as H.
      by destruct (writeOutputF _ _) as [err w].
  - unfold Resume. destruct (WorkflowRunStatus.Terminated _).
    { destruct wo as [c w r]. apply (unchanged_announces _ (mkOperator c w r)). }
    destruct (WorkflowRunStatus.Suspend _).
    + pose proof (ResumeWorkflow_left (cli wo) (run wo)) as HL.
      destruct (ResumeWorkflow (cli wo) (run wo)) as [[[e|] c] r].
      * apply unchanged_announces.
      * destruct HL as (_ & _ & _ & Hn).
        pose proof (writeOutputF_announces "Successfully resume workflow: " wo c r Hn) as H.
        by destruct (writeOutputF _ _) as [err w].
    + pose proof (writeOutputF_announces "Successfully resume workflow: " wo (cli wo)
                    (run wo) eq_refl) as H.
      by destruct (writeOutputF _ _) as [err w].
  - unfold Terminate.
    pose proof (TerminateWorkflow_result (cli wo) (run wo)) as HR. cbv zeta in HR.
    destruct (TerminateWorkflow (cli wo) (run wo)) as [[[e|] c] r].
    + split; [apply unchanged_announces | done].
    + destruct HR as (_ & _ & stored & _ & Hr & _).
      assert (Hn : WorkflowRun.Name r = WorkflowRun.Name (run wo)) by (by rewrite Hr).
      pose proof (writeOutputF_announces "Successfully terminate workflow: " wo c r Hn)
        as H.
      simpl in *. destruct (writeOutputF _ _) as [err w]. done.
  - unfold Restart.
    pose proof (RestartWorkflow_Name rangeMap NewValue formatNode fuel (cli wo) (run wo) step)
      as Hn.
    destruct (RestartWorkflow _ _ _ _ _ _ _) as [[out c] r]. simpl in Hn.
    destruct out as [[e|]| |]; try done.
    + apply unchanged_announces.
    + pose proof (writeOutputF_announces "Successfully restart workflow: " wo c r Hn) as H.
      by destruct (writeOutputF _ _) as [err w].
  - done.
Qed.

(** ** The identifiers after a restart from a step *)

(** X25. [RestartFromStep] and [Generate] together, for a failed step of a
    run whose statuses have names of their own. Every step whose status the
    restart keeps is generated again with the identifier it had, and so are
    its substeps; the restarted step and its dependents, whose statuses were
    deleted, get fresh identifiers, and so do their substeps. *)
Theorem ids_after_restart
    (rangeMap : gmap string (list string) → list (string * list string))
    (NewValue : string → error + Node) (formatNode : Node → error + string)
    (fuel : nat) (cli : Cluster) (run : WorkflowRun.t) (stepName : string)
    (steps : list WorkflowStep.t) (pre post : list WorkflowStepStatus.t)
    (s : WorkflowStepStatus.t) (dep : list string) :
  stepName ≠ "" →
  (declaredSteps cli run).1 = inr steps →
  WorkflowRunStatus.Steps (WorkflowRun.Status run) = pre ++ s :: post →
  unnamed stepName pre →
  WorkflowStepStatus.Name s = stepName →
  WorkflowStepStatus.Phase s = WorkflowStepPhaseFailed →
  NoDup (WorkflowStepStatus.Name <$> WorkflowRunStatus.Steps (WorkflowRun.Status run)) →
  getStepDependency rangeMap fuel steps stepName
    (bool_decide (ModeSteps (WorkflowRunStatus.Mode (WorkflowRun.Status run))
                  = WorkflowModeDAG)) = Some dep →
  let restarted :=
    WorkflowRun.Status
      (RestartFromStep rangeMap NewValue formatNode fuel cli run stepName).2 in
  (∀ e r,
     e ∈ WorkflowRunStatus.Steps (WorkflowRun.Status run) →
     WorkflowStepStatus.Name e ≠ stepName →
     WorkflowStepStatus.Name e ∉ dep →
     generateStepID restarted (WorkflowStepStatus.Name e) r = (WorkflowStepStatus.ID e, r)
     ∧ (NoDup (StepStatus.Name <$> WorkflowStepStatus.SubStepsStatus e) →
        ∀ sub, sub ∈ WorkflowStepStatus.SubStepsStatus e →
          generateSubStepID restarted (StepStatus.Name sub) (WorkflowStepStatus.Name e) r
          = (StepStatus.ID sub, r)))
  ∧ (∀ name r,
       name = stepName ∨ name ∈ dep →
       generateStepID restarted name r = RandomString 10 r
       ∧ ∀ subName, generateSubStepID restarted subName name r = RandomString 10 r).
Proof.
  intros Hname Hdecl Hst Hpre Hs Hphase Hnd Hdep restarted.
  pose proof (cleared_status_Steps (WorkflowRun.Status run)) as Hsteps.
  pose proof (cleared_status_cleared (WorkflowRun.Status run))
    as (_ & _ & _ & _ & _ & Hmode).
  assert (Hkept : WorkflowRunStatus.Steps restarted
                  = deleteStepStatus dep (WorkflowRunStatus.Steps (WorkflowRun.Status run))
                      stepName false).
  { subst restarted. rewrite RestartFromStep_declared by done.
    destruct (declaredSteps cli run) as [[e|steps'] cli1]; [discriminate|].
    simpl in Hdecl. injection Hdecl as ->.
    destruct (restartFrom_failed_step rangeMap NewValue formatNode fuel cli1
                (WorkflowRun.with_Status (clearedStatus (WorkflowRun.Status run)) run)
                steps stepName pre post s dep) as (out & c' & Hres & _); try done.
    { simpl. by rewrite Hsteps. }
    { simpl. by rewrite Hmode. }
    rewrite Hres. simpl. by rewrite Hsteps. }
  clearbody restarted.
  set (statuses := WorkflowRunStatus.Steps (WorkflowRun.Status run)) in *.
  assert (Hndk : NoDup (WorkflowStepStatus.Name <$> WorkflowRunStatus.Steps restarted)).
  { rewrite Hkept. eapply sublist_NoDup; [exact Hnd|].
    apply fmap_sublist. rewrite deleteStepStatus_filter. apply filter_bool_sublist. }
  split.
  - intros e r He Hne Hnotdep.
    assert (Hin : e ∈ WorkflowRunStatus.Steps restarted).
    { rewrite Hkept. apply deleteStepStatus_elem. by repeat split. }
    destruct (NoDup_fmap_first WorkflowStepStatus.Name _ e Hndk Hin)
      as (kpre & kpost & Heq & Hkpre).
    split.
    + unfold generateStepID. by rewrite Heq, (recordedStepID_first kpre kpost e).
    + intros Hnds sub Hsub.
      destruct (NoDup_fmap_first StepStatus.Name _ sub Hnds Hsub)
        as (spre & spost & Hseq & Hspre).
      unfold generateSubStepID. rewrite Heq, recordedSubStepID_skip.
      * simpl. rewrite decide_True by done.
        by rewrite Hseq, (recordedSubID_first spre spost sub).
      * intros p Hp Hpn. exfalso. apply Hkpre. rewrite <- Hpn.
        by apply list_elem_of_fmap_2.
  - intros name r Hgone.
    assert (Hnone : ∀ p, p ∈ WorkflowRunStatus.Steps restarted →
                         WorkflowStepStatus.Name p ≠ name).
    { intros p Hp Hpn. rewrite Hkept in Hp.
      apply deleteStepStatus_elem in Hp as (_ & Hnotdep & Hne).
      destruct Hgone as [->| Hd]; [by apply (Hne eq_refl) | apply Hnotdep; by rewrite Hpn]. }
    split.
    + unfold generateStepID. rewrite recordedStepID_None; [done|].
      intros (p & Hpn & Hp)%list_elem_of_fmap. by apply (Hnone p Hp).
    + intros subName. unfold generateSubStepID.
      rewrite <- (app_nil_r (WorkflowRunStatus.Steps restarted)).
      rewrite recordedSubStepID_skip; [done|].
      intros p Hp Hpn. by destruct (Hnone p Hp).
Qed.

Lemma ids_after_restart_witness :
  let restarted :=
    WorkflowRun.Status
      (RestartFromStep keyOrder exampleNewValue exampleFormat 0
         (exampleCluster scenario5Status) (exampleRun scenario5Steps scenario5Status) "c").2 in
  let r := mkRand (fun n => n) 0 in
  generateStepID restarted "b" r = ("id-b", r)
  ∧ generateStepID restarted "c" r = RandomString 10 r
  ∧ generateStepID restarted "d" r = RandomString 10 r.
Proof.
  intros restarted r.
  pose proof (ids_after_restart keyOrder exampleNewValue exampleFormat 0
                (exampleCluster scenario5Status) (exampleRun scenario5Steps scenario5Status)
                "c" scenario5Steps
                [ WorkflowStepStatus.mk (exampleStatus "a" "apply" WorkflowStepPhaseSucceeded "") [];
                  WorkflowStepStatus.mk (exampleStatus "b" "apply" WorkflowStepPhaseSucceeded "") [] ]
                [ WorkflowStepStatus.mk (exampleStatus "d" "apply" WorkflowStepPhasePending "") [] ]
                (WorkflowStepStatus.mk (exampleStatus "c" "apply" WorkflowStepPhaseFailed "Execute") [])
                ["d"] ltac:(done) eq_refl eq_refl ltac:(by apply (bool_decide_unpack _))
                eq_refl eq_refl ltac:(by apply (bool_decide_unpack _)) eq_refl)
    as [Hkept Hfresh].
  split; [|split].
  - apply (Hkept (WorkflowStepStatus.mk
                    (exampleStatus "b" "apply" WorkflowStepPhaseSucceeded "") []) r).
    + right. left.
    + done.
    + by apply (bool_decide_unpack _).
  - apply (Hfresh "c" r). by left.
  - apply (Hfresh "d" r). right. left.
Defined.

(** ** Suspend, then resume *)

Lemma Forall2_same {A : Type} (R : A → A → Prop) (P : A → Prop) (l l' : list A) :
  (∀ x y, P x → R x y → y = x) → Forall P l → Forall2 R l l' → l' = l.
Proof.
  intros HR HP Hl. induction Hl as [|x y l l' Hxy Hl IH]; [done|].
  apply Forall_cons in HP as [Hx HP]. f_equal; [by apply HR | by apply IH].
Qed.

Lemma resumedEntry_same (s s' : StepStatus.t) :
  ¬ (StepStatus.Type_ s = WorkflowStepTypeSuspend
     ∧ StepStatus.Phase s = WorkflowStepPhaseRunning) →
  resumedEntry s s' → s' = s.
Proof.
  intros Hn (Hid & Hname & Htype & Hmsg & Hreason & Hfirst & Hlast & _ & Hkeep).
  apply StepStatus_ext; try done. apply Hkeep.
  destruct (decide (StepStatus.Type_ s = WorkflowStepTypeSuspend)); [|by left].
  right. intros Hp. by apply Hn.
Qed.

Lemma resumeSteps_same (steps : list WorkflowStepStatus.t) :
  Forall (fun step =>
            ¬ (WorkflowStepStatus.Type_ step = WorkflowStepTypeSuspend
               ∧ WorkflowStepStatus.Phase step = WorkflowStepPhaseRunning)
            ∧ Forall (fun sub =>
                        ¬ (StepStatus.Type_ sub = WorkflowStepTypeSuspend
                           ∧ StepStatus.Phase sub = WorkflowStepPhaseRunning))
                     (WorkflowStepStatus.SubStepsStatus step)) steps →
  rangeUpdate resumeStep steps = steps.
Proof.
  intros Hall. eapply Forall2_same; [|exact Hall|apply resumeSteps_Forall2].
  intros [s subs] [s' subs'] [Hs Hsubs] [Hs' Hsubs']. simpl in *.
  f_equal; [by apply resumedEntry_same|].
  eapply Forall2_same; [|exact Hsubs|exact Hsubs'].
  intros x y. apply resumedEntry_same.
Qed.

Lemma Suspend_no_faults (wo : workflowRunOperator) (st : WorkflowRunStatus.t) :
  faults (cli wo) = [] →
  runs (cli wo) !! runKey (run wo) = Some st →
  Suspend wo
  = let '(err, w) := writeOutputF (outputWriter wo)
                       ("Successfully suspend workflow: " +:+ WorkflowRun.Name (run wo) +:+ "
") in
    (err, mkOperator
            (with_runs (<[runKey (run wo) := WorkflowRunStatus.with_Suspend true st]>
                          (runs (cli wo))) (cli wo))
            w (WorkflowRun.with_Status (WorkflowRunStatus.with_Suspend true st) (run wo))).
Proof.
  intros Hf Hst. unfold Suspend, DefaultBackoffSteps. simpl retryOnConflictWith.
  unfold suspendOnce at 1, GetRun. simpl.
  rewrite (next_fault_nil _ Hf). fold (runKey (run wo)). rewrite Hst.
  unfold StatusPatch. cbn [fst snd]. rewrite (next_fault_nil _ Hf). simpl.
  fold (runKey (run wo)). rewrite Hst.
  rewrite (mergePatch_same (WorkflowRunStatus.with_Suspend true st) st) by done.
  reflexivity.
Qed.

(** X26. Suspend and then Resume, on a cluster that answers every call, of
    a run that is stored, not terminated and not suspended, and has no step
    of type suspend that is running: the stored status of the run is again
    the one stored before, the status in memory is that status, and the
    rest of the cluster is as before. The status that the operator had in
    memory before does not matter. *)
Theorem suspend_then_resume (wo : workflowRunOperator) (st : WorkflowRunStatus.t) :
  faults (cli wo) = [] →
  runs (cli wo) !! runKey (run wo) = Some st →
  WorkflowRunStatus.Terminated st = false →
  WorkflowRunStatus.Suspend st = false →
  noSuspendRunning st →
  let wo1 := (Suspend wo).2 in
  let wo2 := (Resume wo1).2 in
  WorkflowRunStatus.Suspend (WorkflowRun.Status (run wo1)) = true
  ∧ runs (cli wo1) !! runKey (run wo) = Some (WorkflowRunStatus.with_Suspend true st)
  ∧ WorkflowRun.Status (run wo2) = st
  ∧ runs (cli wo2) = runs (cli wo)
  ∧ configMaps (cli wo2) = configMaps (cli wo)
  ∧ workflows (cli wo2) = workflows (cli wo).
Proof.
  intros Hf Hst Hterm Hsusp Hsteps wo1 wo2.
  destruct wo as [c w r]. simpl in *. destruct c as [cms wfs rs fs]. simpl in *. subst fs.
  assert (H1 : cli wo1 = mkCluster cms wfs
                           (<[runKey r := WorkflowRunStatus.with_Suspend true st]> rs) []
               ∧ run wo1 = WorkflowRun.with_Status (WorkflowRunStatus.with_Suspend true st) r).
  { subst wo1.
    rewrite (Suspend_no_faults (mkOperator (mkCluster cms wfs rs []) w r) st eq_refl Hst).
    simpl.
    by destruct (writeOutputF w _). }
  destruct H1 as [Hc1 Hr1]. clearbody wo1.
  assert (H2 : cli wo2 = mkCluster cms wfs rs [] ∧ WorkflowRun.Status (run wo2) = st).
  { subst wo2. unfold Resume. rewrite Hr1, Hc1. simpl. rewrite Hterm.
    assert (HR : ResumeWorkflow
                   (mkCluster cms wfs
                      (<[runKey r := WorkflowRunStatus.with_Suspend true st]> rs) [])
                   (WorkflowRun.with_Status (WorkflowRunStatus.with_Suspend true st) r)
                 = (None, mkCluster cms wfs rs [], WorkflowRun.with_Status st r)).
    { unfold ResumeWorkflow. simpl. rewrite (resumeSteps_same _ Hsteps).
      assert (Hback : WorkflowRunStatus.with_Steps (WorkflowRunStatus.Steps st)
                        (WorkflowRunStatus.with_Suspend false
                           (WorkflowRunStatus.with_Suspend true st)) = st).
      { destruct st. simpl in *. by subst. }
      rewrite Hback.
      unfold DefaultBackoffSteps. simpl retryOnConflictWith.
      unfold StatusPatch at 1. cbn [fst snd]. unfold next_fault. simpl.
      fold (runKey r). rewrite lookup_insert_eq. unfold with_runs. simpl.
      rewrite (mergePatch_same st (WorkflowRunStatus.with_Suspend true st)) by done.
      rewrite insert_insert_eq, (insert_id rs _ _ Hst). reflexivity. }
    rewrite HR. by destruct (writeOutputF (outputWriter wo1) _). }
  destruct H2 as [Hc2 Hr2]. rewrite Hc2, Hc1, Hr1. simpl.
  split; [done|]. split; [apply lookup_insert_eq|]. done.
Qed.

Lemma suspend_then_resume_witness :
  let stored :=
    WorkflowRunStatus.mk false false false None
      [ WorkflowStepStatus.mk (exampleStatus "a" "apply" WorkflowStepPhaseSucceeded "") [];
        WorkflowStepStatus.mk (exampleStatus "b" "apply" WorkflowStepPhaseRunning "") [] ]
      None (mkMode WorkflowModeStep WorkflowModeStep) in
  let wo := mkOperator (exampleCluster stored) None
              (exampleRun scenario5Steps WorkflowRunStatus.zero) in
  WorkflowRun.Status (run (Resume (Suspend wo).2).2) = stored
  ∧ runs (cli (Resume (Suspend wo).2).2) = runs (cli wo).
Proof.
  intros stored wo.
  destruct (suspend_then_resume wo stored eq_refl eq_refl eq_refl eq_refl)
    as (_ & _ & H1 & H2 & _).
  - repeat constructor; by intros [? ?].
  - split; [exact H1 | exact H2].
Defined.
